(** * isaac_like.cpp: dungeon generation, run state machine and tick simulation

    A shallow embedding of the game core of [src/isaac_like.cpp]:
    the randomized depth-first dungeon carver, boss selection, room
    population, the per-tick phases (movement, enemy update, bullets,
    contact damage, door transitions, run-state checks) and the restart
    command; and the software renderer (pixel primitives, room, HUD and
    the frame) over a list of pixels.  Window handling is left out.

    Conventions.
    - C++ [float] is IEEE binary32; it is modelled by [spec_float] with
      precision 24 and maximal exponent 128, every operation rounding to
      nearest-even as the hardware does (each [float] operation is
      evaluated in single precision, without fused multiply-add).
    - C++ [int] is modelled by [Z]; every integer of the program stays
      within a few thousands, far from the 32-bit limits.
    - The random engine is an oracle: arbitrary infinite sequences of raw
      integer and float draws with a read cursor.  All theorems quantify
      over the oracle.
    - Keyboard polling is an explicit [Keys] record handed to each step. *)

From Stdlib Require Import ZArith List Bool Lia Sorted.
From Stdlib Require Import Floats.SpecFloat.
Import ListNotations.

#[local] Open Scope Z_scope.

(** ** Single precision arithmetic *)

Module F32.

Definition prec : Z := 24.
Definition emax : Z := 128.

Definition float : Type := spec_float.

Definition add (a b : float) : float := SFadd prec emax a b.
Definition sub (a b : float) : float := SFsub prec emax a b.
Definition mul (a b : float) : float := SFmul prec emax a b.
Definition div (a b : float) : float := SFdiv prec emax a b.
Definition sqrt (a : float) : float := SFsqrt prec emax a.
Definition ltb (a b : float) : bool := SFltb a b.
Definition leb (a b : float) : bool := SFleb a b.
Definition gtb (a b : float) : bool := SFltb b a.
Definition neb (a b : float) : bool := negb (SFeqb a b).

(** [float(n)] for an integer [n]. *)
Definition of_Z (n : Z) : float := binary_normalize prec emax n 0 false.

(** A decimal literal [n / d] with the [f] suffix: the nearest binary32. *)
Definition lit (n d : Z) : float := div (of_Z n) (of_Z d).

(** [(float)x] for a [double] [x]. *)
Definition of_double (x : spec_float) : float :=
  match x with
  | S754_finite s m e =>
      binary_normalize prec emax (if s then Z.neg m else Z.pos m) e s
  | _ => x
  end.

(** [int(x)]: truncation toward zero (the conversion is undefined in C++
    outside the [int] range and for NaN; the program only converts the
    radii 12 and 14). *)
Definition to_int (x : float) : Z :=
  match x with
  | S754_finite s m e =>
      let v := if 0 <=? e then Z.pos m * 2 ^ e else Z.quot (Z.pos m) (2 ^ (- e)) in
      if s then - v else v
  | _ => 0
  end.

Definition zero : float := of_Z 0.

(** Classification: NaN, number of finite value, sign bit. *)
Definition is_nan (x : float) : bool :=
  match x with S754_nan => true | _ => false end.

Definition is_finite (x : float) : bool :=
  match x with S754_zero _ | S754_finite _ _ _ => true | _ => false end.

Definition sign_bit (x : float) : bool :=
  match x with
  | S754_zero s | S754_infinity s | S754_finite s _ _ => s
  | S754_nan => false
  end.

(** [std::max(a, b)] is [(a < b) ? b : a]. *)
Definition max (a b : float) : float := if ltb a b then b else a.

(** The file-local [clamp] template. *)
Definition clamp (v lo hi : float) : float :=
  if ltb v lo then lo else if gtb v hi then hi else v.

End F32.

Definition float : Type := F32.float.

Declare Scope f32_scope.
Delimit Scope f32_scope with f32.
Infix "+" := F32.add : f32_scope.
Infix "-" := F32.sub : f32_scope.
Infix "*" := F32.mul : f32_scope.
Infix "/" := F32.div : f32_scope.
Infix "<?" := F32.ltb : f32_scope.
Infix "<=?" := F32.leb : f32_scope.
Infix ">?" := F32.gtb : f32_scope.

(** ** Vectors *)

Record Vec : Type := mkVec { vx : float; vy : float }.

Definition vadd (a b : Vec) : Vec := mkVec (vx a + vx b)%f32 (vy a + vy b)%f32.
Definition vsub (a b : Vec) : Vec := mkVec (vx a - vx b)%f32 (vy a - vy b)%f32.
Definition vscale (a : Vec) (s : float) : Vec := mkVec (vx a * s)%f32 (vy a * s)%f32.
Definition dot (a b : Vec) : float := (vx a * vx b + vy a * vy b)%f32.
Definition len (a : Vec) : float := F32.sqrt (dot a a).
Definition norm (a : Vec) : Vec :=
  let L := len a in
  if (L >? F32.zero)%f32 then vscale a (F32.of_Z 1 / L)%f32
  else mkVec F32.zero F32.zero.

(** ** Directions *)

Inductive Dir : Type := Up | Right | Down | Left.

Definition dir_int (d : Dir) : Z :=
  match d with Up => 0 | Right => 1 | Down => 2 | Left => 3 end.

(** ** Entities *)

Record Bullet : Type := mkBullet {
  b_p : Vec; b_v : Vec; b_r : float; b_ttl : float; b_dead : bool }.

Record Enemy : Type := mkEnemy {
  e_p : Vec; e_r : float; e_hp : float; e_speed : float;
  e_kind : Z; e_patrolDir : Vec; e_dead : bool }.

(** [bool doors[4]], indexed by [(int)d]: U R D L. *)
Record Doors : Type := mkDoors { dU : bool; dR : bool; dD : bool; dL : bool }.

Definition door_get (ds : Doors) (i : Z) : bool :=
  match i with
  | 0 => dU ds | 1 => dR ds | 2 => dD ds | 3 => dL ds | _ => false
  end.

Definition door_set (ds : Doors) (i : Z) : Doors :=
  match i with
  | 0 => mkDoors true (dR ds) (dD ds) (dL ds)
  | 1 => mkDoors (dU ds) true (dD ds) (dL ds)
  | 2 => mkDoors (dU ds) (dR ds) true (dL ds)
  | 3 => mkDoors (dU ds) (dR ds) (dD ds) true
  | _ => ds
  end.

Record Room : Type := mkRoom {
  r_exists : bool; r_cleared : bool; r_boss : bool;
  r_doors : Doors; r_enemies : list Enemy }.

(** [Room{}] *)
Definition Room0 : Room :=
  mkRoom false false false (mkDoors false false false false) [].

Definition set_exists (R : Room) (b : bool) : Room :=
  mkRoom b (r_cleared R) (r_boss R) (r_doors R) (r_enemies R).
Definition set_cleared (R : Room) (b : bool) : Room :=
  mkRoom (r_exists R) b (r_boss R) (r_doors R) (r_enemies R).
Definition set_boss (R : Room) (b : bool) : Room :=
  mkRoom (r_exists R) (r_cleared R) b (r_doors R) (r_enemies R).
Definition set_door (R : Room) (i : Z) : Room :=
  mkRoom (r_exists R) (r_cleared R) (r_boss R) (door_set (r_doors R) i) (r_enemies R).
Definition set_enemies (R : Room) (es : list Enemy) : Room :=
  mkRoom (r_exists R) (r_cleared R) (r_boss R) (r_doors R) es.

Record Player : Type := mkPlayer {
  pl_p : Vec; pl_r : float; pl_speed : float; pl_hp : Z;
  pl_shots : list Bullet; pl_shotCooldown : float }.

(** ** Constants *)

Definition WIDTH : Z := 960.
Definition HEIGHT : Z := 540.
Definition GRID_W : Z := 5.
Definition GRID_H : Z := 5.
Definition ROOM_W : Z := 720.
Definition ROOM_H : Z := 400.
Definition ROOM_X : Z := Z.quot (WIDTH - ROOM_W) 2.
Definition ROOM_Y : Z := Z.quot (HEIGHT - ROOM_H) 2.
Definition DOOR_W : Z := 80.
Definition DOOR_H : Z := 18.

(** [Player{}] *)
Definition Player0 : Player :=
  mkPlayer (mkVec F32.zero F32.zero) (F32.of_Z 12) (F32.of_Z 125) 6 [] F32.zero.

(** ** The random engine as an oracle *)

Record RNG : Type := mkRNG { draws : nat -> Z; fdraws : nat -> float; cursor : nat }.

Definition next (g : RNG) : Z * RNG :=
  (draws g (cursor g), mkRNG (draws g) (fdraws g) (S (cursor g))).

(** [randint(a, b)]: some integer of [a..b] fixed by the engine state. *)
Definition randint (a b : Z) (g : RNG) : Z * RNG :=
  let (v, g') := next g in (a + v mod (b - a + 1), g').

(** [randf(a, b)]: some float of the range fixed by the engine state.
    How [std::uniform_real_distribution<float>] turns engine output into
    a float is left to the implementation, so the oracle supplies the
    float itself: any binary32 [v] with [a <= v <= b] can come out (the
    upper bound included, which implementations can reach through
    rounding), and nothing outside the range. *)
Definition randf (a b : float) (g : RNG) : float * RNG :=
  let v := fdraws g (cursor g) in
  (if valid_binary F32.prec F32.emax v && (a <=? v)%f32 && (v <=? b)%f32 then v else a,
   mkRNG (draws g) (fdraws g) (S (cursor g))).

(** ** The dungeon grid: [Room g_dungeon[GRID_H][GRID_W]] *)

Definition Grid : Type := list (list Room).

Definition inb (X Y : Z) : bool :=
  (X >=? 0) && (Y >=? 0) && (X <? GRID_W) && (Y <? GRID_H).

Fixpoint upd {A : Type} (n : nat) (f : A -> A) (l : list A) : list A :=
  match l with
  | [] => []
  | a :: l' => match n with
               | O => f a :: l'
               | S n' => a :: upd n' f l'
               end
  end.

(** [g_dungeon[y][x]] read.  The program guards every access by a bounds
    test; outside the grid the model reads a default room. *)
Definition getRoom (g : Grid) (x y : Z) : Room :=
  if inb x y then nth (Z.to_nat x) (nth (Z.to_nat y) g []) Room0 else Room0.

(** [g_dungeon[y][x] = r]; nothing is written outside the grid. *)
Definition setRoom (g : Grid) (x y : Z) (r : Room) : Grid :=
  if inb x y then upd (Z.to_nat y) (upd (Z.to_nat x) (fun _ => r)) g else g.

Definition modRoom (g : Grid) (x y : Z) (f : Room -> Room) : Grid :=
  setRoom g x y (f (getRoom g x y)).

Definition emptyDungeon : Grid :=
  repeat (repeat Room0 (Z.to_nat GRID_W)) (Z.to_nat GRID_H).

(** Row-major scan order of the nested [for y .. for x ..] loops. *)
Definition allCells : list (Z * Z) :=
  flat_map (fun y => map (fun x => (x, y)) [0; 1; 2; 3; 4]) [0; 1; 2; 3; 4].

(** ** Global state

    The file-scope globals [g_player], [g_dungeon], [g_rx], [g_ry],
    [g_startx], [g_starty], [g_runOver], [g_allCleared], [g_rng],
    [g_running] and the function-local [static float hurtCD] of
    [playerHitCheck], which lives as long as the process. *)

Record State : Type := mkState {
  g_player : Player;
  g_dungeon : Grid;
  g_rx : Z; g_ry : Z;
  g_startx : Z; g_starty : Z;
  g_runOver : bool;
  g_allCleared : bool;
  g_rng : RNG;
  hurtCD : float;
  g_running : bool }.

Definition set_player (s : State) (p : Player) : State :=
  mkState p (g_dungeon s) (g_rx s) (g_ry s) (g_startx s) (g_starty s)
          (g_runOver s) (g_allCleared s) (g_rng s) (hurtCD s) (g_running s).
Definition set_dungeon (s : State) (g : Grid) : State :=
  mkState (g_player s) g (g_rx s) (g_ry s) (g_startx s) (g_starty s)
          (g_runOver s) (g_allCleared s) (g_rng s) (hurtCD s) (g_running s).
Definition set_cursor (s : State) (x y : Z) : State :=
  mkState (g_player s) (g_dungeon s) x y (g_startx s) (g_starty s)
          (g_runOver s) (g_allCleared s) (g_rng s) (hurtCD s) (g_running s).
Definition set_runOver (s : State) (b : bool) : State :=
  mkState (g_player s) (g_dungeon s) (g_rx s) (g_ry s) (g_startx s) (g_starty s)
          b (g_allCleared s) (g_rng s) (hurtCD s) (g_running s).
Definition set_allCleared (s : State) (b : bool) : State :=
  mkState (g_player s) (g_dungeon s) (g_rx s) (g_ry s) (g_startx s) (g_starty s)
          (g_runOver s) b (g_rng s) (hurtCD s) (g_running s).
Definition set_hurtCD (s : State) (c : float) : State :=
  mkState (g_player s) (g_dungeon s) (g_rx s) (g_ry s) (g_startx s) (g_starty s)
          (g_runOver s) (g_allCleared s) (g_rng s) c (g_running s).
Definition set_running (s : State) (b : bool) : State :=
  mkState (g_player s) (g_dungeon s) (g_rx s) (g_ry s) (g_startx s) (g_starty s)
          (g_runOver s) (g_allCleared s) (g_rng s) (hurtCD s) b.

Definition set_pos (p : Player) (v : Vec) : Player :=
  mkPlayer v (pl_r p) (pl_speed p) (pl_hp p) (pl_shots p) (pl_shotCooldown p).
Definition set_hp (p : Player) (h : Z) : Player :=
  mkPlayer (pl_p p) (pl_r p) (pl_speed p) h (pl_shots p) (pl_shotCooldown p).
Definition set_shots (p : Player) (bs : list Bullet) : Player :=
  mkPlayer (pl_p p) (pl_r p) (pl_speed p) (pl_hp p) bs (pl_shotCooldown p).
Definition set_shotCooldown (p : Player) (c : float) : Player :=
  mkPlayer (pl_p p) (pl_r p) (pl_speed p) (pl_hp p) (pl_shots p) c.

(** ** Geometry *)

Record RECT : Type := mkRECT { left : Z; top : Z; right : Z; bottom : Z }.

Definition doorRect (d : Dir) : RECT :=
  match d with
  | Up => mkRECT (ROOM_X + Z.quot (ROOM_W - DOOR_W) 2) (ROOM_Y - 2)
                 (ROOM_X + Z.quot (ROOM_W + DOOR_W) 2) (ROOM_Y + DOOR_H)
  | Down => mkRECT (ROOM_X + Z.quot (ROOM_W - DOOR_W) 2) (ROOM_Y + ROOM_H - DOOR_H)
                   (ROOM_X + Z.quot (ROOM_W + DOOR_W) 2) (ROOM_Y + ROOM_H + 2)
  | Left => mkRECT (ROOM_X - 2) (ROOM_Y + Z.quot (ROOM_H - DOOR_W) 2)
                   (ROOM_X + DOOR_H) (ROOM_Y + Z.quot (ROOM_H + DOOR_W) 2)
  | Right => mkRECT (ROOM_X + ROOM_W - DOOR_H) (ROOM_Y + Z.quot (ROOM_H - DOOR_W) 2)
                    (ROOM_X + ROOM_W + 2) (ROOM_Y + Z.quot (ROOM_H + DOOR_W) 2)
  end.

(** Win32 [InflateRect(&rc, dx, dy)]. *)
Definition InflateRect (rc : RECT) (dx dy : Z) : RECT :=
  mkRECT (left rc - dx) (top rc - dy) (right rc + dx) (bottom rc + dy).

Definition circleRectOverlap (c : Vec) (r : float) (rc : RECT) : bool :=
  let nx := F32.clamp (vx c) (F32.of_Z (left rc)) (F32.of_Z (right rc)) in
  let ny := F32.clamp (vy c) (F32.of_Z (top rc)) (F32.of_Z (bottom rc)) in
  let dx := (vx c - nx)%f32 in
  let dy := (vy c - ny)%f32 in
  (dx * dx + dy * dy <=? r * r)%f32.

(** ** Room population: [spawnEnemies] *)

(** The body of [for (int i = 0; i < count; ++i)]; [n] iterations are left
    and [i] is the loop index.  The two coordinates are drawn in the order
    x, y (C++ leaves the order of the two calls open). *)
Fixpoint spawnLoop (boss : bool) (n : nat) (i : Z) (es : list Enemy) (g : RNG)
  : list Enemy * RNG :=
  match n with
  | O => (es, g)
  | S n' =>
      let (px, g1) := randf (F32.of_Z (ROOM_X + 40)) (F32.of_Z (ROOM_X + ROOM_W - 40)) g in
      let (py, g2) := randf (F32.of_Z (ROOM_Y + 40)) (F32.of_Z (ROOM_Y + ROOM_H - 40)) g1 in
      let (kind, g3) := if boss then (Z.rem i 2, g2) else randint 0 1 g2 in
      let e := mkEnemy (mkVec px py)
                       (if boss then F32.of_Z 14 else F32.of_Z 12)
                       (if boss then F32.of_Z 4 else F32.of_Z 2)
                       (if boss then F32.of_Z 70 else F32.of_Z 55)
                       kind (mkVec (F32.of_Z 1) (F32.of_Z 0)) false in
      spawnLoop boss n' (i + 1) (es ++ [e]) g3
  end.

Definition spawnEnemies (R : Room) (g : RNG) : Room * RNG :=
  let (c, g1) := randint 2 5 g in
  let count := if r_boss R then 6 else c in
  let (es, g2) := spawnLoop (r_boss R) (Z.to_nat count) 0 [] g1 in
  (set_cleared (set_enemies R es) (match es with [] => true | _ => false end), g2).

(** ** Dungeon generation: [carveDungeon] *)

(** [std::shuffle] of the four directions: an exchange shuffle driven by
    the engine; position [i] is exchanged with a position of [0..i]. *)
Definition swapAt (l : list Dir) (i j : nat) : list Dir :=
  let a := nth i l Up in
  let b := nth j l Up in
  upd j (fun _ => a) (upd i (fun _ => b) l).

Definition shuffle (g : RNG) : list Dir * RNG :=
  let l0 := [Up; Right; Down; Left] in
  let (j1, g1) := randint 0 1 g in
  let l1 := swapAt l0 1 (Z.to_nat j1) in
  let (j2, g2) := randint 0 2 g1 in
  let l2 := swapAt l1 2 (Z.to_nat j2) in
  let (j3, g3) := randint 0 3 g2 in
  (swapAt l2 3 (Z.to_nat j3), g3).

(** The cell reached from [(x, y)] in direction [d]. *)
Definition stepx (x : Z) (d : Dir) : Z :=
  x + match d with Right => 1 | Left => -1 | _ => 0 end.
Definition stepy (y : Z) (d : Dir) : Z :=
  y + match d with Down => 1 | Up => -1 | _ => 0 end.

(** The four writes of the [// carve] block. *)
Definition carve (g : Grid) (cx cy : Z) (d : Dir) : Grid :=
  let nx := stepx cx d in
  let ny := stepy cy d in
  let g1 := modRoom g cx cy (fun R => set_exists R true) in
  let g2 := modRoom g1 nx ny (fun R => set_exists R true) in
  let g3 := modRoom g2 cx cy (fun R => set_door R (dir_int d)) in
  modRoom g3 nx ny (fun R => set_door R (Z.rem (dir_int d + 2) 4)).

(** [for (Dir d : dirs)]: the first direction that leads to a free cell
    inside the grid is carved; [None] when no direction does. *)
Fixpoint tryDirs (g : Grid) (cx cy : Z) (dirs : list Dir) : option (Grid * (Z * Z)) :=
  match dirs with
  | [] => None
  | d :: ds =>
      let nx := stepx cx d in
      let ny := stepy cy d in
      if negb (inb nx ny) || r_exists (getRoom g nx ny) then tryDirs g cx cy ds
      else Some (carve g cx cy d, (nx, ny))
  end.

(** Loop state of the carver.  [c_stack] holds the DFS stack with its
    [back()] at the head. *)
Record Carver : Type := mkCarver {
  c_grid : Grid;
  c_stack : list (Z * Z);
  c_order : list (Z * Z);
  c_made : Z;
  c_rng : RNG }.

(** One iteration of [while (made < targetRooms && !stack.empty())]. *)
Definition carveStep (c : Carver) : Carver :=
  match c_stack c with
  | [] => c
  | (cx, cy) :: rest =>
      let (dirs, g') := shuffle (c_rng c) in
      match tryDirs (c_grid c) cx cy dirs with
      | Some (gr, n) =>
          mkCarver gr (n :: c_stack c) (c_order c ++ [n]) (c_made c + 1) g'
      | None => mkCarver (c_grid c) rest (c_order c) (c_made c) g'
      end
  end.

Definition carveCond (target : Z) (c : Carver) : bool :=
  (c_made c <? target) && match c_stack c with [] => false | _ => true end.

(** The loop, with an iteration budget; [None] means the budget ran out
    before the loop condition failed. *)
Fixpoint carveLoop (fuel : nat) (target : Z) (c : Carver) : option Carver :=
  if carveCond target c then
    match fuel with
    | O => None
    | S f => carveLoop f target (carveStep c)
    end
  else Some c.

(** Every push adds a room and every other iteration pops, so
    [2 * targetRooms] iterations always suffice; see [carveLoop_total]. *)
Definition carveFuel (target : Z) : nat := Z.to_nat (2 * target).

Definition dist (sx sy x y : Z) : Z :=
  let dx := x - sx in
  let dy := y - sy in
  dx * dx + dy * dy.

(** The boss scan: [(bx, by, best)] after the row-major pass. *)
Definition bossStep (g : Grid) (sx sy : Z) (acc : Z * Z * Z) (c : Z * Z) : Z * Z * Z :=
  let '(bx, by_, best) := acc in
  let (x, y) := c in
  if negb (r_exists (getRoom g x y)) then acc
  else
    let d := dist sx sy x y in
    if d >? best then (x, y, d) else acc.

Definition bossScan (g : Grid) (sx sy : Z) : Z * Z * Z :=
  fold_left (bossStep g sx sy) allCells (sx, sy, -1).

Definition markBoss (g : Grid) (sx sy : Z) : Grid :=
  let '(bx, by_, _) := bossScan g sx sy in
  modRoom g bx by_ (fun R => set_boss R true).

(** The [// Populate enemies] pass. *)
Definition populateStep (sx sy : Z) (acc : Grid * RNG) (c : Z * Z) : Grid * RNG :=
  let (g, rng) := acc in
  let (x, y) := c in
  if r_exists (getRoom g x y) then
    if (x =? sx) && (y =? sy) then (modRoom g x y (fun R => set_cleared R true), rng)
    else
      let (R', rng') := spawnEnemies (getRoom g x y) rng in
      (setRoom g x y R', rng')
  else acc.

Definition populate (g : Grid) (sx sy : Z) (rng : RNG) : Grid * RNG :=
  fold_left (populateStep sx sy) allCells (g, rng).

(** The carving part of [carveDungeon]: reset, target draw and DFS. *)
Definition carveInit (cx cy : Z) (rng : RNG) : Carver :=
  mkCarver (modRoom emptyDungeon cx cy (fun R => set_exists R true))
           [(cx, cy)] [(cx, cy)] 1 rng.

Definition carveRooms (rng : RNG) : Z * option Carver :=
  let (targetRooms, rng1) := randint 6 9 rng in
  let cx := Z.quot GRID_W 2 in
  let cy := Z.quot GRID_H 2 in
  (targetRooms, carveLoop (carveFuel targetRooms) targetRooms (carveInit cx cy rng1)).

Definition carveDungeon (s : State) : State :=
  let cx := Z.quot GRID_W 2 in
  let cy := Z.quot GRID_H 2 in
  let c := match snd (carveRooms (g_rng s)) with
           | Some c => c
           | None => carveInit cx cy (g_rng s)
           end in
  let g1 := markBoss (c_grid c) cx cy in
  let (g2, rng2) := populate g1 cx cy (c_rng c) in
  mkState (g_player s) g2 (g_rx s) (g_ry s) cx cy
          (g_runOver s) (g_allCleared s) rng2 (hurtCD s) (g_running s).

(** ** [resetRun] *)

Definition resetRun (s : State) : State :=
  let s1 := carveDungeon s in
  let s2 := set_cursor s1 (g_startx s1) (g_starty s1) in
  let p := set_pos Player0
             (mkVec (F32.of_Z ROOM_X + F32.of_Z ROOM_W / F32.of_Z 2)%f32
                    (F32.of_Z ROOM_Y + F32.of_Z ROOM_H / F32.of_Z 2)%f32) in
  let s3 := set_player s2 p in
  set_allCleared (set_runOver s3 false) false.

(** ** Input *)

Record Keys : Type := mkKeys {
  kW : bool; kS : bool; kA : bool; kD : bool;
  kUp : bool; kDown : bool; kLeft : bool; kRight : bool;
  kR : bool; kEsc : bool }.

(** The direction vector built from four key states, in the order
    up, down, left, right of the source. *)
Definition keyVec (u d l r : bool) : Vec :=
  let y0 := F32.zero in
  let y1 := if u then (y0 - F32.of_Z 1)%f32 else y0 in
  let y2 := if d then (y1 + F32.of_Z 1)%f32 else y1 in
  let x0 := F32.zero in
  let x1 := if l then (x0 - F32.of_Z 1)%f32 else x0 in
  let x2 := if r then (x1 + F32.of_Z 1)%f32 else x1 in
  mkVec x2 y2.

Definition nonzero (v : Vec) : bool :=
  F32.neb (vx v) F32.zero || F32.neb (vy v) F32.zero.

(** The wall clamp shared by the player and the enemies. *)
Definition clampInner (p : Vec) (r : float) : Vec :=
  mkVec (F32.clamp (vx p) (F32.of_Z (ROOM_X + 20 + F32.to_int r))
                   (F32.of_Z (ROOM_X + ROOM_W - 20 - F32.to_int r)))
        (F32.clamp (vy p) (F32.of_Z (ROOM_Y + 20 + F32.to_int r))
                   (F32.of_Z (ROOM_Y + ROOM_H - 20 - F32.to_int r))).

(** ** Player phases *)

Definition playerUpdateMove (k : Keys) (dt : float) (s : State) : State :=
  let p := g_player s in
  let mv0 := keyVec (kW k) (kS k) (kA k) (kD k) in
  let mv := if nonzero mv0 then norm mv0 else mv0 in
  let pos := vadd (pl_p p) (vscale (vscale mv (pl_speed p)) dt) in
  set_player s (set_pos p (clampInner pos (pl_r p))).

Definition playerShoot (dir : Vec) (s : State) : State :=
  let p := g_player s in
  if (pl_shotCooldown p >? F32.zero)%f32 then s
  else
    let b := mkBullet (vadd (pl_p p) (vscale dir (pl_r p + F32.of_Z 6)%f32))
                      (vscale dir (F32.of_Z 360))
                      (F32.of_Z 5) (F32.lit 9 10) false in
    set_player s (set_shotCooldown (set_shots p (pl_shots p ++ [b])) (F32.lit 12 100)).

Definition playerShootInput (k : Keys) (s : State) : State :=
  let d := keyVec (kUp k) (kDown k) (kLeft k) (kRight k) in
  if nonzero d then playerShoot (norm d) s else s.

(** [if (g_player.shotCooldown > 0.f) g_player.shotCooldown -= (float)dt;] *)
Definition tickShotCooldown (dt : float) (s : State) : State :=
  let p := g_player s in
  if (pl_shotCooldown p >? F32.zero)%f32
  then set_player s (set_shotCooldown p (pl_shotCooldown p - dt)%f32)
  else s.

(** ** Enemies: [updateEnemies] *)

Definition flipx (v : Vec) : Vec := mkVec (vx v * F32.of_Z (-1))%f32 (vy v).
Definition flipy (v : Vec) : Vec := mkVec (vx v) (vy v * F32.of_Z (-1))%f32.

Definition enemyMove (pp : Vec) (dt : float) (e : Enemy) : Enemy :=
  if e_dead e then e
  else
    let toP := vsub pp (e_p e) in
    let d := len toP in
    let '(pos, pd) :=
      if e_kind e =? 0 then
        (vadd (e_p e) (vscale (vscale (norm toP) (e_speed e)) dt), e_patrolDir e)
      else
        let p1 := vadd (e_p e)
                    (vscale (vscale (e_patrolDir e) (e_speed e * F32.lit 75 100)%f32) dt) in
        let pd1 := if (vx p1 <? F32.of_Z (ROOM_X + 30))%f32
                      || (vx p1 >? F32.of_Z (ROOM_X + ROOM_W - 30))%f32
                   then flipx (e_patrolDir e) else e_patrolDir e in
        let pd2 := if (vy p1 <? F32.of_Z (ROOM_Y + 30))%f32
                      || (vy p1 >? F32.of_Z (ROOM_Y + ROOM_H - 30))%f32
                   then flipy pd1 else pd1 in
        let p2 := if (d <? F32.of_Z 180)%f32
                  then vadd p1 (vscale (vscale (norm toP) (e_speed e * F32.lit 4 10)%f32) dt)
                  else p1 in
        (p2, pd2) in
    mkEnemy (clampInner pos (e_r e)) (e_r e) (e_hp e) (e_speed e) (e_kind e) pd (e_dead e).

(** [remove_if ... e.dead] followed by [erase]. *)
Definition cullDead (es : list Enemy) : list Enemy :=
  filter (fun e => negb (e_dead e)) es.

Definition updateEnemiesRoom (pp : Vec) (dt : float) (R : Room) : Room :=
  let es := cullDead (map (enemyMove pp dt) (r_enemies R)) in
  let R1 := set_enemies R es in
  match es with
  | _ :: _ => R1
  | [] => set_cleared R1 true
  end.

(** [X], [Y] are the coordinates of the room the reference [R] is bound
    to: the cursor at the start of the tick. *)
Definition updateEnemies (X Y : Z) (dt : float) (s : State) : State :=
  set_dungeon s (modRoom (g_dungeon s) X Y (updateEnemiesRoom (pl_p (g_player s)) dt)).

(** ** Bullets: [updateBullets] *)

Definition circlesTouch (p1 : Vec) (r1 : float) (p2 : Vec) (r2 : float) : bool :=
  let dx := (vx p1 - vx p2)%f32 in
  let dy := (vy p1 - vy p2)%f32 in
  let rr := (r1 + r2)%f32 in
  (dx * dx + dy * dy <=? rr * rr)%f32.

Definition damageEnemy (e : Enemy) : Enemy :=
  let hp := (e_hp e - F32.of_Z 1)%f32 in
  mkEnemy (e_p e) (e_r e) hp (e_speed e) (e_kind e) (e_patrolDir e)
          (if (hp <=? F32.zero)%f32 then true else e_dead e).

(** The inner [for (auto& e : R.enemies)] of one bullet: the first live
    enemy it touches is damaged and the scan stops. *)
Fixpoint bulletHit (b : Bullet) (es : list Enemy) : bool * list Enemy :=
  match es with
  | [] => (false, [])
  | e :: es' =>
      if e_dead e then let (h, r) := bulletHit b es' in (h, e :: r)
      else if circlesTouch (b_p b) (b_r b) (e_p e) (e_r e) then (true, damageEnemy e :: es')
      else let (h, r) := bulletHit b es' in (h, e :: r)
  end.

Definition outOfRoom (p : Vec) : bool :=
  (vx p <? F32.of_Z (ROOM_X + 20))%f32 || (vx p >? F32.of_Z (ROOM_X + ROOM_W - 20))%f32
  || (vy p <? F32.of_Z (ROOM_Y + 20))%f32 || (vy p >? F32.of_Z (ROOM_Y + ROOM_H - 20))%f32.

Definition bulletStep (dt : float) (b : Bullet) (es : list Enemy) : Bullet * list Enemy :=
  if b_dead b then (b, es)
  else
    let p := vadd (b_p b) (vscale (b_v b) dt) in
    let ttl := (b_ttl b - dt)%f32 in
    let dead1 := if (ttl <=? F32.zero)%f32 then true else b_dead b in
    let dead2 := if outOfRoom p then true else dead1 in
    let b1 := mkBullet p (b_v b) (b_r b) ttl dead2 in
    let (h, es') := bulletHit b1 es in
    (mkBullet p (b_v b) (b_r b) ttl (if h then true else dead2), es').

Fixpoint bulletsLoop (dt : float) (bs : list Bullet) (es : list Enemy)
  : list Bullet * list Enemy :=
  match bs with
  | [] => ([], es)
  | b :: bs' =>
      let (b', es1) := bulletStep dt b es in
      let (r, es2) := bulletsLoop dt bs' es1 in
      (b' :: r, es2)
  end.

Definition updateBullets (X Y : Z) (dt : float) (s : State) : State :=
  let R := getRoom (g_dungeon s) X Y in
  let (bs, es) := bulletsLoop dt (pl_shots (g_player s)) (r_enemies R) in
  let s1 := set_dungeon s (setRoom (g_dungeon s) X Y (set_enemies R es)) in
  set_player s1 (set_shots (g_player s1) (filter (fun b => negb (b_dead b)) bs)).

(** ** Contact damage: [playerHitCheck] *)

Definition HURT_COOLDOWN : float := F32.lit 9 10.

Definition touches (s : State) (e : Enemy) : bool :=
  negb (e_dead e)
  && circlesTouch (pl_p (g_player s)) (pl_r (g_player s)) (e_p e) (e_r e).

(** The [if (hurtCD <= 0.f) { ... }] block. *)
Definition takeHit (e : Enemy) (s : State) : State :=
  let p := g_player s in
  let hp := pl_hp p - 1 in
  let kb := norm (vsub (pl_p p) (e_p e)) in
  let p' := set_pos (set_hp p hp) (vadd (pl_p p) (vscale kb (F32.of_Z 20))) in
  let s1 := set_hurtCD (set_player s p') HURT_COOLDOWN in
  if hp <=? 0 then set_runOver s1 true else s1.

(** [hurtCD = std::max(0.f, hurtCD - dt)] *)
Definition coolDown (dt : float) (c : float) : float :=
  F32.max F32.zero (c - dt)%f32.

(** The loop body for one enemy. *)
Definition hitStep (dt : float) (s : State) (e : Enemy) : State :=
  if touches s e then
    let s1 := if (hurtCD s <=? F32.zero)%f32 then takeHit e s else s in
    set_hurtCD s1 (coolDown dt (hurtCD s1))
  else s.

Definition playerHitCheck (X Y : Z) (dt : float) (s : State) : State :=
  fold_left (hitStep dt) (r_enemies (getRoom (g_dungeon s) X Y)) s.

(** ** Doors: [handleDoorsAndTransitions] *)

(** The [tryGo] lambda; [None] stands for its [false]. *)
Definition tryGo (R : Room) (d : Dir) (nx ny : Z) (newPos : Vec) (s : State)
  : option State :=
  if negb (door_get (r_doors R) (dir_int d)) then None
  else
    let rc := InflateRect (doorRect d) 10 10 in
    if circleRectOverlap (pl_p (g_player s)) (pl_r (g_player s)) rc
    then Some (set_player (set_cursor s nx ny) (set_pos (g_player s) newPos))
    else None.

Definition orElse (o : option State) (k : State) : State :=
  match o with Some s => s | None => k end.

Definition handleDoorsAndTransitions (X Y : Z) (s : State) : State :=
  let R := getRoom (g_dungeon s) X Y in
  if negb (r_cleared R) then s
  else
    let g := g_dungeon s in
    let rx := g_rx s in
    let ry := g_ry s in
    let midx := (F32.of_Z ROOM_X + F32.of_Z ROOM_W / F32.of_Z 2)%f32 in
    let midy := (F32.of_Z ROOM_Y + F32.of_Z ROOM_H / F32.of_Z 2)%f32 in
    let up :=
      if door_get (r_doors R) (dir_int Up) && (ry >? 0) && r_exists (getRoom g rx (ry - 1))
      then tryGo R Up rx (ry - 1) (mkVec midx (F32.of_Z (ROOM_Y + ROOM_H - 60))) s
      else None in
    let down :=
      if door_get (r_doors R) (dir_int Down) && (ry <? GRID_H - 1)
         && r_exists (getRoom g rx (ry + 1))
      then tryGo R Down rx (ry + 1) (mkVec midx (F32.of_Z (ROOM_Y + 60))) s
      else None in
    let left :=
      if door_get (r_doors R) (dir_int Left) && (rx >? 0) && r_exists (getRoom g (rx - 1) ry)
      then tryGo R Left (rx - 1) ry (mkVec (F32.of_Z (ROOM_X + ROOM_W - 60)) midy) s
      else None in
    let right :=
      if door_get (r_doors R) (dir_int Right) && (rx <? GRID_W - 1)
         && r_exists (getRoom g (rx + 1) ry)
      then tryGo R Right (rx + 1) ry (mkVec (F32.of_Z (ROOM_X + 60)) midy) s
      else None in
    orElse up (orElse down (orElse left (orElse right s))).

(** ** Run state: [checkAllCleared] and the fixed update *)

Definition clearScan (g : Grid) (acc : bool * bool) (c : Z * Z) : bool * bool :=
  let (any, allclear) := acc in
  let (x, y) := c in
  if negb (r_exists (getRoom g x y)) then acc
  else (true, if negb (r_cleared (getRoom g x y)) then false else allclear).

Definition checkAllCleared (s : State) : State :=
  let (any, allclear) := fold_left (clearScan (g_dungeon s)) allCells (false, true) in
  let s1 := set_allCleared s (any && allclear) in
  if g_allCleared s1 && negb (g_runOver s1) then set_runOver s1 true else s1.

(** [(float)dt] with [double dt = 1.0 / 120.0]. *)
Definition DT : float :=
  F32.of_double (SFdiv 53 1024 (binary_normalize 53 1024 1 0 false)
                               (binary_normalize 53 1024 120 0 false)).

(** The phases of one fixed update up to and including the bullet pass,
    then contact damage, doors and the run-state checks. *)
Definition tickInput (k : Keys) (s : State) : State :=
  tickShotCooldown DT (playerShootInput k (playerUpdateMove k DT s)).

Definition tickEntities (k : Keys) (s : State) : State :=
  let X := g_rx s in
  let Y := g_ry s in
  updateBullets X Y DT (updateEnemies X Y DT (tickInput k s)).

Definition hpCheck (s : State) : State :=
  if pl_hp (g_player s) <=? 0 then set_runOver s true else s.

(** The body of [while (acc >= dt)]. *)
Definition tick (k : Keys) (s : State) : State :=
  if g_runOver s then s
  else
    let X := g_rx s in
    let Y := g_ry s in
    hpCheck (checkAllCleared (handleDoorsAndTransitions X Y
      (playerHitCheck X Y DT (tickEntities k s)))).

Fixpoint ticks (ks : list Keys) (s : State) : State :=
  match ks with
  | [] => s
  | k :: ks' => ticks ks' (tick k s)
  end.

(** [if (g_runOver && keyDown('R')) { resetRun(); }] *)
Definition restartInput (k : Keys) (s : State) : State :=
  if g_runOver s && kR k then resetRun s else s.

(** One pass of the main loop: [k] is the keyboard seen by the quit and
    restart tests, [ks] the keyboards seen by the fixed updates that the
    elapsed time asks for. *)
Definition frame (k : Keys) (ks : list Keys) (s : State) : State :=
  if kEsc k then set_running s false
  else ticks ks (restartInput k s).

(** The run state shown by the banner of [drawHUD]. *)
Inductive RunState : Type := Active | Cleared | Dead.

Definition runState (s : State) : RunState :=
  if negb (g_runOver s) then Active
  else if pl_hp (g_player s) <=? 0 then Dead else Cleared.

(** The globals at program start, before [WinMain] calls [resetRun]. *)
Definition bootState (rng : RNG) : State :=
  mkState Player0 emptyDungeon (Z.quot GRID_W 2) (Z.quot GRID_H 2) 0 0
          false false rng F32.zero true.

Definition initState (rng : RNG) : State := resetRun (bootState rng).

(** ** Specification vocabulary *)

(** The grid has the shape of the C array. *)
Definition wfGrid (g : Grid) : Prop :=
  length g = Z.to_nat GRID_H /\ Forall (fun row => length row = Z.to_nat GRID_W) g.

Definition opposite (d : Dir) : Dir :=
  match d with Up => Down | Right => Left | Down => Up | Left => Right end.

Definition existsAt (g : Grid) (x y : Z) : bool := r_exists (getRoom g x y).

Definition doorAt (g : Grid) (x y : Z) (d : Dir) : bool :=
  door_get (r_doors (getRoom g x y)) (dir_int d).

(** Grids obtained from the reset grid by carving, one new room at a time,
    from a room that exists into a free cell of the grid. *)
Inductive Carved (sx sy : Z) : Grid -> Prop :=
| Carved_start :
    Carved sx sy (modRoom emptyDungeon sx sy (fun R => set_exists R true))
| Carved_step : forall g cx cy d,
    Carved sx sy g ->
    inb cx cy = true -> existsAt g cx cy = true ->
    inb (stepx cx d) (stepy cy d) = true ->
    existsAt g (stepx cx d) (stepy cy d) = false ->
    Carved sx sy (carve g cx cy d).

(** Every door leads from an existing room to an existing room of the
    grid that has the door back. *)
Definition doorsClosed (g : Grid) : Prop :=
  forall x y d, doorAt g x y d = true ->
    existsAt g x y = true
    /\ inb (stepx x d) (stepy y d) = true
    /\ existsAt g (stepx x d) (stepy y d) = true
    /\ doorAt g (stepx x d) (stepy y d) (opposite d) = true.

(** A room is reachable from the spawn cell through doors. *)
Inductive reach (g : Grid) (sx sy : Z) : Z -> Z -> Prop :=
| reach_start : reach g sx sy sx sy
| reach_door : forall x y d,
    reach g sx sy x y -> doorAt g x y d = true ->
    reach g sx sy (stepx x d) (stepy y d).

(** The door graph: [b] is behind a door of [a]. *)
Definition adj (g : Grid) (a b : Z * Z) : Prop :=
  exists d, doorAt g (fst a) (snd a) d = true
            /\ b = (stepx (fst a) d, stepy (snd a) d).

Fixpoint chain (g : Grid) (a : Z * Z) (p : list (Z * Z)) : Prop :=
  match p with
  | [] => True
  | b :: p' => adj g a b /\ chain g b p'
  end.

(** [a :: p] is a cycle of at least three distinct rooms, each joined to
    the next by a door and the last to the first. *)
Definition simpleCycle (g : Grid) (a : Z * Z) (p : list (Z * Z)) : Prop :=
  (2 <= length p)%nat /\ NoDup (a :: p) /\ chain g a p /\ adj g (last p a) a.

Definition countRooms (g : Grid) : Z :=
  Z.of_nat (length (filter (fun c => existsAt g (fst c) (snd c)) allCells)).

(** Same rooms and same doors. *)
Definition sameGraph (g g' : Grid) : Prop :=
  forall x y, r_exists (getRoom g' x y) = r_exists (getRoom g x y)
              /\ r_doors (getRoom g' x y) = r_doors (getRoom g x y).

(** Loop invariant of the carver. *)
Definition carverInv (sx sy target : Z) (c : Carver) : Prop :=
  Carved sx sy (c_grid c)
  /\ c_made c = countRooms (c_grid c)
  /\ 1 <= c_made c <= target
  /\ Forall (fun n => inb (fst n) (snd n) = true
                      /\ existsAt (c_grid c) (fst n) (snd n) = true) (c_stack c).

(** Termination measure of the carving loop. *)
Definition carveMeasure (target : Z) (c : Carver) : Z :=
  2 * (target - c_made c) + Z.of_nat (length (c_stack c)).

(** What the boss scan holds after the cells [pre]: nothing found yet, or
    the first room of maximal distance among the existing rooms of [pre]. *)
Definition bossInv (g : Grid) (sx sy : Z) (pre : list (Z * Z)) (acc : Z * Z * Z) : Prop :=
  let '(bx, by_, best) := acc in
  (best = -1 /\ (bx, by_) = (sx, sy)
   /\ forall c, In c pre -> existsAt g (fst c) (snd c) = false)
  \/ (exists p1 p2, pre = p1 ++ (bx, by_) :: p2
       /\ existsAt g bx by_ = true
       /\ best = dist sx sy bx by_
       /\ (forall c, In c p1 -> existsAt g (fst c) (snd c) = true ->
                      dist sx sy (fst c) (snd c) < best)
       /\ (forall c, In c p2 -> existsAt g (fst c) (snd c) = true ->
                      dist sx sy (fst c) (snd c) <= best)).

Definition cellBefore (a b : Z * Z) : Prop :=
  snd a < snd b \/ (snd a = snd b /\ fst a < fst b).

(** The effect of the population pass on the room of cell [(x, y)], for
    the engine state [rng] the pass has reached there. *)
Definition populated (sx sy x y : Z) (R : Room) (rng : RNG) : Room :=
  if r_exists R then
    if (x =? sx) && (y =? sy) then set_cleared R true
    else fst (spawnEnemies R rng)
  else R.

(** Row-major scan order: [(x, y)] is visited strictly before [(x', y')]. *)
Definition scannedBefore (x y x' y' : Z) : Prop :=
  y < y' \/ (y = y' /\ x < x').

(** What [carveDungeon] produces: a carved grid [gc] of at most [target]
    rooms, the boss flag set at the cell [(bx, by_)] the scan selects, and
    every room populated. *)
Definition Generated (g : Grid) (target bx by_ : Z) : Prop :=
  exists gc,
    Carved 2 2 gc
    /\ 6 <= target <= 9
    /\ 2 <= countRooms gc <= target
    /\ wfGrid g
    /\ existsAt gc bx by_ = true
    /\ (forall x y, existsAt gc x y = true ->
          dist 2 2 x y <= dist 2 2 bx by_
          /\ (scannedBefore x y bx by_ -> dist 2 2 x y < dist 2 2 bx by_))
    /\ forall x y, exists r,
          getRoom g x y
          = populated 2 2 x y
              (if (x =? bx) && (y =? by_) then set_boss (getRoom gc x y) true
               else getRoom gc x y) r.

(** The rooms of the scenario of the specification: spawn at (2, 2) and
    five more rooms. *)
Definition scenarioCells : list (Z * Z) :=
  [(2, 2); (3, 2); (3, 1); (2, 1); (2, 0); (1, 1)].

Definition scenarioGrid : Grid :=
  fold_left (fun g c => modRoom g (fst c) (snd c) (fun R => set_exists R true))
            scenarioCells emptyDungeon.

Definition cell_eqb (a b : Z * Z) : bool := (fst a =? fst b) && (snd a =? snd b).

(** The timer [k] enemy contacts after a hit set it to its cooldown. *)
Definition coolChain (k : nat) : float := Nat.iter k (coolDown DT) HURT_COOLDOWN.

(** The values the timer takes: from 0.9 down the chain to 0, which is
    reached after 109 steps. *)
Definition onChain (c : float) : Prop := exists k, (k <= 109)%nat /\ c = coolChain k.

(** The component [y] is a NaN or has the sign bit of [x]. *)
Definition signOf (x y : float) : Prop :=
  F32.is_nan y = false -> F32.sign_bit y = F32.sign_bit x.

(** No room is given more than six enemies. *)
Definition MAX_ENEMIES : nat := 6.

(** Every existing room is cleared, and there is one. *)
Definition floorCleared (g : Grid) : bool :=
  existsb (fun c => existsAt g (fst c) (snd c)) allCells
  && forallb (fun c => negb (existsAt g (fst c) (snd c))
                       || r_cleared (getRoom g (fst c) (snd c))) allCells.

(** States the program can be in: after the initial [resetRun], and from
    there through restart tests, fixed updates and the quit key. *)
Inductive Reachable : State -> Prop :=
| Reach_init : forall rng, Reachable (initState rng)
| Reach_restart : forall k s, Reachable s -> Reachable (restartInput k s)
| Reach_tick : forall k s, Reachable s -> Reachable (tick k s)
| Reach_quit : forall s, Reachable s -> Reachable (set_running s false).

(** Invariant of the reachable states. *)
Definition stateInv (s : State) : Prop :=
  wfGrid (g_dungeon s)
  /\ inb (g_rx s) (g_ry s) = true
  /\ (forall x y, (length (r_enemies (getRoom (g_dungeon s) x y)) <= MAX_ENEMIES)%nat)
  /\ 0 <= pl_hp (g_player s) <= 6
  /\ (g_runOver s = false -> 1 <= pl_hp (g_player s)).

(** ** Concrete states used to run the model *)

Definition noKeys : Keys :=
  mkKeys false false false false false false false false false false.

Definition keysR : Keys :=
  mkKeys false false false false false false false false true false.

Definition demoDraws (n : nat) : Z := Z.of_nat (n * n * 7 + 3 * n + 1).

Definition demoFloats (n : nat) : float := F32.of_Z (Z.of_nat (n * 37 + 200)).

Definition demoRng : RNG := mkRNG demoDraws demoFloats 0.

Definition vecZ (x y : Z) : Vec := mkVec (F32.of_Z x) (F32.of_Z y).

(** A live chaser with default radius and speed. *)
Definition chaser (x y hp : Z) : Enemy :=
  mkEnemy (vecZ x y) (F32.of_Z 12) (F32.of_Z hp) (F32.of_Z 55) 0 (vecZ 1 0) false.

(** Spawn room (2,2), cleared, with a door to the room (3,2) on its right. *)
Definition twoRooms : Grid :=
  modRoom (carve (modRoom emptyDungeon 2 2 (fun R => set_exists R true)) 2 2 Right)
          2 2 (fun R => set_cleared R true).

(** The player, hurt, stands in the left doorway of room (3,2); the last
    enemy of the room has one hit point left and a bullet is about to
    reach it. *)
Definition duelState : State :=
  mkState
    (mkPlayer (vecZ 152 270) (F32.of_Z 12) (F32.of_Z 125) 3
              [mkBullet (vecZ 490 270) (vecZ 360 0) (F32.of_Z 5) (F32.lit 5 10) false]
              F32.zero)
    (modRoom twoRooms 3 2 (fun R => set_enemies R [chaser 500 270 1]))
    3 2 2 2 false false demoRng F32.zero true.

(** Two live enemies overlap the player and the timer has run out. *)
Definition crowdState : State :=
  mkState
    (mkPlayer (vecZ 300 270) (F32.of_Z 12) (F32.of_Z 125) 3 [] F32.zero)
    (modRoom twoRooms 3 2
       (fun R => set_enemies R [chaser 600 100 2; chaser 310 270 2; chaser 300 280 2]))
    3 2 2 2 false false demoRng F32.zero true.


(** The player stands at the right wall of the cleared spawn room, in
    reach of the door to room (3,2). *)
Definition gateState : State :=
  mkState
    (mkPlayer (vecZ 808 270) (F32.of_Z 12) (F32.of_Z 125) 6 [] F32.zero)
    twoRooms 2 2 2 2 false false demoRng F32.zero true.

(** As [crowdState], with the timer on its last positive value. *)
Definition lateState : State := set_hurtCD crowdState (coolChain 108).

(** The state two fixed updates after [duelState]: the floor is cleared
    and the run is over. *)
Definition overState : State := tick noKeys (tick noKeys duelState).

(** ** Vocabulary of the further properties *)

(** DFS bookkeeping of the carver: every room that exists is still on the
    stack or has each neighbour cell of the grid already carved. *)
Definition explored (g : Grid) (stack : list (Z * Z)) : Prop :=
  forall x y, existsAt g x y = true ->
    In (x, y) stack
    \/ forall d, inb (stepx x d) (stepy y d) = true ->
                 existsAt g (stepx x d) (stepy y d) = true.

(** What stays true of the dungeon during a run: the grid keeps its
    shape, the cursor is on an existing room of the grid, and rooms, doors
    and boss flag are those of a carved grid [gc] of 6 to 9 rooms with the
    boss at [(bx, by_)]. *)
Definition runInv (s : State) : Prop :=
  wfGrid (g_dungeon s)
  /\ inb (g_rx s) (g_ry s) = true
  /\ existsAt (g_dungeon s) (g_rx s) (g_ry s) = true
  /\ g_startx s = 2 /\ g_starty s = 2
  /\ 6 <= countRooms (g_dungeon s) <= 9
  /\ exists gc bx by_,
       Carved 2 2 gc
       /\ existsAt gc bx by_ = true
       /\ forall x y,
            r_exists (getRoom (g_dungeon s) x y) = r_exists (getRoom gc x y)
            /\ r_doors (getRoom (g_dungeon s) x y) = r_doors (getRoom gc x y)
            /\ r_boss (getRoom (g_dungeon s) x y) = (x =? bx) && (y =? by_).

(** Where a transition in direction [d] puts the player: the four
    [newPos] arguments of [handleDoorsAndTransitions]. *)
Definition entryPos (d : Dir) : Vec :=
  let midx := (F32.of_Z ROOM_X + F32.of_Z ROOM_W / F32.of_Z 2)%f32 in
  let midy := (F32.of_Z ROOM_Y + F32.of_Z ROOM_H / F32.of_Z 2)%f32 in
  match d with
  | Up => mkVec midx (F32.of_Z (ROOM_Y + ROOM_H - 60))
  | Down => mkVec midx (F32.of_Z (ROOM_Y + 60))
  | Left => mkVec (F32.of_Z (ROOM_X + ROOM_W - 60)) midy
  | Right => mkVec (F32.of_Z (ROOM_X + 60)) midy
  end.

(** Direction [d] is open to the player: the room [R] at [(X, Y)] has the
    door, the cell behind it is in the grid and exists, and the player's
    circle meets the door's enlarged rectangle. *)
Definition canGo (X Y : Z) (s : State) (d : Dir) : bool :=
  door_get (r_doors (getRoom (g_dungeon s) X Y)) (dir_int d)
  && inb (stepx (g_rx s) d) (stepy (g_ry s) d)
  && r_exists (getRoom (g_dungeon s) (stepx (g_rx s) d) (stepy (g_ry s) d))
  && circleRectOverlap (pl_p (g_player s)) (pl_r (g_player s))
                       (InflateRect (doorRect d) 10 10).

(** The state after a transition in direction [d]. *)
Definition moved (s : State) (d : Dir) : State :=
  set_player (set_cursor s (stepx (g_rx s) d) (stepy (g_ry s) d))
             (set_pos (g_player s) (entryPos d)).

(** The order in which the door phase tries the directions. *)
Definition doorOrder : list Dir := [Up; Down; Left; Right].

(** The bullet [b] meets the live enemy [e]. *)
Definition bulletTouches (b : Bullet) (e : Enemy) : bool :=
  negb (e_dead e) && circlesTouch (b_p b) (b_r b) (e_p e) (e_r e).

(** [l] is [l'] with some elements left out, the others in their order. *)
Inductive Subseq {A : Type} : list A -> list A -> Prop :=
| Subseq_nil : Subseq [] []
| Subseq_keep : forall a l l', Subseq l l' -> Subseq (a :: l) (a :: l')
| Subseq_drop : forall a l l', Subseq l l' -> Subseq l (a :: l').

(** One integration step of a bullet that stays in flight. *)
Definition flown (dt : float) (b : Bullet) : Bullet :=
  mkBullet (vadd (b_p b) (vscale (b_v b) dt)) (b_v b) (b_r b) (b_ttl b - dt)%f32 false.

(** All a bullet pass may change of an enemy is its hp and, from alive to
    dead, its dead flag; a dead enemy is left as it is. *)
Definition sameBody (e e' : Enemy) : Prop :=
  e_p e' = e_p e /\ e_r e' = e_r e /\ e_speed e' = e_speed e
  /\ e_kind e' = e_kind e /\ e_patrolDir e' = e_patrolDir e
  /\ (e_dead e = true -> e' = e).

(** The point [p] is not outside the wall margin for a body of integer
    radius [n]: no coordinate is below the lower or above the upper bound
    of [clampInner]. *)
Definition withinWalls (p : Vec) (n : Z) : Prop :=
  (vx p <? F32.of_Z (ROOM_X + 20 + n))%f32 = false
  /\ (vx p >? F32.of_Z (ROOM_X + ROOM_W - 20 - n))%f32 = false
  /\ (vy p <? F32.of_Z (ROOM_Y + 20 + n))%f32 = false
  /\ (vy p >? F32.of_Z (ROOM_Y + ROOM_H - 20 - n))%f32 = false.

(** Each coordinate of [p] that is a number lies between the lower and
    the upper bound of [clampInner] for a body of integer radius [n]. *)
Definition insideWalls (p : Vec) (n : Z) : Prop :=
  (F32.is_nan (vx p) = false ->
   (F32.of_Z (ROOM_X + 20 + n) <=? vx p)%f32 = true
   /\ (vx p <=? F32.of_Z (ROOM_X + ROOM_W - 20 - n))%f32 = true)
  /\ (F32.is_nan (vy p) = false ->
      (F32.of_Z (ROOM_Y + 20 + n) <=? vy p)%f32 = true
      /\ (vy p <=? F32.of_Z (ROOM_Y + ROOM_H - 20 - n))%f32 = true).

(** Where the enemy update takes a chaser before the wall clamp. *)
Definition pursuit (pp : Vec) (dt : float) (e : Enemy) : Vec :=
  vadd (e_p e) (vscale (vscale (norm (vsub pp (e_p e))) (e_speed e)) dt).

(** The shot cooldown [k] fixed updates after a shot set it to 0.12 s,
    while it is still being counted down. *)
Definition shotChain (k : nat) : float :=
  Nat.iter k (fun c => (c - DT)%f32) (F32.lit 12 100).

(** The aim vector of the arrow keys. *)
Definition aimOf (k : Keys) : Vec := keyVec (kUp k) (kDown k) (kLeft k) (kRight k).

(** ** Software rendering

    [g_pixels] is a buffer of [WIDTH * HEIGHT] 32-bit pixels, row after
    row; it is modelled as a list, and a write at an index is [upd]. *)

Definition Pixels : Type := list Z.

(** [RGBA(r, g, b, a)] for 8-bit channels. *)
Definition RGBA (r g b a : Z) : Z :=
  Z.lor (Z.lor (Z.lor r (Z.shiftl g 8)) (Z.shiftl b 16)) (Z.shiftl a 24).

(** [(unsigned)x] for an [int] [x]. *)
Definition to_unsigned (x : Z) : Z := x mod 2 ^ 32.

Definition putpx (x y c : Z) (px : Pixels) : Pixels :=
  if (to_unsigned x <? to_unsigned WIDTH) && (to_unsigned y <? to_unsigned HEIGHT)
  then upd (Z.to_nat (y * WIDTH + x)) (fun _ => c) px
  else px.

(** The values [a, a + 1, ..., b - 1] of a [for (v = a; v < b; ++v)]. *)
Definition zrange (a b : Z) : list Z :=
  map (fun k => a + Z.of_nat k) (seq 0 (Z.to_nat (b - a))).

(** [std::fill(px, px + WIDTH * HEIGHT, color)] *)
Definition clear (color : Z) (px : Pixels) : Pixels :=
  fold_left (fun p i => upd (Z.to_nat i) (fun _ => color) p) (zrange 0 (WIDTH * HEIGHT)) px.

Definition fillRect (x y w h c : Z) (px : Pixels) : Pixels :=
  let x0 := Z.max 0 x in
  let y0 := Z.max 0 y in
  let x1 := Z.min WIDTH (x + w) in
  let y1 := Z.min HEIGHT (y + h) in
  fold_left
    (fun p j =>
       fold_left (fun q i => upd (Z.to_nat (j * WIDTH + i)) (fun _ => c) q) (zrange x0 x1) p)
    (zrange y0 y1) px.

Definition drawRect (x y w h c : Z) (px : Pixels) : Pixels :=
  let p1 := fold_left (fun p i => putpx i (y + h - 1) c (putpx i y c p))
                      (zrange x (x + w)) px in
  fold_left (fun p j => putpx (x + w - 1) j c (putpx x j c p)) (zrange y (y + h)) p1.

(** [while (y * y + x * x > r2) --y;] with a budget of steps. *)
Fixpoint lowerY (fuel : nat) (y x r2 : Z) : Z :=
  if y * y + x * x >? r2 then
    match fuel with
    | O => y
    | S f => lowerY f (y - 1) x r2
    end
  else y.

(** The body of [for (int x = 0; x <= r; ++x)] in [fillCircle]; the state
    is the running [y] and the buffer. *)
Definition circleRow (cx cy r c : Z) (st : Z * Pixels) (x : Z) : Z * Pixels :=
  let (y0, px) := st in
  let y := lowerY (Z.to_nat y0) y0 x (r * r) in
  (y, fold_left (fun p i => putpx i (cy - y) c (putpx i (cy + y) c p))
                (zrange (cx - x) (cx + x + 1)) px).

Definition fillCircle (cx cy r c : Z) (px : Pixels) : Pixels :=
  snd (fold_left (circleRow cx cy r c) (zrange 0 (r + 1)) (r, px)).

(** The pixel of column [i], row [j]. *)
Definition pixelAt (px : Pixels) (i j : Z) : Z := nth (Z.to_nat (j * WIDTH + i)) px 0.

Definition onScreen (i j : Z) : Prop := 0 <= i < WIDTH /\ 0 <= j < HEIGHT.

(** [x] is a value of the type [int]. *)
Definition isInt (x : Z) : Prop := - 2 ^ 31 <= x < 2 ^ 31.

(** The buffer has one pixel per screen position. *)
Definition isBuffer (px : Pixels) : Prop := length px = Z.to_nat (WIDTH * HEIGHT).

(** [px'] is [px] with colour [c] written at the screen positions of [S],
    and at no other. *)
Definition Painted (c : Z) (S : Z -> Z -> Prop) (px px' : Pixels) : Prop :=
  length px' = length px /\
  forall i j, onScreen i j ->
    (S i j -> pixelAt px' i j = c) /\
    (pixelAt px' i j = pixelAt px i j \/ S i j).

(** The positions [fillCircle cx cy r] writes: for each [x] of [0 .. r]
    the two horizontal runs of half-width [x] at distance
    [y = floor (sqrt (r * r - x * x))] above and below the centre. *)
Definition circlePixel (cx cy r i j : Z) : Prop :=
  exists x y, 0 <= x <= r /\ 0 <= y
              /\ y * y + x * x <= r * r < (y + 1) * (y + 1) + x * x
              /\ cx - x <= i <= cx + x /\ (j = cy + y \/ j = cy - y).

(** Column [i], row [j] lies in the rectangle of corner [(x, y)], width [w]
    and height [h]; and on its outline. *)
Definition inRect (x y w h i j : Z) : bool :=
  (x <=? i) && (i <? x + w) && (y <=? j) && (j <? y + h).

Definition onOutline (x y w h i j : Z) : bool :=
  inRect x y w h i j && ((i =? x) || (i =? x + w - 1) || (j =? y) || (j =? y + h - 1)).

(** ** Drawing the room and the HUD *)

(** [col] of [drawRoom]: red while the room is locked, green once it is
    cleared. *)
Definition doorColour (R : Room) : Z :=
  if negb (r_cleared R) then RGBA 180 60 60 255 else RGBA 100 220 120 255.

(** The body of [for (int i = 0; i < 4; ++i)] in [drawRoom], at
    [(Dir)i = d]. *)
Definition drawDoor (R : Room) (p : Pixels) (d : Dir) : Pixels :=
  if negb (door_get (r_doors R) (dir_int d)) then p
  else
    let rc := doorRect d in
    fillRect (left rc) (top rc) (right rc - left rc) (bottom rc - top rc) (doorColour R) p.

Definition drawRoom (R : Room) (px : Pixels) : Pixels :=
  let p1 := fillRect ROOM_X ROOM_Y ROOM_W ROOM_H (RGBA 20 20 25 255) px in
  let p2 := drawRect ROOM_X ROOM_Y ROOM_W ROOM_H (RGBA 200 200 200 255) p1 in
  let p3 := fold_left (drawDoor R) [Up; Right; Down; Left] p2 in
  if r_boss R
  then drawRect (ROOM_X + 3) (ROOM_Y + 3) (ROOM_W - 6) (ROOM_H - 6) (RGBA 200 80 200 255) p3
  else p3.

(** The mini-map origin [mx], [my] of [drawHUD]. *)
Definition MAP_X : Z := ROOM_X + ROOM_W - 120.
Definition MAP_Y : Z := ROOM_Y - 26.

(** The colour of the mini-map dot of the room [R] at [(x, y)]. *)
Definition dotColour (s : State) (x y : Z) (R : Room) : Z :=
  let c0 := RGBA 120 120 120 255 in
  let c1 := if r_boss R then RGBA 200 90 200 255 else c0 in
  if (x =? g_rx s) && (y =? g_ry s) then RGBA 255 255 255 255 else c1.

(** The body of the mini-map loops of [drawHUD] at the cell [(x, y)]. *)
Definition mapDot (s : State) (p : Pixels) (c : Z * Z) : Pixels :=
  let (x, y) := c in
  let R := getRoom (g_dungeon s) x y in
  if negb (r_exists R) then p
  else fillRect (MAP_X + x * 8) (MAP_Y + y * 8) 6 6 (dotColour s x y R) p.

(** The win/lose banner of [drawHUD]. *)
Definition drawBanner (px : Pixels) : Pixels :=
  let bw := 450 in
  let bh := 50 in
  let bx := Z.quot (WIDTH - bw) 2 in
  let by_ := Z.quot (HEIGHT - bh) 2 in
  let p1 := fillRect bx by_ bw bh (RGBA 0 0 0 220) px in
  let p2 := drawRect bx by_ bw bh (RGBA 255 255 255 255) p1 in
  let p3 := fillRect (bx + 14) (by_ + 14) (bw - 28) 4 (RGBA 255 255 255 255) p2 in
  fillRect (bx + 80) (by_ + 30) (bw - 160) 3 (RGBA 200 200 200 255) p3.

Definition drawHUD (s : State) (px : Pixels) : Pixels :=
  let x := ROOM_X in
  let y := ROOM_Y - 28 in
  let p1 := fold_left (fun p i => fillRect (x + i * 16) y 14 14 (RGBA 220 40 40 255) p)
                      (zrange 0 (pl_hp (g_player s))) px in
  let p2 := drawRect ROOM_X (ROOM_Y - 34) ROOM_W 1 (RGBA 255 255 255 255) p1 in
  let p3 := fold_left (mapDot s) allCells p2 in
  if g_runOver s then drawBanner p3 else p3.

(** ** The frame: [drawEnemies], [drawBullets], [drawPlayer] and the
    render block of the main loop *)

Definition enemyColour (e : Enemy) : Z :=
  let c := if e_kind e =? 0 then RGBA 240 180 60 255 else RGBA 120 200 255 255 in
  if F32.leb (e_hp e) (F32.of_Z 1) then RGBA 255 120 120 255 else c.

Definition drawEnemies (R : Room) (px : Pixels) : Pixels :=
  fold_left (fun p e => fillCircle (F32.to_int (vx (e_p e))) (F32.to_int (vy (e_p e)))
                                   (F32.to_int (e_r e)) (enemyColour e) p)
            (r_enemies R) px.

Definition drawBullets (s : State) (px : Pixels) : Pixels :=
  fold_left (fun p b => fillCircle (F32.to_int (vx (b_p b))) (F32.to_int (vy (b_p b)))
                                   (F32.to_int (b_r b)) (RGBA 255 255 255 255) p)
            (pl_shots (g_player s)) px.

Definition drawPlayer (s : State) (px : Pixels) : Pixels :=
  fillCircle (F32.to_int (vx (pl_p (g_player s)))) (F32.to_int (vy (pl_p (g_player s))))
             (F32.to_int (pl_r (g_player s))) (RGBA 180 220 255 255) px.

Definition render (s : State) (px : Pixels) : Pixels :=
  let p0 := clear (RGBA 15 15 18 255) px in
  let RR := getRoom (g_dungeon s) (g_rx s) (g_ry s) in
  drawHUD s (drawPlayer s (drawBullets s (drawEnemies RR (drawRoom RR p0)))).

(** * Properties *)

(** ** Single precision facts *)

Lemma shr_1_nonneg (mrs : shr_record) : 0 <= shr_m mrs -> 0 <= shr_m (shr_1 mrs).
Proof.
  destruct mrs as [m r s]. cbn [shr_m]. intros H.
  destruct m as [|p|p]; [| |lia]; [|destruct p]; cbn; lia.
Qed.

Lemma iter_shr_1_nonneg (p : positive) :
  forall mrs, 0 <= shr_m mrs -> 0 <= shr_m (iter_pos shr_1 p mrs).
Proof.
  induction p as [p IH|p IH|]; intros mrs H; cbn [iter_pos].
  - apply IH, IH, shr_1_nonneg, H.
  - apply IH, IH, H.
  - apply shr_1_nonneg, H.
Qed.

Lemma shr_fexp_nonneg (m e : Z) (l : location) :
  0 <= m -> 0 <= shr_m (fst (shr_fexp F32.prec F32.emax m e l)).
Proof.
  intros H. unfold shr_fexp, shr.
  assert (H0 : 0 <= shr_m (shr_record_of_loc m l)) by (destruct l as [|[]]; exact H).
  destruct (fexp F32.prec F32.emax (Zdigits2 m + e) - e) as [|p|p]; cbn [fst];
    [exact H0| |exact H0].
  apply iter_shr_1_nonneg, H0.
Qed.

Lemma round_nearest_even_nonneg (m : Z) (l : location) :
  0 <= m -> 0 <= round_nearest_even m l.
Proof.
  intros H. destruct l as [|[]]; cbn [round_nearest_even]; try lia.
  destruct (Z.even m); lia.
Qed.

(** Rounding a non-negative mantissa gives a zero, a finite number or an
    infinity, with the sign asked for; never a NaN. *)
Lemma binary_round_aux_sign (sx : bool) (mx ex : Z) (lx : location) :
  0 <= mx ->
  F32.is_nan (binary_round_aux F32.prec F32.emax sx mx ex lx) = false
  /\ F32.sign_bit (binary_round_aux F32.prec F32.emax sx mx ex lx) = sx.
Proof.
  intros H. unfold binary_round_aux.
  pose proof (shr_fexp_nonneg mx ex lx H) as H1.
  destruct (shr_fexp F32.prec F32.emax mx ex lx) as [mrs' e']. cbn [fst] in H1.
  pose proof (shr_fexp_nonneg _ e' loc_Exact
                (round_nearest_even_nonneg _ (loc_of_shr_record mrs') H1)) as H2.
  destruct (shr_fexp F32.prec F32.emax _ e' loc_Exact) as [mrs'' e'']. cbn [fst] in H2.
  destruct (shr_m mrs'') as [|p|p]; [split; reflexivity| |lia].
  destruct (e'' <=? F32.emax - F32.prec); split; reflexivity.
Qed.

Lemma binary_normalize_num (m e : Z) (s : bool) :
  F32.is_nan (binary_normalize F32.prec F32.emax m e s) = false.
Proof.
  unfold binary_normalize, binary_round. destruct m as [|p|p]; [reflexivity| |].
  - destruct (shl_align p e _) as [mz ez]. apply binary_round_aux_sign. lia.
  - destruct (shl_align p e _) as [mz ez]. apply binary_round_aux_sign. lia.
Qed.

(** A product that is a number carries the exclusive or of the signs. *)
Lemma mul_sign (x y : float) :
  F32.is_nan (x * y)%f32 = false ->
  F32.sign_bit (x * y)%f32 = xorb (F32.sign_bit x) (F32.sign_bit y).
Proof.
  unfold F32.mul. destruct x as [sx|sx| |sx mx ex], y as [sy|sy| |sy my ey];
    cbn [SFmul F32.sign_bit F32.is_nan]; intros H; try reflexivity; try discriminate.
  apply binary_round_aux_sign. lia.
Qed.

Lemma mul_finite_num (x y : float) :
  F32.is_finite x = true -> F32.is_finite y = true -> F32.is_nan (x * y)%f32 = false.
Proof.
  unfold F32.mul. destruct x as [sx|sx| |sx mx ex], y as [sy|sy| |sy my ey];
    cbn [SFmul F32.is_finite F32.is_nan]; intros Hx Hy; try reflexivity; try discriminate.
  apply binary_round_aux_sign. lia.
Qed.

Lemma add_finite_num (x y : float) :
  F32.is_finite x = true -> F32.is_nan y = false -> F32.is_nan (x + y)%f32 = false.
Proof.
  unfold F32.add. destruct x as [sx|sx| |sx mx ex], y as [sy|sy| |sy my ey];
    cbn [SFadd F32.is_finite F32.is_nan]; intros Hx Hy; try reflexivity; try discriminate.
  - destruct sx, sy; reflexivity.
  - apply binary_normalize_num.
Qed.

(** The quotient of a non-negative number by a positive one that is a
    number is not negative. *)
Lemma div_core_nonneg (m1 m2 : positive) (e1 e2 : Z) :
  0 <= fst (fst (SFdiv_core_binary F32.prec F32.emax (Z.pos m1) e1 (Z.pos m2) e2)).
Proof.
  unfold SFdiv_core_binary. cbv zeta.
  match goal with
  | |- context [Z.div_eucl ?a ?b] =>
      assert (Ha : 0 <= a);
      [|pose proof (Z.div_eucl_eq a b ltac:(lia)) as E;
        pose proof (Z.mod_pos_bound a b ltac:(lia)) as Hm;
        unfold Z.modulo in Hm; destruct (Z.div_eucl a b) as [q r]; cbn [fst]; nia]
  end.
  destruct (e1 - e2 - _) as [|p|p]; [lia| |lia].
  apply Z.shiftl_nonneg. lia.
Qed.

Lemma div_pos_sign (x y : float) :
  F32.is_finite x = true -> F32.sign_bit x = false ->
  (F32.zero <? y)%f32 = true ->
  F32.is_nan (x / y)%f32 = false /\ F32.sign_bit (x / y)%f32 = false.
Proof.
  unfold F32.div, F32.ltb, SFltb, F32.zero.
  destruct x as [sx|sx| |sx mx ex], y as [sy|sy| |sy my ey];
    cbn [SFdiv F32.is_finite F32.is_nan F32.sign_bit]; intros Hx Hs Hy;
      try discriminate; subst; try (destruct sy; try discriminate; split; reflexivity).
  destruct sy; [discriminate|]. cbn [xorb].
  pose proof (div_core_nonneg mx my ex ey) as Hq.
  destruct (SFdiv_core_binary F32.prec F32.emax (Z.pos mx) ex (Z.pos my) ey) as [[mz ez] lz].
  cbn [fst] in Hq. apply binary_round_aux_sign. exact Hq.
Qed.

(** Comparisons of numbers: every pair is ordered. *)
Lemma compare_num (x y : float) :
  F32.is_nan x = false -> F32.is_nan y = false -> exists c, SFcompare x y = Some c.
Proof.
  destruct x as [sx|sx| |sx mx ex], y as [sy|sy| |sy my ey]; cbn; intros Hx Hy;
    try discriminate; eauto.
Qed.

Lemma compare_antisym (x y : float) :
  SFcompare y x = option_map CompOpp (SFcompare x y).
Proof.
  destruct x as [sx|sx| |sx mx ex], y as [sy|sy| |sy my ey]; cbn;
    try reflexivity; try (destruct sx; reflexivity); try (destruct sy; reflexivity);
    try (destruct sx, sy; reflexivity).
  rewrite (Z.compare_antisym ex ey).
  change (Pos.compare_cont Eq my mx) with (Pos.compare my mx).
  change (Pos.compare_cont Eq mx my) with (Pos.compare mx my).
  rewrite (Pos.compare_antisym mx my).
  destruct sx, sy; try reflexivity;
    destruct (ex ?= ey); cbn; try reflexivity;
      destruct (mx ?= my)%positive; reflexivity.
Qed.

Lemma ltb_false_leb (x y : float) :
  F32.is_nan x = false -> F32.is_nan y = false ->
  (x <? y)%f32 = false -> (y <=? x)%f32 = true.
Proof.
  intros Hx Hy. unfold F32.ltb, F32.leb, SFltb, SFleb. rewrite (compare_antisym x y).
  destruct (compare_num x y Hx Hy) as [c ->]. destruct c; cbn; congruence.
Qed.


Lemma ltb_num (x y : float) :
  (x <? y)%f32 = true -> F32.is_nan x = false /\ F32.is_nan y = false.
Proof.
  unfold F32.ltb, SFltb.
  destruct x as [sx|sx| |sx mx ex], y as [sy|sy| |sy my ey]; cbn;
    intros H; try discriminate; split; reflexivity.
Qed.

Lemma leb_num (x y : float) :
  (x <=? y)%f32 = true -> F32.is_nan x = false /\ F32.is_nan y = false.
Proof.
  unfold F32.leb, SFleb.
  destruct x as [sx|sx| |sx mx ex], y as [sy|sy| |sy my ey]; cbn;
    intros H; try discriminate; split; reflexivity.
Qed.

(** A comparison with a NaN is false. *)
Lemma nan_compare (x y : float) :
  F32.is_nan x = true \/ F32.is_nan y = true ->
  (x <? y)%f32 = false /\ (x <=? y)%f32 = false.
Proof.
  unfold F32.ltb, F32.leb, SFltb, SFleb.
  destruct x as [sx|sx| |sx mx ex], y as [sy|sy| |sy my ey]; cbn;
    intros [H|H]; try discriminate; split; reflexivity.
Qed.

(** The clamp of a number between ordered bounds lies between them; the
    clamp of a NaN is the NaN. *)
Lemma clamp_num (v lo hi : float) :
  (lo <=? hi)%f32 = true -> F32.is_nan v = false ->
  (lo <=? F32.clamp v lo hi)%f32 = true /\ (F32.clamp v lo hi <=? hi)%f32 = true.
Proof.
  intros H Hv. destruct (leb_num _ _ H) as [Hlo Hhi].
  unfold F32.clamp, F32.gtb. fold (F32.ltb hi v).
  destruct (v <? lo)%f32 eqn:E1.
  - split; [|exact H]. apply ltb_false_leb; try assumption.
    unfold F32.ltb, SFltb, SFcompare.
    destruct lo as [s|s| |s m e]; try (destruct s; reflexivity); try discriminate.
    rewrite Z.compare_refl.
    change (Pos.compare_cont Eq m m) with (Pos.compare m m). rewrite Pos.compare_refl.
    destruct s; reflexivity.
  - destruct (hi <? v)%f32 eqn:E2.
    + split; [exact H|]. apply ltb_false_leb; try assumption.
      unfold F32.ltb, SFltb, SFcompare.
      destruct hi as [s|s| |s m e]; try (destruct s; reflexivity); try discriminate.
      rewrite Z.compare_refl.
      change (Pos.compare_cont Eq m m) with (Pos.compare m m). rewrite Pos.compare_refl.
      destruct s; reflexivity.
    + split; apply ltb_false_leb; assumption.
Qed.

Lemma clamp_nan_iff (v lo hi : float) :
  F32.is_nan lo = false -> F32.is_nan hi = false ->
  F32.is_nan (F32.clamp v lo hi) = F32.is_nan v.
Proof.
  intros Hlo Hhi. unfold F32.clamp, F32.gtb. fold (F32.ltb hi v).
  destruct (v <? lo)%f32 eqn:E1.
  - destruct (ltb_num _ _ E1) as [-> _]. exact Hlo.
  - destruct (hi <? v)%f32 eqn:E2; [|reflexivity].
    destruct (ltb_num _ _ E2) as [_ ->]. exact Hhi.
Qed.

Lemma ltb_leb_false (x y : float) : (x <? y)%f32 = true -> (y <=? x)%f32 = false.
Proof.
  unfold F32.ltb, F32.leb, SFltb, SFleb. rewrite (compare_antisym x y).
  destruct (SFcompare x y) as [[| |]|]; cbn; congruence.
Qed.

Lemma mul_nan_l (x y : float) : F32.is_nan x = true -> F32.is_nan (x * y)%f32 = true.
Proof. destruct x; try discriminate. reflexivity. Qed.

(** Scaling by a factor whose sign bit is off keeps the sign bit, as long
    as the product is a number. *)
Lemma mul_keep_sign (x k : float) :
  F32.sign_bit k = false -> F32.is_nan (x * k)%f32 = false ->
  F32.sign_bit (x * k)%f32 = F32.sign_bit x /\ F32.is_nan x = false.
Proof.
  intros Hk Hn. split.
  - rewrite (mul_sign x k Hn), Hk. apply xorb_false_r.
  - destruct (F32.is_nan x) eqn:E; [|reflexivity].
    rewrite (mul_nan_l x k E) in Hn. discriminate.
Qed.

Lemma leb_refl (x : float) : F32.is_nan x = false -> (x <=? x)%f32 = true.
Proof.
  unfold F32.leb, SFleb, SFcompare.
  destruct x as [s|s| |s m e]; intros H; try discriminate; try (destruct s; reflexivity);
    try reflexivity.
  rewrite Z.compare_refl.
  change (Pos.compare_cont Eq m m) with (Pos.compare m m). rewrite Pos.compare_refl.
  destruct s; reflexivity.
Qed.


(** ** Lists updated by index *)

Lemma upd_length {A : Type} (n : nat) (f : A -> A) (l : list A) :
  length (upd n f l) = length l.
Proof.
  revert n; induction l as [|a l IH]; intros [|n]; simpl; auto.
Qed.

Lemma nth_upd_same {A : Type} (n : nat) (f : A -> A) (l : list A) (d : A) :
  (n < length l)%nat -> nth n (upd n f l) d = f (nth n l d).
Proof.
  revert n; induction l as [|a l IH]; intros [|n] H; simpl in *; try lia; auto.
  apply IH; lia.
Qed.

Lemma nth_upd_other {A : Type} (n m : nat) (f : A -> A) (l : list A) (d : A) :
  n <> m -> nth m (upd n f l) d = nth m l d.
Proof.
  revert n m; induction l as [|a l IH]; intros [|n] [|m] H; simpl; auto; try congruence.
Qed.

Lemma upd_Forall {A : Type} (P : A -> Prop) (n : nat) (f : A -> A) (l : list A) :
  Forall P l -> (forall a, P a -> P (f a)) -> Forall P (upd n f l).
Proof.
  intros H Hf; revert n; induction H as [|a l Ha Hl IH]; intros [|n]; simpl; auto.
Qed.

(** ** Grid access *)

Lemma inb_range (x y : Z) :
  inb x y = true <-> 0 <= x < GRID_W /\ 0 <= y < GRID_H.
Proof. unfold inb, GRID_W, GRID_H. lia. Qed.

Lemma getRoom_out (g : Grid) (x y : Z) : inb x y = false -> getRoom g x y = Room0.
Proof. unfold getRoom; intros ->; reflexivity. Qed.

Lemma wf_emptyDungeon : wfGrid emptyDungeon.
Proof.
  split; [reflexivity|]. unfold emptyDungeon.
  apply Forall_forall. intros row Hin. apply repeat_spec in Hin. subst.
  apply repeat_length.
Qed.

Lemma wf_setRoom (g : Grid) (x y : Z) (r : Room) :
  wfGrid g -> wfGrid (setRoom g x y r).
Proof.
  intros [Hl Hr]. unfold setRoom. destruct (inb x y); [|split; assumption].
  split.
  - rewrite upd_length; assumption.
  - apply upd_Forall; [assumption|]. intros row Hrow. rewrite upd_length; assumption.
Qed.

Lemma wf_modRoom (g : Grid) (x y : Z) (f : Room -> Room) :
  wfGrid g -> wfGrid (modRoom g x y f).
Proof. apply wf_setRoom. Qed.

Lemma wf_row (g : Grid) (n : nat) :
  wfGrid g -> (n < Z.to_nat GRID_H)%nat -> length (nth n g []) = Z.to_nat GRID_W.
Proof.
  intros [Hl Hr] Hn. rewrite Forall_forall in Hr. apply Hr. apply nth_In. lia.
Qed.

Lemma getRoom_setRoom (g : Grid) (x y x' y' : Z) (r : Room) :
  wfGrid g ->
  getRoom (setRoom g x y r) x' y'
  = if (x =? x') && (y =? y') && inb x y then r else getRoom g x' y'.
Proof.
  intros Hwf. unfold setRoom.
  destruct (inb x y) eqn:Hi; [|rewrite andb_false_r; reflexivity].
  rewrite andb_true_r. unfold getRoom.
  destruct (inb x' y') eqn:Hi'.
  - apply inb_range in Hi, Hi'.
    destruct (Z.eqb_spec y y') as [->|Hy].
    + rewrite nth_upd_same by (destruct Hwf as [-> _]; lia).
      destruct (Z.eqb_spec x x') as [->|Hx]; simpl.
      * rewrite nth_upd_same; [reflexivity|].
        rewrite wf_row by (auto; lia). lia.
      * rewrite nth_upd_other by lia. reflexivity.
    + rewrite andb_false_r. rewrite nth_upd_other by lia. reflexivity.
  - destruct ((x =? x') && (y =? y')) eqn:E; [|reflexivity].
    apply andb_prop in E. destruct E as [E1 E2].
    apply Z.eqb_eq in E1, E2. subst. congruence.
Qed.

Lemma getRoom_modRoom (g : Grid) (x y x' y' : Z) (f : Room -> Room) :
  wfGrid g ->
  getRoom (modRoom g x y f) x' y'
  = if (x =? x') && (y =? y') && inb x y then f (getRoom g x y) else getRoom g x' y'.
Proof. intros Hwf. unfold modRoom. apply getRoom_setRoom; assumption. Qed.

(** ** The carve step *)

Lemma step_neq (x y : Z) (d : Dir) : (stepx x d, stepy y d) <> (x, y).
Proof. destruct d; unfold stepx, stepy; intros H; inversion H; lia. Qed.

Lemma step_opposite (x y : Z) (d : Dir) :
  stepx (stepx x d) (opposite d) = x /\ stepy (stepy y d) (opposite d) = y.
Proof. destruct d; unfold stepx, stepy; simpl; lia. Qed.

Lemma dir_int_opposite (d : Dir) : dir_int (opposite d) = Z.rem (dir_int d + 2) 4.
Proof. destruct d; reflexivity. Qed.

Lemma opposite_involutive (d : Dir) : opposite (opposite d) = d.
Proof. destruct d; reflexivity. Qed.

Lemma wf_carve (g : Grid) (cx cy : Z) (d : Dir) : wfGrid g -> wfGrid (carve g cx cy d).
Proof. intros H. unfold carve. repeat apply wf_modRoom. assumption. Qed.

Ltac eqb_cases :=
  repeat match goal with
         | |- context [?a =? ?b] => destruct (Z.eqb_spec a b); simpl
         end.

Lemma getRoom_carve (g : Grid) (cx cy : Z) (d : Dir) (x y : Z) :
  wfGrid g -> inb cx cy = true -> inb (stepx cx d) (stepy cy d) = true ->
  getRoom (carve g cx cy d) x y
  = if (x =? stepx cx d) && (y =? stepy cy d)
    then set_door (set_exists (getRoom g (stepx cx d) (stepy cy d)) true)
                  (dir_int (opposite d))
    else if (x =? cx) && (y =? cy)
         then set_door (set_exists (getRoom g cx cy) true) (dir_int d)
         else getRoom g x y.
Proof.
  intros Hwf Hc Hn. rewrite dir_int_opposite. unfold carve.
  pose proof (step_neq cx cy d) as Hne.
  remember (stepx cx d) as nx eqn:Enx. remember (stepy cy d) as ny eqn:Eny.
  clear Enx Eny.
  repeat (rewrite getRoom_modRoom by (repeat apply wf_modRoom; assumption)).
  rewrite Hc, Hn. rewrite !andb_true_r.
  eqb_cases; subst; try reflexivity; try lia; try (exfalso; apply Hne; reflexivity).
Qed.

Lemma door_get_set (ds : Doors) (i j : Z) :
  0 <= i <= 3 ->
  door_get (door_set ds i) j = if i =? j then true else door_get ds j.
Proof.
  intros Hi.
  assert (i = 0 \/ i = 1 \/ i = 2 \/ i = 3) as [ -> | [ -> | [ -> | -> ] ] ] by lia;
    (destruct j as [|p|p]; try reflexivity;
     destruct p as [p|p|]; try reflexivity;
     destruct p as [p|p|]; reflexivity).
Qed.

Lemma dir_int_range (d : Dir) : 0 <= dir_int d <= 3.
Proof. destruct d; simpl; lia. Qed.

Lemma dir_int_inj (d d' : Dir) : dir_int d = dir_int d' -> d = d'.
Proof. destruct d, d'; simpl; intros H; try reflexivity; discriminate. Qed.

(** Existence and doors after a carve step. *)
Lemma existsAt_carve (g : Grid) (cx cy : Z) (d : Dir) (x y : Z) :
  wfGrid g -> inb cx cy = true -> inb (stepx cx d) (stepy cy d) = true ->
  existsAt (carve g cx cy d) x y
  = ((x =? stepx cx d) && (y =? stepy cy d)) || ((x =? cx) && (y =? cy)) || existsAt g x y.
Proof.
  intros Hwf Hc Hn. unfold existsAt. rewrite getRoom_carve by assumption.
  destruct ((x =? stepx cx d) && (y =? stepy cy d)); [reflexivity|].
  destruct ((x =? cx) && (y =? cy)); reflexivity.
Qed.

Lemma doorAt_carve (g : Grid) (cx cy : Z) (d : Dir) (x y : Z) (d' : Dir) :
  wfGrid g -> inb cx cy = true -> inb (stepx cx d) (stepy cy d) = true ->
  doorAt (carve g cx cy d) x y d'
  = if (x =? stepx cx d) && (y =? stepy cy d)
    then (dir_int (opposite d) =? dir_int d') || doorAt g x y d'
    else if (x =? cx) && (y =? cy)
         then (dir_int d =? dir_int d') || doorAt g x y d'
         else doorAt g x y d'.
Proof.
  intros Hwf Hc Hn. unfold doorAt. rewrite getRoom_carve by assumption.
  destruct ((x =? stepx cx d) && (y =? stepy cy d)) eqn:E1.
  - apply andb_prop in E1. destruct E1 as [E1 E2]. apply Z.eqb_eq in E1, E2. subst.
    simpl. rewrite door_get_set by apply dir_int_range.
    destruct (dir_int (opposite d) =? dir_int d'); reflexivity.
  - destruct ((x =? cx) && (y =? cy)) eqn:E2; [|reflexivity].
    apply andb_prop in E2. destruct E2 as [E2 E3]. apply Z.eqb_eq in E2, E3. subst.
    simpl. rewrite door_get_set by apply dir_int_range.
    destruct (dir_int d =? dir_int d'); reflexivity.
Qed.

(** ** Invariants of carved grids *)

Lemma getRoom_emptyDungeon (x y : Z) : getRoom emptyDungeon x y = Room0.
Proof.
  unfold getRoom. destruct (inb x y) eqn:Hi; [|reflexivity].
  apply inb_range in Hi. unfold GRID_W, GRID_H in Hi.
  assert (Hx : x = 0 \/ x = 1 \/ x = 2 \/ x = 3 \/ x = 4) by lia.
  assert (Hy : y = 0 \/ y = 1 \/ y = 2 \/ y = 3 \/ y = 4) by lia.
  destruct Hx as [ -> | [ -> | [ -> | [ -> | -> ] ] ] ];
    destruct Hy as [ -> | [ -> | [ -> | [ -> | -> ] ] ] ]; reflexivity.
Qed.

Lemma existsAt_inb (g : Grid) (x y : Z) : existsAt g x y = true -> inb x y = true.
Proof.
  unfold existsAt. destruct (inb x y) eqn:Hi; [reflexivity|].
  rewrite getRoom_out by assumption. discriminate.
Qed.

Lemma Carved_wf (sx sy : Z) (g : Grid) : Carved sx sy g -> wfGrid g.
Proof.
  induction 1.
  - apply wf_modRoom, wf_emptyDungeon.
  - apply wf_carve; assumption.
Qed.

Lemma existsAt_carve_mono (g : Grid) (cx cy : Z) (d : Dir) (x y : Z) :
  wfGrid g -> inb cx cy = true -> inb (stepx cx d) (stepy cy d) = true ->
  existsAt g x y = true -> existsAt (carve g cx cy d) x y = true.
Proof.
  intros Hwf Hc Hn H. rewrite existsAt_carve by assumption. rewrite H.
  apply orb_true_r.
Qed.

Lemma doorAt_carve_mono (g : Grid) (cx cy : Z) (d : Dir) (x y : Z) (d' : Dir) :
  wfGrid g -> inb cx cy = true -> inb (stepx cx d) (stepy cy d) = true ->
  doorAt g x y d' = true -> doorAt (carve g cx cy d) x y d' = true.
Proof.
  intros Hwf Hc Hn H. rewrite doorAt_carve by assumption. rewrite H.
  rewrite !orb_true_r.
  destruct ((x =? stepx cx d) && (y =? stepy cy d)); [reflexivity|].
  destruct ((x =? cx) && (y =? cy)); reflexivity.
Qed.

Lemma Carved_start_exists (sx sy : Z) (g : Grid) :
  inb sx sy = true -> Carved sx sy g -> existsAt g sx sy = true.
Proof.
  intros Hs H. induction H.
  - unfold existsAt. rewrite getRoom_modRoom by apply wf_emptyDungeon.
    rewrite !Z.eqb_refl, Hs. reflexivity.
  - apply existsAt_carve_mono; auto. eapply Carved_wf; eassumption.
Qed.

(** Freshly carved rooms carry no boss flag, no cleared flag, no enemy. *)
Lemma Carved_plain (sx sy : Z) (g : Grid) :
  Carved sx sy g ->
  forall x y, r_boss (getRoom g x y) = false
              /\ r_cleared (getRoom g x y) = false
              /\ r_enemies (getRoom g x y) = [].
Proof.
  induction 1 as [|g cx cy d HC IH Hc He Hn Hf]; intros x y.
  - rewrite getRoom_modRoom by apply wf_emptyDungeon.
    destruct ((sx =? x) && (sy =? y) && inb sx sy);
      rewrite ?getRoom_emptyDungeon; simpl; auto.
  - rewrite getRoom_carve by (eauto using Carved_wf).
    destruct ((x =? stepx cx d) && (y =? stepy cy d)); [simpl; apply IH|].
    destruct ((x =? cx) && (y =? cy)); [simpl; apply IH|apply IH].
Qed.

Lemma eqb_pair_true (x y a b : Z) : (x =? a) && (y =? b) = true -> x = a /\ y = b.
Proof. intros H. apply andb_prop in H. destruct H as [H1 H2]. split; apply Z.eqb_eq; assumption. Qed.

Lemma Carved_doorsClosed (sx sy : Z) (g : Grid) : Carved sx sy g -> doorsClosed g.
Proof.
  induction 1 as [|g cx cy d HC IH Hc He Hn Hf]; intros x y d' Hd.
  - exfalso. unfold doorAt in Hd.
    rewrite getRoom_modRoom in Hd by apply wf_emptyDungeon.
    destruct ((sx =? x) && (sy =? y) && inb sx sy);
      rewrite ?getRoom_emptyDungeon in Hd; simpl in Hd; destruct d'; discriminate.
  - pose proof (Carved_wf _ _ _ HC) as Hwf.
    assert (Hfree : forall e, doorAt g (stepx cx d) (stepy cy d) e = false).
    { intros e. destruct (doorAt g (stepx cx d) (stepy cy d) e) eqn:E; [|reflexivity].
      apply IH in E. destruct E as [E _]. congruence. }
    rewrite doorAt_carve in Hd by assumption.
    destruct ((x =? stepx cx d) && (y =? stepy cy d)) eqn:E1.
    + apply eqb_pair_true in E1. destruct E1; subst x y.
      rewrite Hfree, orb_false_r in Hd. apply Z.eqb_eq, dir_int_inj in Hd. subst d'.
      destruct (step_opposite cx cy d) as [Sx Sy]. rewrite Sx, Sy.
      rewrite opposite_involutive.
      repeat split.
      * rewrite existsAt_carve by assumption. rewrite !Z.eqb_refl. reflexivity.
      * assumption.
      * apply existsAt_carve_mono; assumption.
      * rewrite doorAt_carve by assumption.
        destruct ((cx =? stepx cx d) && (cy =? stepy cy d)) eqn:E.
        -- apply eqb_pair_true in E. destruct E as [E1 E2].
           exfalso. apply (step_neq cx cy d). congruence.
        -- rewrite !Z.eqb_refl. reflexivity.
    + destruct ((x =? cx) && (y =? cy)) eqn:E2.
      * apply eqb_pair_true in E2. destruct E2; subst x y.
        destruct (Z.eqb_spec (dir_int d) (dir_int d')) as [E|E].
        -- apply dir_int_inj in E. subst d'. repeat split.
           ++ apply existsAt_carve_mono; assumption.
           ++ assumption.
           ++ rewrite existsAt_carve by assumption. rewrite !Z.eqb_refl. reflexivity.
           ++ rewrite doorAt_carve by assumption. rewrite !Z.eqb_refl. reflexivity.
        -- simpl in Hd. apply IH in Hd. destruct Hd as (H1 & H2 & H3 & H4).
           repeat split; auto using existsAt_carve_mono, doorAt_carve_mono.
      * apply IH in Hd. destruct Hd as (H1 & H2 & H3 & H4).
        repeat split; auto using existsAt_carve_mono, doorAt_carve_mono.
Qed.

(** ** Connectivity *)

Lemma reach_mono (g g' : Grid) (sx sy x y : Z) :
  (forall a b d, doorAt g a b d = true -> doorAt g' a b d = true) ->
  reach g sx sy x y -> reach g' sx sy x y.
Proof.
  intros Hm H. induction H.
  - constructor.
  - apply reach_door; auto.
Qed.

Lemma Carved_connected (sx sy : Z) (g : Grid) :
  Carved sx sy g ->
  forall x y, existsAt g x y = true -> reach g sx sy x y.
Proof.
  induction 1 as [|g cx cy d HC IH Hc He Hn Hf]; intros x y Hx.
  - unfold existsAt in Hx. rewrite getRoom_modRoom in Hx by apply wf_emptyDungeon.
    destruct ((sx =? x) && (sy =? y) && inb sx sy) eqn:E.
    + apply andb_prop in E. destruct E as [E _]. apply eqb_pair_true in E.
      destruct E; subst. constructor.
    + rewrite getRoom_emptyDungeon in Hx. discriminate.
  - pose proof (Carved_wf _ _ _ HC) as Hwf.
    assert (Hm : forall a b e, doorAt g a b e = true -> doorAt (carve g cx cy d) a b e = true)
      by (intros; apply doorAt_carve_mono; assumption).
    rewrite existsAt_carve in Hx by assumption.
    destruct ((x =? stepx cx d) && (y =? stepy cy d)) eqn:E1.
    + apply eqb_pair_true in E1. destruct E1; subst x y.
      apply reach_door.
      * apply reach_mono with (g := g); auto.
      * rewrite doorAt_carve by assumption.
        destruct ((cx =? stepx cx d) && (cy =? stepy cy d)) eqn:E.
        -- apply eqb_pair_true in E. destruct E as [E1 E2].
           exfalso. apply (step_neq cx cy d). congruence.
        -- rewrite !Z.eqb_refl. reflexivity.
    + simpl in Hx. destruct ((x =? cx) && (y =? cy)) eqn:E2.
      * apply eqb_pair_true in E2. destruct E2; subst x y.
        apply reach_mono with (g := g); auto.
      * simpl in Hx. apply reach_mono with (g := g); auto.
Qed.

(** ** Acyclicity *)

Lemma last_nonempty (b : Z * Z) (p : list (Z * Z)) (a a' : Z * Z) :
  last (b :: p) a = last (b :: p) a'.
Proof.
  revert b; induction p as [|c p IH]; intros b; [reflexivity|].
  change (last (c :: p) a = last (c :: p) a'). apply IH.
Qed.

Lemma chain_app (g : Grid) (a : Z * Z) (p1 p2 : list (Z * Z)) :
  chain g a (p1 ++ p2) <-> chain g a p1 /\ chain g (last p1 a) p2.
Proof.
  revert a; induction p1 as [|b p1 IH]; intros a.
  - simpl. tauto.
  - change (chain g a ((b :: p1) ++ p2)) with (adj g a b /\ chain g b (p1 ++ p2)).
    change (chain g a (b :: p1)) with (adj g a b /\ chain g b p1).
    rewrite IH. destruct p1 as [|c p1].
    + simpl. tauto.
    + rewrite (last_nonempty c p1 b a).
      change (last (b :: c :: p1) a) with (last (c :: p1) a). tauto.
Qed.

Lemma chain_weaken (g g' : Grid) (a : Z * Z) (p : list (Z * Z)) :
  (forall u v, In u (a :: p) -> In v (a :: p) -> adj g u v -> adj g' u v) ->
  chain g a p -> chain g' a p.
Proof.
  revert a; induction p as [|b p IH]; intros a Hw H; simpl in *; [exact I|].
  destruct H as [H1 H2]. split.
  - apply Hw; auto.
  - apply IH; [|assumption]. intros u v Hu Hv. apply Hw; simpl in *; tauto.
Qed.

Lemma last_In (p : list (Z * Z)) (a : Z * Z) : p <> [] -> In (last p a) p.
Proof.
  induction p as [|b p IH]; [congruence|]. intros _.
  destruct p as [|c p]; [left; reflexivity|].
  right. apply IH. discriminate.
Qed.

Lemma last_cons_In (p : list (Z * Z)) (a : Z * Z) : In (last p a) (a :: p).
Proof.
  destruct p as [|b p]; [left; reflexivity|].
  right. apply last_In. discriminate.
Qed.

Section CarveAdj.
Variables (g : Grid) (cx cy : Z) (d : Dir).
Hypothesis Hwf : wfGrid g.
Hypothesis Hclosed : doorsClosed g.
Hypothesis Hc : inb cx cy = true.
Hypothesis Hn : inb (stepx cx d) (stepy cy d) = true.
Hypothesis Hfree : existsAt g (stepx cx d) (stepy cy d) = false.

Let c : Z * Z := (cx, cy).
Let n : Z * Z := (stepx cx d, stepy cy d).

Lemma adj_old_avoids_new (u v : Z * Z) : adj g u v -> u <> n /\ v <> n.
Proof.
  intros [e [He ->]]. apply Hclosed in He. destruct He as (H1 & _ & H3 & _).
  split; intros E; subst n.
  - destruct u as [a b]. simpl in *. inversion E; subst. congruence.
  - inversion E as [[E1 E2]]. rewrite E1, E2 in H3. congruence.
Qed.

Lemma adj_carve_inv (u v : Z * Z) :
  adj (carve g cx cy d) u v -> adj g u v \/ (u = c /\ v = n) \/ (u = n /\ v = c).
Proof.
  intros [e [He ->]]. destruct u as [x y]. simpl in *.
  rewrite doorAt_carve in He by assumption.
  assert (Hfd : forall e', doorAt g (stepx cx d) (stepy cy d) e' = false).
  { intros e'. destruct (doorAt g (stepx cx d) (stepy cy d) e') eqn:E; [|reflexivity].
    apply Hclosed in E. destruct E as [E _]. congruence. }
  destruct ((x =? stepx cx d) && (y =? stepy cy d)) eqn:E1.
  - apply eqb_pair_true in E1. destruct E1; subst x y.
    rewrite Hfd, orb_false_r in He. apply Z.eqb_eq, dir_int_inj in He. subst e.
    right; right. destruct (step_opposite cx cy d) as [Sx Sy].
    rewrite Sx, Sy. split; reflexivity.
  - destruct ((x =? cx) && (y =? cy)) eqn:E2.
    + apply eqb_pair_true in E2. destruct E2; subst x y.
      destruct (Z.eqb_spec (dir_int d) (dir_int e)) as [E|E].
      * apply dir_int_inj in E. subst e. right; left. split; reflexivity.
      * simpl in He. left. exists e. simpl. split; [assumption|reflexivity].
    + left. exists e. simpl. split; [assumption|reflexivity].
Qed.

Lemma adj_carve_to_new (u : Z * Z) : adj (carve g cx cy d) u n -> u = c.
Proof.
  intros H. apply adj_carve_inv in H. destruct H as [H|[[H _]|[_ H]]].
  - apply adj_old_avoids_new in H. destruct H as [_ H]. congruence.
  - assumption.
  - exfalso. apply (step_neq cx cy d). exact H.
Qed.

Lemma adj_carve_from_new (v : Z * Z) : adj (carve g cx cy d) n v -> v = c.
Proof.
  intros H. apply adj_carve_inv in H. destruct H as [H|[[H _]|[_ H]]].
  - apply adj_old_avoids_new in H. destruct H as [H _]. congruence.
  - exfalso. apply (step_neq cx cy d). exact H.
  - assumption.
Qed.

Lemma adj_carve_old (u v : Z * Z) :
  u <> n -> v <> n -> adj (carve g cx cy d) u v -> adj g u v.
Proof.
  intros Hu Hv H. apply adj_carve_inv in H. destruct H as [H|[[_ H]|[H _]]];
    [assumption|congruence|congruence].
Qed.

(** A cycle of the extended grid would already be a cycle before. *)
Lemma cycle_carve (a : Z * Z) (p : list (Z * Z)) :
  simpleCycle (carve g cx cy d) a p -> simpleCycle g a p.
Proof.
  intros (Hlen & Hnd & Hch & Hcl).
  assert (Hnot : ~ In n (a :: p)).
  { intros Hin. destruct Hin as [Ha|Hp].
    - (* the new room heads the cycle *)
      subst a. destruct p as [|b p]; [simpl in Hlen; lia|].
      destruct p as [|b' p]; [simpl in Hlen; lia|].
      destruct Hch as [Hb _]. apply adj_carve_from_new in Hb.
      apply adj_carve_to_new in Hcl.
      change (last (b :: b' :: p) n) with (last (b' :: p) n) in Hcl.
      assert (Hl : In (last (b' :: p) n) (b' :: p)) by (apply last_In; discriminate).
      rewrite Hcl in Hl. subst b.
      inversion Hnd as [|? ? _ Hnd']. inversion Hnd' as [|? ? Hnc _]. contradiction.
    - (* the new room is inside the cycle *)
      apply in_split in Hp. destruct Hp as (p1 & p2 & ->).
      apply chain_app in Hch. destruct Hch as [_ Hch].
      pose proof (chain_app (carve g cx cy d) a p1 [n]) as Hsp.
      assert (Hpre : adj (carve g cx cy d) (last p1 a) n).
      { simpl in Hch. tauto. }
      apply adj_carve_to_new in Hpre.
      assert (Hsuc : (p2 = [] /\ a = c) \/ (exists b p2', p2 = b :: p2' /\ b = c)).
      { destruct p2 as [|b p2'].
        - left. split; [reflexivity|].
          rewrite last_last in Hcl. apply adj_carve_from_new in Hcl. assumption.
        - right. exists b, p2'. split; [reflexivity|].
          simpl in Hch. destruct Hch as [_ [Hb _]].
          apply adj_carve_from_new in Hb. assumption. }
      clear Hsp Hch Hcl.
      destruct Hsuc as [[-> Ha]|(b & p2' & -> & Hb)].
      + destruct p1 as [|b1 p1]; [simpl in Hlen; lia|].
        assert (Hl : In (last (b1 :: p1) a) (b1 :: p1)) by (apply last_In; discriminate).
        rewrite Hpre, <- Ha in Hl.
        inversion Hnd as [|? ? Hna _]. apply Hna.
        change (In a ((b1 :: p1) ++ [n])). apply in_or_app. left. assumption.
      + subst b. pose proof (last_cons_In p1 a) as Hl. rewrite Hpre in Hl.
        apply (NoDup_remove_2 (a :: p1) (c :: p2') n) in Hnd as Hnd1.
        apply (NoDup_remove_1 (a :: p1) (c :: p2') n) in Hnd as Hnd2.
        clear Hnd Hnd1.
        change ((a :: p1) ++ c :: p2') with ((a :: p1) ++ c :: p2') in Hnd2.
        apply NoDup_remove_2 in Hnd2. apply Hnd2. apply in_or_app. left. assumption. }
  repeat split; try assumption.
  - apply chain_weaken with (g := carve g cx cy d); [|assumption].
    intros u v Hu Hv. apply adj_carve_old; intros E; subst; contradiction.
  - apply adj_carve_old; [| |assumption].
    + intros E. apply Hnot. rewrite <- E. apply last_cons_In.
    + intros E. apply Hnot. left. assumption.
Qed.
End CarveAdj.

Lemma Carved_acyclic (sx sy : Z) (g : Grid) :
  Carved sx sy g -> forall a p, ~ simpleCycle g a p.
Proof.
  induction 1 as [|g cx cy d HC IH Hc He Hn Hf]; intros a p Hcyc.
  - destruct Hcyc as (Hlen & _ & Hch & _).
    destruct p as [|b p]; [simpl in Hlen; lia|].
    destruct Hch as [[e [He _]] _]. unfold doorAt in He.
    rewrite getRoom_modRoom in He by apply wf_emptyDungeon.
    destruct ((sx =? fst a) && (sy =? snd a) && inb sx sy);
      rewrite ?getRoom_emptyDungeon in He; simpl in He; destruct e; discriminate.
  - apply (IH a p). apply cycle_carve with (cx := cx) (cy := cy) (d := d); auto.
    + eapply Carved_wf; eassumption.
    + eapply Carved_doorsClosed; eassumption.
Qed.

(** ** Counting rooms *)

Lemma In_allCells (x y : Z) : In (x, y) allCells <-> inb x y = true.
Proof.
  rewrite inb_range. unfold GRID_W, GRID_H. split.
  - unfold allCells. simpl. intros H.
    repeat (destruct H as [H|H]; [inversion H; subst; lia|]). contradiction.
  - intros [Hx Hy].
    assert (Hx' : x = 0 \/ x = 1 \/ x = 2 \/ x = 3 \/ x = 4) by lia.
    assert (Hy' : y = 0 \/ y = 1 \/ y = 2 \/ y = 3 \/ y = 4) by lia.
    destruct Hx' as [ -> | [ -> | [ -> | [ -> | -> ] ] ] ];
      destruct Hy' as [ -> | [ -> | [ -> | [ -> | -> ] ] ] ];
      unfold allCells; simpl; tauto.
Qed.

Lemma NoDup_allCells : NoDup allCells.
Proof.
  unfold allCells. simpl.
  repeat (constructor; [simpl; intros H;
                        repeat (destruct H as [H|H]; [discriminate H|]); exact H|]).
  constructor.
Qed.

Lemma filter_length_same {A : Type} (f f' : A -> bool) (l : list A) :
  (forall a, In a l -> f' a = f a) -> length (filter f' l) = length (filter f l).
Proof.
  induction l as [|a l IH]; intros H; simpl; [reflexivity|].
  rewrite (H a) by (left; reflexivity).
  destruct (f a); simpl; rewrite IH; auto; intros; apply H; right; assumption.
Qed.

Lemma filter_length_add {A : Type} (f f' : A -> bool) (l : list A) (n : A) :
  NoDup l -> In n l -> f n = false -> f' n = true ->
  (forall a, a <> n -> f' a = f a) ->
  length (filter f' l) = S (length (filter f l)).
Proof.
  intros Hnd Hin Hf Hf' Hrest. induction Hnd as [|a l Ha Hnd IH]; [contradiction|].
  simpl. destruct Hin as [->|Hin].
  - rewrite Hf, Hf'. simpl. f_equal. apply filter_length_same.
    intros b Hb. apply Hrest. intros ->. contradiction.
  - rewrite (Hrest a) by (intros ->; contradiction).
    destruct (f a); simpl; rewrite IH; auto.
Qed.

Lemma countRooms_carve (g : Grid) (cx cy : Z) (d : Dir) :
  wfGrid g -> inb cx cy = true -> existsAt g cx cy = true ->
  inb (stepx cx d) (stepy cy d) = true ->
  existsAt g (stepx cx d) (stepy cy d) = false ->
  countRooms (carve g cx cy d) = countRooms g + 1.
Proof.
  intros Hwf Hc He Hn Hf. unfold countRooms.
  rewrite (filter_length_add (fun c => existsAt g (fst c) (snd c))
             (fun c => existsAt (carve g cx cy d) (fst c) (snd c))
             allCells (stepx cx d, stepy cy d)).
  - lia.
  - apply NoDup_allCells.
  - apply In_allCells. assumption.
  - assumption.
  - simpl. rewrite existsAt_carve by assumption. rewrite !Z.eqb_refl. reflexivity.
  - intros [x y] Hne. simpl. rewrite existsAt_carve by assumption.
    destruct ((x =? stepx cx d) && (y =? stepy cy d)) eqn:E1.
    + apply eqb_pair_true in E1. destruct E1; subst. contradiction Hne. reflexivity.
    + destruct ((x =? cx) && (y =? cy)) eqn:E2; [|reflexivity].
      apply eqb_pair_true in E2. destruct E2; subst. simpl. symmetry. assumption.
Qed.

Lemma countRooms_start (sx sy : Z) :
  inb sx sy = true ->
  countRooms (modRoom emptyDungeon sx sy (fun R => set_exists R true)) = 1.
Proof.
  intros Hs. apply inb_range in Hs. unfold GRID_W, GRID_H in Hs.
  assert (Hx : sx = 0 \/ sx = 1 \/ sx = 2 \/ sx = 3 \/ sx = 4) by lia.
  assert (Hy : sy = 0 \/ sy = 1 \/ sy = 2 \/ sy = 3 \/ sy = 4) by lia.
  destruct Hx as [ -> | [ -> | [ -> | [ -> | -> ] ] ] ];
    destruct Hy as [ -> | [ -> | [ -> | [ -> | -> ] ] ] ]; reflexivity.
Qed.

(** ** The carving loop *)

Lemma tryDirs_Some (g : Grid) (cx cy : Z) (dirs : list Dir) (g' : Grid) (n : Z * Z) :
  tryDirs g cx cy dirs = Some (g', n) ->
  exists d, g' = carve g cx cy d /\ n = (stepx cx d, stepy cy d)
            /\ inb (stepx cx d) (stepy cy d) = true
            /\ existsAt g (stepx cx d) (stepy cy d) = false.
Proof.
  induction dirs as [|d ds IH]; simpl; [discriminate|].
  destruct (inb (stepx cx d) (stepy cy d)) eqn:Hi; simpl; [|exact IH].
  destruct (r_exists (getRoom g (stepx cx d) (stepy cy d))) eqn:He; [exact IH|].
  intros H. inversion H; subst. exists d. auto.
Qed.

Lemma carveStep_inv (sx sy target : Z) (c : Carver) :
  carveCond target c = true ->
  carverInv sx sy target c -> carverInv sx sy target (carveStep c).
Proof.
  intros Hcond (HC & Hm & Hr & Hst). unfold carveCond in Hcond.
  apply andb_prop in Hcond. destruct Hcond as [Hlt Hne]. apply Z.ltb_lt in Hlt.
  unfold carveStep. destruct (c_stack c) as [|[cx cy] rest] eqn:Es; [discriminate|].
  destruct (shuffle (c_rng c)) as [dirs g'].
  inversion Hst as [|? ? [Hci Hce] Hrest]; subst. simpl in Hci, Hce.
  destruct (tryDirs (c_grid c) cx cy dirs) as [[gr n]|] eqn:Et.
  - apply tryDirs_Some in Et. destruct Et as (d & -> & -> & Hni & Hnf).
    pose proof (Carved_wf _ _ _ HC) as Hwf.
    unfold carverInv; simpl. split; [|split; [|split]].
    + apply Carved_step; assumption.
    + rewrite countRooms_carve by assumption. lia.
    + lia.
    + constructor.
      * simpl. split; [assumption|].
        rewrite existsAt_carve by assumption. rewrite !Z.eqb_refl. reflexivity.
      * constructor.
        -- simpl. split; [assumption|]. apply existsAt_carve_mono; assumption.
        -- eapply Forall_impl; [|exact Hrest]. intros a [Ha1 Ha2].
           split; [assumption|]. apply existsAt_carve_mono; assumption.
  - unfold carverInv; simpl. split; [|split; [|split]]; try assumption; lia.
Qed.

Lemma carveStep_measure (target : Z) (c : Carver) :
  carveCond target c = true ->
  carveMeasure target (carveStep c) = carveMeasure target c - 1.
Proof.
  unfold carveCond, carveStep, carveMeasure. intros H.
  destruct (c_stack c) as [|[cx cy] rest]; [rewrite andb_false_r in H; discriminate|].
  destruct (shuffle (c_rng c)) as [dirs g'].
  destruct (tryDirs (c_grid c) cx cy dirs) as [[gr n]|]; simpl length; simpl c_made;
    simpl c_stack; rewrite ?Nat2Z.inj_succ; simpl length; lia.
Qed.

Lemma carveStep_made (c : Carver) : c_made c <= c_made (carveStep c).
Proof.
  unfold carveStep. destruct (c_stack c) as [|[cx cy] rest]; [lia|].
  destruct (shuffle (c_rng c)) as [dirs g'].
  destruct (tryDirs (c_grid c) cx cy dirs) as [[gr n]|]; simpl; lia.
Qed.

(** The loop ends within its budget, and its result satisfies the
    invariant. *)
Lemma carveLoop_spec (sx sy target : Z) (fuel : nat) (c : Carver) :
  carverInv sx sy target c ->
  carveMeasure target c <= Z.of_nat fuel ->
  exists c', carveLoop fuel target c = Some c'
             /\ carverInv sx sy target c'
             /\ c_made c <= c_made c'.
Proof.
  revert c; induction fuel as [|f IH]; intros c Hinv Hm.
  - simpl. destruct (carveCond target c) eqn:Hc.
    + exfalso. unfold carveCond in Hc. apply andb_prop in Hc. destruct Hc as [Hlt Hne].
      apply Z.ltb_lt in Hlt. unfold carveMeasure in Hm.
      destruct (c_stack c); [discriminate|]. simpl length in Hm. lia.
    + exists c. split; [reflexivity|]. split; [assumption|lia].
  - simpl. destruct (carveCond target c) eqn:Hc.
    + destruct (IH (carveStep c)) as (c' & H1 & H2 & H3).
      * apply carveStep_inv; assumption.
      * rewrite carveStep_measure by assumption. lia.
      * exists c'. split; [assumption|]. split; [assumption|].
        pose proof (carveStep_made c). lia.
    + exists c. split; [reflexivity|]. split; [assumption|lia].
Qed.

(** ** The oracle *)

Lemma randint_range (a b : Z) (g : RNG) :
  a <= b -> a <= fst (randint a b g) <= b.
Proof.
  intros H. unfold randint, next. simpl.
  pose proof (Z.mod_pos_bound (draws g (cursor g)) (b - a + 1)). lia.
Qed.

(** [randf] stays in its range and advances the engine by one draw; and
    every binary32 of the range is the value of [randf] for some engine. *)
Lemma randf_range (a b : float) (g : RNG) :
  (a <=? b)%f32 = true ->
  (a <=? fst (randf a b g))%f32 = true /\ (fst (randf a b g) <=? b)%f32 = true
  /\ cursor (snd (randf a b g)) = S (cursor g).
Proof.
  intros H. unfold randf. cbv zeta. cbn [fst snd cursor].
  destruct (valid_binary F32.prec F32.emax (fdraws g (cursor g))); cbn [andb].
  - destruct (a <=? fdraws g (cursor g))%f32 eqn:E1; cbn [andb].
    + destruct (fdraws g (cursor g) <=? b)%f32 eqn:E2.
      * repeat split; assumption.
      * repeat split; [apply leb_refl; apply (leb_num _ _ H)|exact H].
    + repeat split; [apply leb_refl; apply (leb_num _ _ H)|exact H].
  - repeat split; [apply leb_refl; apply (leb_num _ _ H)|exact H].
Qed.

Lemma randf_any (a b v : float) (g : RNG) :
  valid_binary F32.prec F32.emax v = true ->
  (a <=? v)%f32 = true -> (v <=? b)%f32 = true ->
  fst (randf a b (mkRNG (draws g) (fun _ => v) (cursor g))) = v.
Proof. intros Hv H1 H2. unfold randf. cbn. rewrite Hv, H1, H2. reflexivity. Qed.

Lemma swapAt_length (l : list Dir) (i j : nat) : length (swapAt l i j) = length l.
Proof. unfold swapAt. rewrite !upd_length. reflexivity. Qed.

Lemma shuffle_length (g : RNG) : length (fst (shuffle g)) = 4%nat.
Proof. unfold shuffle, randint, next. simpl. rewrite !swapAt_length. reflexivity. Qed.

(** ** [carveDungeon]: the carving part *)

Lemma carveInit_inv (target : Z) (rng : RNG) :
  1 <= target -> carverInv 2 2 target (carveInit 2 2 rng).
Proof.
  intros Ht. unfold carverInv, carveInit; simpl. split; [|split; [|split]].
  - constructor.
  - reflexivity.
  - lia.
  - constructor; [|constructor]. split; reflexivity.
Qed.

Lemma carveStep_first (rng : RNG) : c_made (carveStep (carveInit 2 2 rng)) = 2.
Proof.
  unfold carveStep, carveInit. simpl c_stack. simpl c_rng.
  pose proof (shuffle_length rng) as Hl.
  destruct (shuffle rng) as [dirs g']. simpl in Hl.
  destruct dirs as [|d ds]; [discriminate|].
  destruct d; reflexivity.
Qed.

Lemma carveRooms_spec (rng : RNG) :
  6 <= fst (carveRooms rng) <= 9
  /\ exists c, snd (carveRooms rng) = Some c
               /\ carverInv 2 2 (fst (carveRooms rng)) c
               /\ 2 <= c_made c.
Proof.
  unfold carveRooms. pose proof (randint_range 6 9 rng ltac:(lia)) as Hr.
  destruct (randint 6 9 rng) as [t rng1]. simpl in Hr. simpl fst. simpl snd.
  split; [assumption|].
  change (Z.quot GRID_W 2) with 2. change (Z.quot GRID_H 2) with 2.
  unfold carveFuel.
  destruct (Z.to_nat (2 * t)) as [|f] eqn:Ef; [lia|].
  assert (Hcond : carveCond t (carveInit 2 2 rng1) = true).
  { unfold carveCond, carveInit; simpl. rewrite andb_true_r. apply Z.ltb_lt. lia. }
  simpl carveLoop. rewrite Hcond.
  destruct (carveLoop_spec 2 2 t f (carveStep (carveInit 2 2 rng1))) as (c & H1 & H2 & H3).
  - apply carveStep_inv; [assumption|]. apply carveInit_inv. lia.
  - rewrite carveStep_measure by assumption. unfold carveMeasure, carveInit.
    cbn [c_made c_stack length]. lia.
  - exists c. split; [assumption|]. split; [assumption|].
    rewrite carveStep_first in H3. assumption.
Qed.

(** The carving loop always ends within its iteration budget. *)
Lemma carveLoop_total (rng : RNG) :
  exists c, snd (carveRooms rng) = Some c.
Proof.
  destruct (carveRooms_spec rng) as [_ (c & Hc & _)]. exists c. exact Hc.
Qed.

(** ** Boss selection *)

Lemma dist_nonneg (sx sy x y : Z) : 0 <= dist sx sy x y.
Proof.
  unfold dist. cbv zeta.
  pose proof (Z.square_nonneg (x - sx)). pose proof (Z.square_nonneg (y - sy)). lia.
Qed.

Lemma bossStep_inv (g : Grid) (sx sy : Z) (pre : list (Z * Z)) (acc : Z * Z * Z)
      (c : Z * Z) :
  bossInv g sx sy pre acc -> bossInv g sx sy (pre ++ [c]) (bossStep g sx sy acc c).
Proof.
  destruct acc as [[bx by_] best]. destruct c as [x y].
  unfold bossInv, bossStep. fold (existsAt g x y).
  intros H. destruct (existsAt g x y) eqn:Ex; simpl negb; cbv iota.
  - pose proof (dist_nonneg sx sy x y) as Hd.
    destruct (Z.gtb_spec (dist sx sy x y) best) as [Hgt|Hle].
    + right. exists pre, []. split; [reflexivity|]. split; [assumption|].
      split; [reflexivity|]. split; [|intros c []].
      intros c Hc Hec. destruct H as [(_ & _ & Hnone)|(p1 & p2 & -> & Hb & -> & H1 & H2)].
      * rewrite Hnone in Hec by assumption. discriminate.
      * apply in_app_or in Hc. destruct Hc as [Hc|[<-|Hc]].
        -- specialize (H1 c Hc Hec). lia.
        -- simpl. lia.
        -- specialize (H2 c Hc Hec). lia.
    + destruct H as [(-> & _ & _)|(p1 & p2 & -> & Hb & -> & H1 & H2)]; [lia|].
      right. exists p1, (p2 ++ [(x, y)]). split; [rewrite <- app_assoc; reflexivity|].
      split; [assumption|]. split; [reflexivity|]. split; [assumption|].
      intros c Hc Hec. apply in_app_or in Hc. destruct Hc as [Hc|[<-|[]]].
      * apply H2; assumption.
      * simpl. lia.
  - destruct H as [(-> & Hb & Hnone)|(p1 & p2 & -> & Hb & -> & H1 & H2)].
    + left. split; [reflexivity|]. split; [assumption|].
      intros c Hc. apply in_app_or in Hc. destruct Hc as [Hc|[<-|[]]]; auto.
    + right. exists p1, (p2 ++ [(x, y)]). split; [rewrite <- app_assoc; reflexivity|].
      split; [assumption|]. split; [reflexivity|]. split; [assumption|].
      intros c Hc Hec. apply in_app_or in Hc. destruct Hc as [Hc|[<-|[]]].
      * apply H2; assumption.
      * simpl in Hec. congruence.
Qed.

Lemma bossFold_inv (g : Grid) (sx sy : Z) (l pre : list (Z * Z)) (acc : Z * Z * Z) :
  bossInv g sx sy pre acc ->
  bossInv g sx sy (pre ++ l) (fold_left (bossStep g sx sy) l acc).
Proof.
  revert pre acc; induction l as [|c l IH]; intros pre acc H; simpl.
  - rewrite app_nil_r. assumption.
  - replace (pre ++ c :: l) with ((pre ++ [c]) ++ l) by (rewrite <- app_assoc; reflexivity).
    apply IH. apply bossStep_inv. assumption.
Qed.

Lemma bossScan_inv (g : Grid) (sx sy : Z) : bossInv g sx sy allCells (bossScan g sx sy).
Proof.
  unfold bossScan. apply (bossFold_inv g sx sy allCells []).
  left. split; [reflexivity|]. split; [reflexivity|]. intros c [].
Qed.

Lemma sorted_allCells : StronglySorted cellBefore allCells.
Proof.
  unfold allCells. simpl.
  repeat (constructor; [|repeat (constructor; [unfold cellBefore; simpl; lia|]);
                         constructor]).
  constructor.
Qed.

Lemma sorted_split (l p1 p2 : list (Z * Z)) (b : Z * Z) :
  StronglySorted cellBefore l -> l = p1 ++ b :: p2 ->
  forall c, In c p2 -> cellBefore b c.
Proof.
  intros Hs. revert p1. induction Hs as [|a l Hs IH Ha]; intros p1 E c Hc.
  - destruct p1; discriminate.
  - destruct p1 as [|a' p1]; simpl in E; inversion E; subst.
    + rewrite Forall_forall in Ha. apply Ha. assumption.
    + eapply IH; [reflexivity|assumption].
Qed.

(** The result of the boss scan, cell by cell. *)
Lemma bossScan_spec (g : Grid) (sx sy : Z) :
  existsAt g sx sy = true ->
  exists bx by_ best,
    bossScan g sx sy = (bx, by_, best)
    /\ existsAt g bx by_ = true
    /\ best = dist sx sy bx by_
    /\ forall x y, existsAt g x y = true ->
         dist sx sy x y <= best
         /\ (scannedBefore x y bx by_ -> dist sx sy x y < best).
Proof.
  intros Hs. pose proof (bossScan_inv g sx sy) as H.
  destruct (bossScan g sx sy) as [[bx by_] best]. exists bx, by_, best.
  split; [reflexivity|]. unfold bossInv in H.
  destruct H as [(_ & _ & Hnone)|(p1 & p2 & E & Hb & -> & H1 & H2)].
  - exfalso. specialize (Hnone (sx, sy)). simpl in Hnone.
    rewrite Hnone in Hs; [discriminate|]. apply In_allCells. apply existsAt_inb in Hs.
    assumption.
  - split; [assumption|]. split; [reflexivity|]. intros x y Hex.
    assert (Hin : In (x, y) allCells) by (apply In_allCells; eapply existsAt_inb; eauto).
    rewrite E in Hin. apply in_app_or in Hin.
    destruct Hin as [Hin|[Heq|Hin]].
    + specialize (H1 _ Hin Hex). simpl in H1. split; [lia|intros _; assumption].
    + inversion Heq; subst. split; [lia|].
      unfold scannedBefore. lia.
    + specialize (H2 _ Hin Hex). simpl in H2. split; [assumption|].
      intros Hbefore. exfalso.
      pose proof (sorted_split allCells p1 p2 (bx, by_) sorted_allCells E (x, y) Hin) as Hc.
      unfold cellBefore in Hc. unfold scannedBefore in Hbefore. simpl in Hc. lia.
Qed.

(** ** Population *)

Lemma spawnLoop_length (boss : bool) (n : nat) (i : Z) (es : list Enemy) (g : RNG) :
  length (fst (spawnLoop boss n i es g)) = (length es + n)%nat.
Proof.
  revert i es g; induction n as [|n IH]; intros i es g; cbn [spawnLoop].
  - simpl. lia.
  - repeat match goal with
           | |- context [let (_, _) := ?e in _] => destruct e
           end.
    rewrite IH. rewrite length_app. simpl. lia.
Qed.

(** [spawnEnemies] keeps the room's place in the graph and its boss
    flag, gives a boss room six enemies and any other room two to five,
    and leaves the room uncleared. *)
Lemma spawnEnemies_spec (R : Room) (g : RNG) :
  let R' := fst (spawnEnemies R g) in
  r_exists R' = r_exists R /\ r_doors R' = r_doors R /\ r_boss R' = r_boss R
  /\ (r_boss R = true -> length (r_enemies R') = 6%nat)
  /\ (r_boss R = false -> (2 <= length (r_enemies R') <= 5)%nat)
  /\ r_cleared R' = false.
Proof.
  unfold spawnEnemies.
  pose proof (randint_range 2 5 g ltac:(lia)) as Hr.
  destruct (randint 2 5 g) as [c g1]. simpl in Hr.
  pose proof (spawnLoop_length (r_boss R) (Z.to_nat (if r_boss R then 6 else c)) 0 [] g1) as Hl.
  destruct (spawnLoop (r_boss R) (Z.to_nat (if r_boss R then 6 else c)) 0 [] g1) as [es g2].
  simpl in Hl. simpl.
  repeat split; try reflexivity.
  - intros Hb. rewrite Hb in Hl. rewrite Hl. reflexivity.
  - rewrite H in Hl. lia.
  - rewrite H in Hl. lia.
  - destruct es as [|e es]; [|reflexivity].
    exfalso. simpl in Hl. destruct (r_boss R); lia.
Qed.

Lemma populateStep_get (sx sy : Z) (g : Grid) (rng : RNG) (cx cy x y : Z) :
  wfGrid g ->
  getRoom (fst (populateStep sx sy (g, rng) (cx, cy))) x y
  = if (x =? cx) && (y =? cy) then populated sx sy cx cy (getRoom g cx cy) rng
    else getRoom g x y.
Proof.
  intros Hwf. unfold populateStep, populated.
  destruct (r_exists (getRoom g cx cy)) eqn:He.
  - assert (Hi : inb cx cy = true) by (apply (existsAt_inb g); exact He).
    destruct ((cx =? sx) && (cy =? sy)).
    + simpl fst. rewrite getRoom_modRoom by assumption. rewrite Hi, andb_true_r.
      rewrite (Z.eqb_sym cx x), (Z.eqb_sym cy y). reflexivity.
    + destruct (spawnEnemies (getRoom g cx cy) rng) as [R' rng'].
      simpl fst. rewrite getRoom_setRoom by assumption. rewrite Hi, andb_true_r.
      rewrite (Z.eqb_sym cx x), (Z.eqb_sym cy y). reflexivity.
  - simpl fst. destruct ((x =? cx) && (y =? cy)) eqn:E; [|reflexivity].
    apply eqb_pair_true in E. destruct E; subst. reflexivity.
Qed.

Lemma populateStep_wf (sx sy : Z) (g : Grid) (rng : RNG) (c : Z * Z) :
  wfGrid g -> wfGrid (fst (populateStep sx sy (g, rng) c)).
Proof.
  intros Hwf. destruct c as [cx cy]. unfold populateStep.
  destruct (r_exists (getRoom g cx cy)); [|assumption].
  destruct ((cx =? sx) && (cy =? sy)); [apply wf_modRoom; assumption|].
  destruct (spawnEnemies (getRoom g cx cy) rng). apply wf_setRoom. assumption.
Qed.

Lemma populate_fold (sx sy : Z) (l : list (Z * Z)) (g : Grid) (rng : RNG) :
  wfGrid g -> NoDup l ->
  let g' := fst (fold_left (populateStep sx sy) l (g, rng)) in
  wfGrid g'
  /\ forall x y,
       (In (x, y) l -> exists r, getRoom g' x y = populated sx sy x y (getRoom g x y) r)
       /\ (~ In (x, y) l -> getRoom g' x y = getRoom g x y).
Proof.
  revert g rng; induction l as [|[cx cy] l IH]; intros g rng Hwf Hnd; cbn [fold_left].
  - simpl. split; [assumption|]. intros x y. split; [intros []|reflexivity].
  - inversion Hnd as [|? ? Hnotin Hnd']; subst.
    pose proof (populateStep_wf sx sy g rng (cx, cy) Hwf) as Hwf1.
    pose proof (populateStep_get sx sy g rng cx cy) as Hget.
    destruct (populateStep sx sy (g, rng) (cx, cy)) as [g1 rng1]. simpl fst in *.
    destruct (IH g1 rng1 Hwf1 Hnd') as [Hwf' Hrooms].
    split; [assumption|]. intros x y. destruct (Hrooms x y) as [Hin Hout]. split.
    + intros [Heq|Hl].
      * inversion Heq; subst. rewrite Hout by assumption.
        rewrite Hget by assumption. rewrite !Z.eqb_refl. simpl. exists rng. reflexivity.
      * destruct (Hin Hl) as [r Hr]. exists r. rewrite Hr. rewrite Hget by assumption.
        destruct ((x =? cx) && (y =? cy)) eqn:E; [|reflexivity].
        apply eqb_pair_true in E. destruct E; subst. contradiction.
    + intros Hn. rewrite Hout by (intros H; apply Hn; right; exact H). rewrite Hget by assumption.
      destruct ((x =? cx) && (y =? cy)) eqn:E; [|reflexivity].
      apply eqb_pair_true in E. destruct E; subst. exfalso. apply Hn. left. reflexivity.
Qed.

Lemma populated_Room0 (sx sy x y : Z) (r : RNG) : populated sx sy x y Room0 r = Room0.
Proof. reflexivity. Qed.

Lemma populate_spec (sx sy : Z) (g : Grid) (rng : RNG) :
  wfGrid g ->
  wfGrid (fst (populate g sx sy rng))
  /\ forall x y, exists r,
       getRoom (fst (populate g sx sy rng)) x y = populated sx sy x y (getRoom g x y) r.
Proof.
  intros Hwf. destruct (populate_fold sx sy allCells g rng Hwf NoDup_allCells) as [H1 H2].
  split; [exact H1|]. intros x y. destruct (H2 x y) as [Hin Hout].
  destruct (inb x y) eqn:Hi.
  - apply Hin. apply In_allCells. assumption.
  - exists rng. unfold populate. rewrite Hout.
    + rewrite (getRoom_out g) by assumption. reflexivity.
    + rewrite In_allCells. congruence.
Qed.

(** ** [carveDungeon] as a whole *)

Lemma getRoom_markBoss (g : Grid) (sx sy bx by_ best x y : Z) :
  wfGrid g -> bossScan g sx sy = (bx, by_, best) -> inb bx by_ = true ->
  getRoom (markBoss g sx sy) x y
  = if (x =? bx) && (y =? by_) then set_boss (getRoom g x y) true else getRoom g x y.
Proof.
  intros Hwf Hscan Hb. unfold markBoss. rewrite Hscan.
  rewrite getRoom_modRoom by assumption. rewrite Hb, andb_true_r.
  rewrite (Z.eqb_sym bx x), (Z.eqb_sym by_ y).
  destruct ((x =? bx) && (y =? by_)) eqn:E; [|reflexivity].
  apply eqb_pair_true in E. destruct E; subst. reflexivity.
Qed.

Lemma carveRooms_target (rng : RNG) : fst (carveRooms rng) = fst (randint 6 9 rng).
Proof. unfold carveRooms. destruct (randint 6 9 rng). reflexivity. Qed.

Lemma carveDungeon_generated (s : State) :
  exists bx by_,
    Generated (g_dungeon (carveDungeon s)) (fst (randint 6 9 (g_rng s))) bx by_.
Proof.
  rewrite <- carveRooms_target.
  destruct (carveRooms_spec (g_rng s)) as [Ht (c & Hc & Hinv & Hmade)].
  destruct Hinv as (HC & Hm & Hr & _).
  pose proof (Carved_wf _ _ _ HC) as Hwf.
  destruct (bossScan_spec (c_grid c) 2 2 (Carved_start_exists 2 2 _ eq_refl HC))
    as (bx & by_ & best & Hscan & Hbe & -> & Hmax).
  exists bx, by_.
  unfold carveDungeon. rewrite Hc.
  change (Z.quot GRID_W 2) with 2. change (Z.quot GRID_H 2) with 2.
  assert (Hwfm : wfGrid (markBoss (c_grid c) 2 2)).
  { unfold markBoss. destruct (bossScan (c_grid c) 2 2) as [[? ?] ?].
    apply wf_modRoom. assumption. }
  destruct (populate_spec 2 2 (markBoss (c_grid c) 2 2) (c_rng c) Hwfm) as [Hwfp Hpop].
  destruct (populate (markBoss (c_grid c) 2 2) 2 2 (c_rng c)) as [g2 rng2].
  simpl fst in *. cbn [g_dungeon].
  exists (c_grid c). split; [assumption|]. split; [assumption|].
  split; [lia|]. split; [assumption|]. split; [assumption|]. split; [assumption|].
  intros x y. destruct (Hpop x y) as [r Hr']. exists r. rewrite Hr'.
  rewrite (getRoom_markBoss _ 2 2 bx by_ _ x y Hwf Hscan) by (eapply existsAt_inb; eauto).
  reflexivity.
Qed.

Lemma carveDungeon_frame (s : State) :
  g_player (carveDungeon s) = g_player s
  /\ g_rx (carveDungeon s) = g_rx s /\ g_ry (carveDungeon s) = g_ry s
  /\ g_startx (carveDungeon s) = 2 /\ g_starty (carveDungeon s) = 2
  /\ g_runOver (carveDungeon s) = g_runOver s
  /\ g_allCleared (carveDungeon s) = g_allCleared s
  /\ hurtCD (carveDungeon s) = hurtCD s
  /\ g_running (carveDungeon s) = g_running s.
Proof.
  unfold carveDungeon.
  destruct (populate _ _ _ _) as [g2 rng2]. simpl. repeat split; reflexivity.
Qed.

(** Consequences of [Generated], room by room. *)
Section GeneratedFacts.
Variables (g : Grid) (target bx by_ : Z) (gc : Grid).
Hypothesis HC : Carved 2 2 gc.
Hypothesis Hrooms : forall x y, exists r,
    getRoom g x y
    = populated 2 2 x y
        (if (x =? bx) && (y =? by_) then set_boss (getRoom gc x y) true
         else getRoom gc x y) r.

Lemma generated_graph (x y : Z) :
  r_exists (getRoom g x y) = r_exists (getRoom gc x y)
  /\ r_doors (getRoom g x y) = r_doors (getRoom gc x y).
Proof.
  destruct (Hrooms x y) as [r ->]. unfold populated.
  destruct ((x =? bx) && (y =? by_)); simpl;
    destruct (r_exists (getRoom gc x y)) eqn:He; simpl; rewrite ?He; auto;
      destruct ((x =? 2) && (y =? 2)); simpl; rewrite ?He; auto;
        match goal with
        | |- context [spawnEnemies ?R ?r] =>
            destruct (spawnEnemies_spec R r) as (H1 & H2 & _); simpl in H1, H2;
              rewrite H1, H2; simpl; auto
        end.
Qed.

Lemma generated_boss (x y : Z) :
  r_boss (getRoom g x y) = (x =? bx) && (y =? by_).
Proof.
  destruct (Carved_plain 2 2 gc HC x y) as (Hb & _ & _).
  destruct (Hrooms x y) as [r ->]. unfold populated.
  destruct ((x =? bx) && (y =? by_)); simpl;
    destruct (r_exists (getRoom gc x y)) eqn:He; simpl; rewrite ?He; auto;
      destruct ((x =? 2) && (y =? 2)); simpl; auto;
        match goal with
        | |- context [spawnEnemies ?R ?r] =>
            destruct (spawnEnemies_spec R r) as (_ & _ & H3 & _); simpl in H3;
              rewrite H3; simpl; auto
        end.
Qed.

Lemma generated_existsAt (x y : Z) : existsAt g x y = existsAt gc x y.
Proof. unfold existsAt. apply generated_graph. Qed.

Lemma generated_doorAt (x y : Z) (d : Dir) : doorAt g x y d = doorAt gc x y d.
Proof. unfold doorAt. destruct (generated_graph x y) as [_ ->]. reflexivity. Qed.
End GeneratedFacts.

Lemma countRooms_same (g g' : Grid) :
  (forall x y, existsAt g' x y = existsAt g x y) -> countRooms g' = countRooms g.
Proof.
  intros H. unfold countRooms. f_equal. apply filter_length_same.
  intros [x y] _. apply H.
Qed.

Lemma filter_length_le1 {A : Type} (f : A -> bool) (l : list A) (s : A) :
  NoDup l -> (forall a, In a l -> f a = true -> a = s) ->
  (length (filter f l) <= 1)%nat.
Proof.
  intros Hnd. induction Hnd as [|a l Ha Hnd IH]; intros H; simpl; [lia|].
  destruct (f a) eqn:Fa.
  - assert (a = s) by (apply H; [left; reflexivity|assumption]). subst a.
    replace (filter f l) with (@nil A); [simpl; lia|].
    symmetry. clear IH Hnd. induction l as [|b l IHl]; [reflexivity|].
    simpl. destruct (f b) eqn:Fb.
    + exfalso. apply Ha. left. apply H; [right; left; reflexivity|assumption].
    + apply IHl.
      * intros Hin. apply Ha. right. assumption.
      * intros c Hc Hfc. apply H; [|assumption].
        destruct Hc as [Hc|Hc]; [left; assumption|right; right; assumption].
  - apply IH. intros b Hb. apply H. right. assumption.
Qed.

(** With two rooms or more, some room is not the spawn room. *)
Lemma second_room (g : Grid) (sx sy : Z) :
  2 <= countRooms g ->
  exists x y, existsAt g x y = true /\ (x, y) <> (sx, sy).
Proof.
  intros Hc.
  destruct (existsb (fun c => existsAt g (fst c) (snd c) && negb (cell_eqb c (sx, sy)))
                    allCells) eqn:E.
  - apply existsb_exists in E. destruct E as ([x y] & _ & H).
    apply andb_prop in H. destruct H as [H1 H2]. simpl in H1.
    exists x, y. split; [assumption|]. intros Heq. inversion Heq; subst.
    unfold cell_eqb in H2. simpl in H2. rewrite !Z.eqb_refl in H2. discriminate.
  - exfalso.
    assert (Hle : (length (filter (fun c => existsAt g (fst c) (snd c)) allCells) <= 1)%nat).
    { apply filter_length_le1 with (s := (sx, sy)); [apply NoDup_allCells|].
      intros [x y] Hin Hex. simpl in Hex.
      assert (Hn : existsAt g x y && negb (cell_eqb (x, y) (sx, sy)) = false).
      { destruct (existsAt g x y && negb (cell_eqb (x, y) (sx, sy))) eqn:En; [|reflexivity].
        assert (existsb (fun c => existsAt g (fst c) (snd c) && negb (cell_eqb c (sx, sy)))
                        allCells = true).
        { apply existsb_exists. exists (x, y). split; [assumption|exact En]. }
        congruence. }
      rewrite Hex in Hn. simpl in Hn. apply negb_false_iff in Hn.
      unfold cell_eqb in Hn. simpl in Hn. apply eqb_pair_true in Hn.
      destruct Hn; subst. reflexivity. }
    unfold countRooms in Hc. lia.
Qed.

Lemma dist_pos (sx sy x y : Z) : (x, y) <> (sx, sy) -> 0 < dist sx sy x y.
Proof.
  intros H. unfold dist. cbv zeta.
  assert (x - sx <> 0 \/ y - sy <> 0) as [Hx|Hy].
  { destruct (Z.eq_dec x sx) as [->|]; [|left; lia].
    destruct (Z.eq_dec y sy) as [->|]; [|right; lia].
    exfalso. apply H. reflexivity. }
  - pose proof (Z.square_nonneg (y - sy)). nia.
  - pose proof (Z.square_nonneg (x - sx)). nia.
Qed.

Lemma Generated_boss_not_spawn (g : Grid) (target bx by_ : Z) :
  Generated g target bx by_ -> (bx, by_) <> (2, 2).
Proof.
  intros (gc & HC & _ & Hcount & _ & _ & Hmax & _) Heq. inversion Heq; subst.
  destruct (second_room gc 2 2 ltac:(lia)) as (x & y & Hex & Hne).
  destruct (Hmax x y Hex) as [Hle _].
  pose proof (dist_pos 2 2 x y Hne). change (dist 2 2 2 2) with 0 in Hle. lia.
Qed.

(** ** Claims about the generated dungeon *)

(** A generated dungeon is a tree of doors rooted at the spawn cell. *)
Lemma Generated_tree (g : Grid) (target bx by_ : Z) :
  Generated g target bx by_ ->
  doorsClosed g
  /\ existsAt g 2 2 = true
  /\ (forall x y, existsAt g x y = true -> reach g 2 2 x y)
  /\ (forall a p, ~ simpleCycle g a p)
  /\ 1 <= countRooms g <= target.
Proof.
  intros (gc & HC & Ht & Hcount & Hwf & _ & _ & Hrooms).
  pose proof (generated_existsAt _ bx by_ gc Hrooms) as Hex.
  pose proof (generated_doorAt _ bx by_ gc Hrooms) as Hdoor.
  split; [|split; [|split; [|split]]].
  - intros x y d Hd. rewrite Hdoor in Hd. rewrite !Hex, Hdoor.
    apply (Carved_doorsClosed 2 2 gc HC). assumption.
  - rewrite Hex. apply Carved_start_exists; [reflexivity|assumption].
  - intros x y Hxy. rewrite Hex in Hxy.
    apply reach_mono with (g := gc); [intros; rewrite Hdoor; assumption|].
    apply Carved_connected; assumption.
  - intros a p (Hlen & Hnd & Hch & Hcl).
    apply (Carved_acyclic 2 2 gc HC a p).
    assert (Hadj : forall u v, adj g u v -> adj gc u v).
    { intros u v [d [Hd ->]]. exists d. rewrite Hdoor in Hd. split; [assumption|reflexivity]. }
    repeat split; try assumption.
    + apply chain_weaken with (g := g); [|assumption].
      intros u v _ _. apply Hadj.
    + apply Hadj. assumption.
  - rewrite (countRooms_same gc) by assumption. lia.
Qed.

(** C3. For every dungeon the generator produces (whatever the random
    engine delivers), the rooms that exist and the doors between them form
    a tree rooted at the spawn cell: doors join existing rooms only, every
    existing room is reached from the spawn cell through doors, no three or
    more distinct rooms form a cycle of doors, and the number of existing
    rooms lies between 1 and the drawn target count. *)
Theorem C3_dungeon_is_tree (s : State) :
  let s' := carveDungeon s in
  let g := g_dungeon s' in
  let target := fst (randint 6 9 (g_rng s)) in
  doorsClosed g
  /\ existsAt g (g_startx s') (g_starty s') = true
  /\ (forall x y, existsAt g x y = true -> reach g (g_startx s') (g_starty s') x y)
  /\ (forall a p, ~ simpleCycle g a p)
  /\ 1 <= countRooms g <= target.
Proof.
  cbv zeta.
  destruct (carveDungeon_frame s) as (_ & _ & _ & -> & -> & _).
  destruct (carveDungeon_generated s) as (bx & by_ & Hgen).
  exact (Generated_tree _ _ bx by_ Hgen).
Qed.

(** C5. After generation, for every cell and every direction [d], the
    door bit [doors[d]] of the cell is set exactly when the adjacent cell
    in direction [d] lies in the grid, holds an existing room, and has its
    door bit of index [(d + 2) % 4], the opposite direction, set. *)
Theorem C5_doors_reciprocal (s : State) (x y : Z) (d : Dir) :
  let g := g_dungeon (carveDungeon s) in
  let nx := stepx x d in
  let ny := stepy y d in
  doorAt g x y d = true
  <-> (inb nx ny = true /\ existsAt g nx ny = true
       /\ door_get (r_doors (getRoom g nx ny)) (Z.rem (dir_int d + 2) 4) = true).
Proof.
  cbv zeta.
  destruct (carveDungeon_generated s) as (bx & by_ & gc & HC & _ & _ & _ & _ & _ & Hrooms).
  pose proof (generated_existsAt _ bx by_ gc Hrooms) as Hex.
  pose proof (generated_doorAt _ bx by_ gc Hrooms) as Hdoor.
  pose proof (Carved_doorsClosed 2 2 gc HC) as Hcl.
  rewrite <- dir_int_opposite. fold (doorAt (g_dungeon (carveDungeon s)) (stepx x d) (stepy y d) (opposite d)).
  rewrite !Hdoor, Hex. split.
  - intros Hd. apply Hcl in Hd. tauto.
  - intros (_ & _ & Hd). apply Hcl in Hd. destruct Hd as (_ & _ & _ & Hback).
    destruct (step_opposite x y d) as [Sx Sy].
    rewrite Sx, Sy, opposite_involutive in Hback. assumption.
Qed.

Lemma wf_scenarioGrid : wfGrid scenarioGrid.
Proof. unfold scenarioGrid. simpl. repeat apply wf_modRoom. apply wf_emptyDungeon. Qed.

Ltac grid_cases x y Hi :=
  apply inb_range in Hi; unfold GRID_W, GRID_H in Hi;
  let Hx := fresh "Hx" in
  let Hy := fresh "Hy" in
  assert (Hx : x = 0 \/ x = 1 \/ x = 2 \/ x = 3 \/ x = 4) by lia;
  assert (Hy : y = 0 \/ y = 1 \/ y = 2 \/ y = 3 \/ y = 4) by lia;
  clear Hi;
  destruct Hx as [ -> | [ -> | [ -> | [ -> | -> ] ] ] ];
  destruct Hy as [ -> | [ -> | [ -> | [ -> | -> ] ] ] ].

Lemma scenarioGrid_rooms (x y : Z) :
  existsAt scenarioGrid x y = true <-> In (x, y) scenarioCells.
Proof.
  destruct (inb x y) eqn:Hi.
  - grid_cases x y Hi; vm_compute; split; intros H;
      try reflexivity; try discriminate H; try tauto;
        repeat (destruct H as [H|H]; [discriminate H|]); contradiction.
  - unfold existsAt. rewrite getRoom_out by assumption. simpl. split; [discriminate|].
    intros H. exfalso. unfold scenarioCells in H. simpl in H.
    repeat (destruct H as [H|H]; [inversion H; subst; discriminate Hi|]). contradiction.
Qed.

Lemma scenario_boss_flags (x y : Z) :
  r_boss (getRoom (markBoss scenarioGrid 2 2) x y) = true <-> (x = 2 /\ y = 0).
Proof.
  destruct (inb x y) eqn:Hi.
  - grid_cases x y Hi; vm_compute; split; intros H;
      try (split; reflexivity); try reflexivity; try discriminate H;
        destruct H as [H1 H2]; try discriminate H1; try discriminate H2.
  - rewrite getRoom_out by assumption. simpl. split; [discriminate|].
    intros [-> ->]. discriminate Hi.
Qed.

(** C4. After generation exactly one cell carries the boss flag; it holds
    an existing room whose squared grid distance to the spawn cell is
    maximal among the existing rooms, and every existing room scanned
    before it in row-major order is strictly nearer (first room wins a
    tie).  In the scenario with rooms (2,2), (3,2), (3,1), (2,1), (2,0),
    (1,1), whose squared distances are 0, 1, 2, 1, 4, 2, the scan selects
    (2,0) with distance 4 and flags that cell only. *)
Theorem C4_boss_room (s : State) :
  let s' := carveDungeon s in
  let g := g_dungeon s' in
  let sx := g_startx s' in
  let sy := g_starty s' in
  (exists bx by_,
      (forall x y, r_boss (getRoom g x y) = true <-> (x = bx /\ y = by_))
      /\ inb bx by_ = true
      /\ existsAt g bx by_ = true
      /\ forall x y, existsAt g x y = true ->
           dist sx sy x y <= dist sx sy bx by_
           /\ (scannedBefore x y bx by_ -> dist sx sy x y < dist sx sy bx by_))
  /\ (forall x y, existsAt scenarioGrid x y = true <-> In (x, y) scenarioCells)
  /\ map (fun c => dist 2 2 (fst c) (snd c)) scenarioCells = [0; 1; 2; 1; 4; 2]
  /\ bossScan scenarioGrid 2 2 = (2, 0, 4)
  /\ (forall x y, r_boss (getRoom (markBoss scenarioGrid 2 2) x y) = true
                  <-> (x = 2 /\ y = 0)).
Proof.
  cbv zeta.
  destruct (carveDungeon_frame s) as (_ & _ & _ & -> & -> & _).
  destruct (carveDungeon_generated s)
    as (bx & by_ & gc & HC & _ & _ & _ & Hbe & Hmax & Hrooms).
  pose proof (generated_existsAt _ bx by_ gc Hrooms) as Hex.
  pose proof (generated_boss _ bx by_ gc HC Hrooms) as Hboss.
  split; [|split; [|split; [|split]]].
  - exists bx, by_. split; [|split; [|split]].
    + intros x y. rewrite Hboss. split.
      * intros H. apply eqb_pair_true in H. assumption.
      * intros [-> ->]. rewrite !Z.eqb_refl. reflexivity.
    + apply (existsAt_inb gc). assumption.
    + rewrite Hex. assumption.
    + intros x y Hxy. rewrite Hex in Hxy. apply Hmax. assumption.
  - apply scenarioGrid_rooms.
  - reflexivity.
  - reflexivity.
  - apply scenario_boss_flags.
Qed.

(** The spawn room of the generated dungeon is cleared and empty. *)
Lemma carveDungeon_spawn_room (s : State) :
  r_cleared (getRoom (g_dungeon (carveDungeon s)) 2 2) = true
  /\ r_enemies (getRoom (g_dungeon (carveDungeon s)) 2 2) = [].
Proof.
  destruct (carveDungeon_generated s) as (bx & by_ & Hgen).
  pose proof (Generated_boss_not_spawn _ _ _ _ Hgen) as Hbs.
  destruct Hgen as (gc & HC & _ & _ & _ & _ & _ & Hrooms).
  pose proof (Carved_start_exists 2 2 gc eq_refl HC) as Hstart.
  destruct (Carved_plain 2 2 gc HC 2 2) as (_ & _ & Hen).
  destruct (Hrooms 2 2) as [r Hr]. rewrite Hr. unfold populated.
  destruct ((2 =? bx) && (2 =? by_)) eqn:E.
  - apply eqb_pair_true in E. destruct E; subst. contradiction Hbs. reflexivity.
  - unfold existsAt in Hstart. rewrite Hstart. simpl. split; [reflexivity|exact Hen].
Qed.

(** C9. Right after population the spawn room is cleared and has no
    enemy; every other existing room that is not the boss room has between
    2 and 5 enemies; the boss room exists, is not the spawn room and has
    exactly 6 enemies; and in every existing room the cleared flag equals
    the emptiness of the enemy list. *)
Theorem C9_population (s : State) :
  let s' := carveDungeon s in
  let g := g_dungeon s' in
  let sx := g_startx s' in
  let sy := g_starty s' in
  (r_cleared (getRoom g sx sy) = true /\ r_enemies (getRoom g sx sy) = [])
  /\ (forall x y, existsAt g x y = true -> (x, y) <> (sx, sy) ->
                  r_boss (getRoom g x y) = false ->
                  (2 <= length (r_enemies (getRoom g x y)) <= 5)%nat)
  /\ (exists bx by_,
         existsAt g bx by_ = true
         /\ (bx, by_) <> (sx, sy)
         /\ (forall x y, r_boss (getRoom g x y) = true <-> (x = bx /\ y = by_))
         /\ length (r_enemies (getRoom g bx by_)) = 6%nat)
  /\ (forall x y, existsAt g x y = true ->
                  r_cleared (getRoom g x y)
                  = match r_enemies (getRoom g x y) with [] => true | _ :: _ => false end).
Proof.
  cbv zeta.
  destruct (carveDungeon_frame s) as (_ & _ & _ & -> & -> & _).
  destruct (carveDungeon_generated s) as (bx & by_ & Hgen).
  pose proof (Generated_boss_not_spawn _ _ _ _ Hgen) as Hbs.
  destruct Hgen as (gc & HC & _ & _ & _ & Hbe & _ & Hrooms).
  pose proof (generated_existsAt _ bx by_ gc Hrooms) as Hex.
  pose proof (generated_boss _ bx by_ gc HC Hrooms) as Hboss.
  pose proof (Carved_plain 2 2 gc HC) as Hplain.
  pose proof (Carved_start_exists 2 2 gc eq_refl HC) as Hstart.
  assert (Hother : forall x y, existsAt gc x y = true -> (x, y) <> (2, 2) ->
            exists r, getRoom (g_dungeon (carveDungeon s)) x y
                      = fst (spawnEnemies
                               (if (x =? bx) && (y =? by_)
                                then set_boss (getRoom gc x y) true
                                else getRoom gc x y) r)).
  { intros x y Hxy Hne. destruct (Hrooms x y) as [r Hr]. exists r. rewrite Hr.
    unfold populated. unfold existsAt in Hxy.
    replace (r_exists (if (x =? bx) && (y =? by_)
                       then set_boss (getRoom gc x y) true else getRoom gc x y))
      with true by (destruct ((x =? bx) && (y =? by_)); simpl; congruence).
    destruct ((x =? 2) && (y =? 2)) eqn:E; [|reflexivity].
    apply eqb_pair_true in E. destruct E; subst. contradiction Hne. reflexivity. }
  assert (Hspawn : getRoom (g_dungeon (carveDungeon s)) 2 2
                   = set_cleared (getRoom gc 2 2) true).
  { destruct (Hrooms 2 2) as [r Hr]. rewrite Hr. unfold populated.
    destruct ((2 =? bx) && (2 =? by_)) eqn:E.
    - apply eqb_pair_true in E. destruct E; subst. contradiction Hbs. reflexivity.
    - unfold existsAt in Hstart. rewrite Hstart. reflexivity. }
  split; [|split; [|split]].
  - rewrite Hspawn. simpl. split; [reflexivity|]. apply Hplain.
  - intros x y Hxy Hne Hnb. rewrite Hex in Hxy.
    destruct (Hother x y Hxy Hne) as [r Hr]. rewrite Hr.
    match goal with
    | |- context [spawnEnemies ?R ?r] =>
        destruct (spawnEnemies_spec R r) as (_ & _ & H3 & _ & H5 & _)
    end.
    apply H5. cbv zeta in H3. rewrite <- H3, <- Hr. assumption.
  - exists bx, by_. split; [rewrite Hex; assumption|]. split; [assumption|]. split.
    + intros x y. rewrite Hboss. split.
      * intros H. apply eqb_pair_true in H. assumption.
      * intros [-> ->]. rewrite !Z.eqb_refl. reflexivity.
    + destruct (Hother bx by_ Hbe Hbs) as [r Hr]. rewrite Hr.
      match goal with
      | |- context [spawnEnemies ?R ?r] =>
          destruct (spawnEnemies_spec R r) as (_ & _ & _ & H4 & _)
      end.
      apply H4. rewrite !Z.eqb_refl. reflexivity.
  - intros x y Hxy. rewrite Hex in Hxy.
    destruct (Z.eq_dec x 2) as [->|Hx]; [destruct (Z.eq_dec y 2) as [->|Hy]|].
    + rewrite Hspawn. simpl. destruct (Hplain 2 2) as (_ & _ & ->). reflexivity.
    + destruct (Hother 2 y Hxy ltac:(congruence)) as [r Hr]. rewrite Hr.
      match goal with
      | |- context [spawnEnemies ?R ?r] =>
          destruct (spawnEnemies_spec R r) as (_ & _ & _ & H4 & H5 & H6)
      end.
      cbv zeta in H6. rewrite H6.
      destruct (r_enemies _) eqn:En; [|reflexivity].
      exfalso. destruct (r_boss (if (2 =? bx) && (y =? by_)
                                 then set_boss (getRoom gc 2 y) true else getRoom gc 2 y));
        [specialize (H4 eq_refl); simpl length in H4|specialize (H5 eq_refl); simpl length in H5]; lia.
    + destruct (Hother x y Hxy ltac:(congruence)) as [r Hr]. rewrite Hr.
      match goal with
      | |- context [spawnEnemies ?R ?r] =>
          destruct (spawnEnemies_spec R r) as (_ & _ & _ & H4 & H5 & H6)
      end.
      cbv zeta in H6. rewrite H6.
      destruct (r_enemies _) eqn:En; [|reflexivity].
      exfalso. destruct (r_boss (if (x =? bx) && (y =? by_)
                                 then set_boss (getRoom gc x y) true else getRoom gc x y));
        [specialize (H4 eq_refl); simpl length in H4|specialize (H5 eq_refl); simpl length in H5]; lia.
Qed.

(** ** Contact damage *)

Lemma coolChain_positive (k : nat) :
  (1 <= k <= 7)%nat -> (coolChain k <=? F32.zero)%f32 = false.
Proof.
  intros H.
  assert (k = 1 \/ k = 2 \/ k = 3 \/ k = 4 \/ k = 5 \/ k = 6 \/ k = 7)%nat
    as [ -> | [ -> | [ -> | [ -> | [ -> | [ -> | -> ] ] ] ] ] ] by lia;
    vm_compute; reflexivity.
Qed.

Lemma coolChain_S (k : nat) : coolChain (S k) = coolDown DT (coolChain k).
Proof. reflexivity. Qed.

Lemma coolChain_table :
  forallb (fun k => F32.ltb (coolChain (S k)) (coolChain k)
                    && F32.ltb F32.zero (coolChain k)) (seq 0 109) = true.
Proof. vm_compute. reflexivity. Qed.

(** The countdown is strict: each step lowers the timer, which stays
    positive for 108 steps and is 0 after the 109th. *)
Lemma coolChain_decreasing (k : nat) :
  (k < 109)%nat ->
  (coolChain (S k) <? coolChain k)%f32 = true /\ (F32.zero <? coolChain k)%f32 = true.
Proof.
  intros H. pose proof coolChain_table as T. rewrite forallb_forall in T.
  apply andb_true_iff. apply (T k). apply in_seq. lia.
Qed.

Lemma coolChain_end : coolChain 109 = F32.zero.
Proof. vm_compute. reflexivity. Qed.

Lemma coolChain_run_out (k : nat) :
  (k <= 109)%nat -> (coolChain k <=? F32.zero)%f32 = true -> k = 109%nat.
Proof.
  intros Hk H. destruct (Nat.eq_dec k 109) as [E|E]; [exact E|].
  destruct (coolChain_decreasing k) as [_ P]; [lia|].
  rewrite (ltb_leb_false _ _ P) in H. discriminate.
Qed.

(** [norm], written out. *)
Lemma norm_explicit (a : Vec) :
  norm a
  = if (F32.sqrt (vx a * vx a + vy a * vy a) >? F32.zero)%f32
    then mkVec (vx a * (F32.of_Z 1 / F32.sqrt (vx a * vx a + vy a * vy a)))%f32
               (vy a * (F32.of_Z 1 / F32.sqrt (vx a * vx a + vy a * vy a)))%f32
    else mkVec F32.zero F32.zero.
Proof. reflexivity. Qed.

(** A component of [a], scaled by [1 / len a] with a positive length and
    then by factors whose sign bit is off, keeps its sign bit. *)
Lemma unit_sign (a : Vec) (x k : float) :
  F32.sign_bit k = false ->
  (F32.sqrt (vx a * vx a + vy a * vy a) >? F32.zero)%f32 = true ->
  signOf x (x * (F32.of_Z 1 / F32.sqrt (vx a * vx a + vy a * vy a)) * k)%f32.
Proof.
  intros Hk HL.
  destruct (div_pos_sign (F32.of_Z 1) (F32.sqrt (vx a * vx a + vy a * vy a)%f32))
    as [_ Hc]; [reflexivity|reflexivity|exact HL|].
  intros Hn. destruct (mul_keep_sign _ k Hk Hn) as [-> Hn1].
  apply (mul_keep_sign _ _ Hc Hn1).
Qed.

(** What [hitStep] leaves alone. *)
Lemma hitStep_frame (dt : float) (s : State) (e : Enemy) :
  let s' := hitStep dt s e in
  g_dungeon s' = g_dungeon s /\ g_rx s' = g_rx s /\ g_ry s' = g_ry s
  /\ g_startx s' = g_startx s /\ g_starty s' = g_starty s
  /\ g_allCleared s' = g_allCleared s /\ g_rng s' = g_rng s
  /\ g_running s' = g_running s
  /\ pl_r (g_player s') = pl_r (g_player s)
  /\ pl_speed (g_player s') = pl_speed (g_player s)
  /\ pl_shots (g_player s') = pl_shots (g_player s)
  /\ pl_shotCooldown (g_player s') = pl_shotCooldown (g_player s).
Proof.
  unfold hitStep, takeHit. cbv zeta.
  destruct (touches s e); [|repeat split; reflexivity].
  destruct (hurtCD s <=? F32.zero)%f32; [|repeat split; reflexivity].
  destruct (pl_hp (g_player s) - 1 <=? 0); repeat split; reflexivity.
Qed.

Lemma hitStep_miss (dt : float) (s : State) (e : Enemy) :
  touches s e = false -> hitStep dt s e = s.
Proof. unfold hitStep. intros ->. reflexivity. Qed.

(** An overlapping enemy met while the timer is positive only ticks the
    timer. *)
Lemma hitStep_guarded (dt : float) (s : State) (e : Enemy) :
  touches s e = true -> (hurtCD s <=? F32.zero)%f32 = false ->
  hitStep dt s e = set_hurtCD s (coolDown dt (hurtCD s)).
Proof. unfold hitStep. intros -> ->. reflexivity. Qed.

Lemma hitStep_hit (dt : float) (s : State) (e : Enemy) :
  touches s e = true -> (hurtCD s <=? F32.zero)%f32 = true ->
  hitStep dt s e = set_hurtCD (takeHit e s) (coolDown dt HURT_COOLDOWN).
Proof.
  unfold hitStep. intros -> ->. f_equal.
  unfold takeHit. cbv zeta.
  destruct (pl_hp (g_player s) - 1 <=? 0); reflexivity.
Qed.

Lemma touches_player (s s' : State) (e : Enemy) :
  g_player s' = g_player s -> touches s' e = touches s e.
Proof. unfold touches. intros ->. reflexivity. Qed.

(** After a hit: the following enemies cannot hit again; each that
    overlaps ticks the timer once. *)
Lemma hitFold_cooling (es : list Enemy) (s : State) (k : nat) :
  (1 <= k)%nat -> (k + length es <= 7)%nat -> hurtCD s = coolChain k ->
  fold_left (hitStep DT) es s
  = set_hurtCD s (coolChain (k + length (filter (touches s) es))).
Proof.
  revert s k; induction es as [|e es IH]; intros s k Hk Hlen Hcd.
  - simpl. rewrite Nat.add_0_r, <- Hcd. destruct s; reflexivity.
  - cbn [fold_left filter]. simpl length in Hlen. destruct (touches s e) eqn:Ht.
    + rewrite hitStep_guarded by (rewrite ?Hcd; auto using coolChain_positive with arith;
                                   apply coolChain_positive; lia).
      rewrite (IH _ (S k)); [| lia | simpl; lia | rewrite Hcd; reflexivity].
      rewrite (filter_ext (touches (set_hurtCD s (coolDown DT (hurtCD s)))) (touches s))
        by (intros a; apply touches_player; reflexivity).
      simpl length. rewrite <- plus_n_Sm. reflexivity.
    + rewrite hitStep_miss by assumption. apply IH; auto; lia.
Qed.

Lemma set_hurtCD_twice (s : State) (a b : float) :
  set_hurtCD (set_hurtCD s a) b = set_hurtCD s b.
Proof. reflexivity. Qed.

Lemma hitFold_untouched (es : list Enemy) (s : State) :
  (forall a, In a es -> touches s a = false) -> fold_left (hitStep DT) es s = s.
Proof.
  induction es as [|e es IH]; intros H; [reflexivity|].
  cbn [fold_left]. rewrite hitStep_miss by (apply H; left; reflexivity).
  apply IH. intros a Ha. apply H. right. assumption.
Qed.

(** While the timer stays positive through the contacts of the pass, the
    pass only ticks the timer, once per overlapping live enemy. *)
Lemma hitFold_guarded (es : list Enemy) (s : State) :
  (forall j, (j < length (filter (touches s) es))%nat ->
             (Nat.iter j (coolDown DT) (hurtCD s) <=? F32.zero)%f32 = false) ->
  fold_left (hitStep DT) es s
  = set_hurtCD s (Nat.iter (length (filter (touches s) es)) (coolDown DT) (hurtCD s)).
Proof.
  revert s; induction es as [|e es IH]; intros s H.
  - simpl. destruct s; reflexivity.
  - cbn [fold_left filter] in *. destruct (touches s e) eqn:Ht.
    + simpl length in *.
      rewrite hitStep_guarded by (auto; apply (H 0%nat); lia).
      rewrite IH.
      * rewrite set_hurtCD_twice.
        rewrite (filter_ext (touches (set_hurtCD s (coolDown DT (hurtCD s)))) (touches s))
          by (intros a; apply touches_player; reflexivity).
        cbn [hurtCD set_hurtCD]. rewrite <- Nat.iter_succ_r. reflexivity.
      * intros j Hj.
        rewrite (filter_ext (touches (set_hurtCD s (coolDown DT (hurtCD s)))) (touches s)) in Hj
          by (intros a; apply touches_player; reflexivity).
        cbn [hurtCD set_hurtCD]. rewrite <- Nat.iter_succ_r. apply H. lia.
    + rewrite hitStep_miss by assumption. apply IH. assumption.
Qed.

(** The pass when the timer has run out and [e] is the first live enemy
    that overlaps the player. *)
Lemma hitFold_first_hit (pre post : list Enemy) (e : Enemy) (s : State) :
  (forall a, In a pre -> touches s a = false) ->
  touches s e = true ->
  (hurtCD s <=? F32.zero)%f32 = true ->
  (length post <= 6)%nat ->
  fold_left (hitStep DT) (pre ++ e :: post) s
  = set_hurtCD (takeHit e s)
               (coolChain (1 + length (filter (touches (takeHit e s)) post))).
Proof.
  intros Hpre He Hcd Hlen. rewrite fold_left_app. rewrite (hitFold_untouched pre s Hpre).
  cbn [fold_left]. rewrite hitStep_hit by assumption.
  rewrite (hitFold_cooling post _ 1%nat); [| lia | lia | reflexivity].
  rewrite set_hurtCD_twice.
  rewrite (filter_ext (touches (set_hurtCD (takeHit e s) (coolDown DT HURT_COOLDOWN)))
                      (touches (takeHit e s)))
    by (intros a; apply touches_player; reflexivity).
  reflexivity.
Qed.

Lemma coolChain_bounds (k : nat) :
  (1 <= k <= 7)%nat ->
  (F32.lit 84 100 <=? coolChain k)%f32 = true
  /\ (coolChain k <=? HURT_COOLDOWN)%f32 = true.
Proof.
  intros H.
  assert (k = 1 \/ k = 2 \/ k = 3 \/ k = 4 \/ k = 5 \/ k = 6 \/ k = 7)%nat
    as [ -> | [ -> | [ -> | [ -> | [ -> | [ -> | -> ] ] ] ] ] ] by lia;
    vm_compute; split; reflexivity.
Qed.

Lemma coolChain_window (k : nat) :
  (1 <= k <= 7)%nat ->
  (coolChain k <? F32.lit 9 10)%f32 = true /\ (F32.zero <? coolChain k)%f32 = true.
Proof.
  intros H.
  assert (k = 1 \/ k = 2 \/ k = 3 \/ k = 4 \/ k = 5 \/ k = 6 \/ k = 7)%nat
    as [ -> | [ -> | [ -> | [ -> | [ -> | [ -> | -> ] ] ] ] ] ] by lia;
    vm_compute; split; reflexivity.
Qed.

Lemma takeHit_fields (e : Enemy) (s : State) :
  pl_hp (g_player (takeHit e s)) = pl_hp (g_player s) - 1
  /\ pl_p (g_player (takeHit e s))
     = vadd (pl_p (g_player s))
            (vscale (norm (vsub (pl_p (g_player s)) (e_p e))) (F32.of_Z 20))
  /\ g_runOver (takeHit e s) = g_runOver s || (pl_hp (g_player s) - 1 <=? 0).
Proof.
  unfold takeHit. cbv zeta. destruct (pl_hp (g_player s) - 1 <=? 0);
    cbn [g_player g_runOver set_runOver set_hurtCD set_player pl_hp pl_p set_pos set_hp];
    rewrite ?orb_true_r, ?orb_false_r; repeat split; reflexivity.
Qed.

Lemma filter_length_le {A : Type} (f : A -> bool) (l : list A) :
  (length (filter f l) <= length l)%nat.
Proof. induction l as [|a l IH]; simpl; [lia|]. destruct (f a); simpl; lia. Qed.

(** C7. When the timer has run out ([hurtCD <= 0]) at the contact pass
    and at least one live enemy overlaps the player, with [e] the first
    such enemy of the room's list and however many more overlap, the
    player's hp drops by exactly 1; the player is displaced by 20 times
    the unit vector of [p - e.p], that is [p - e.p] scaled by
    [1 / len (p - e.p)] (no displacement when that length is not
    positive), so each component of the impulse has the sign of the
    component of [p - e.p], from the enemy to the player; and the timer is
    set to the 0.9 s cooldown, from which the pass takes one step
    [max(0, c - dt)] for [e] and one for each later enemy that overlaps the
    displaced player, so it ends positive, at least 0.84 and below 0.9.
    A contact made while the timer is positive does no damage, and a pass
    through which the timer stays positive leaves the player untouched. *)
Theorem C7_single_hit (X Y : Z) (s : State) (pre post : list Enemy) (e : Enemy) :
  r_enemies (getRoom (g_dungeon s) X Y) = pre ++ e :: post ->
  (length (pre ++ e :: post) <= MAX_ENEMIES)%nat ->
  (hurtCD s <=? F32.zero)%f32 = true ->
  (forall a, In a pre -> touches s a = false) ->
  touches s e = true ->
  let s' := playerHitCheck X Y DT s in
  let p := g_player s in
  let d := vsub (pl_p p) (e_p e) in
  let L := F32.sqrt (vx d * vx d + vy d * vy d)%f32 in
  let kb := if (L >? F32.zero)%f32
            then mkVec (vx d * (F32.of_Z 1 / L))%f32 (vy d * (F32.of_Z 1 / L))%f32
            else mkVec F32.zero F32.zero in
  let n := length (filter (touches (takeHit e s)) post) in
  pl_hp (g_player s') = pl_hp p - 1
  /\ pl_p (g_player s')
     = mkVec (vx (pl_p p) + vx kb * F32.of_Z 20)%f32 (vy (pl_p p) + vy kb * F32.of_Z 20)%f32
  /\ ((L >? F32.zero)%f32 = true ->
      signOf (vx d) (vx kb * F32.of_Z 20)%f32 /\ signOf (vy d) (vy kb * F32.of_Z 20)%f32)
  /\ hurtCD s' = Nat.iter (1 + n) (fun c => F32.max F32.zero (c - DT)%f32) (F32.lit 9 10)
  /\ (F32.lit 84 100 <=? hurtCD s')%f32 = true
  /\ (hurtCD s' <? F32.lit 9 10)%f32 = true
  /\ (F32.zero <? hurtCD s')%f32 = true
  /\ (forall t a, (hurtCD t <=? F32.zero)%f32 = false ->
                  g_player (hitStep DT t a) = g_player t)
  /\ (forall t es,
         (forall j, (j < length (filter (touches t) es))%nat ->
                    (Nat.iter j (fun c => F32.max F32.zero (c - DT)%f32) (hurtCD t)
                     <=? F32.zero)%f32 = false) ->
         g_player (fold_left (hitStep DT) es t) = g_player t).
Proof.
  intros Hes Hlen Hcd Hpre He. cbv zeta. unfold playerHitCheck. rewrite Hes.
  rewrite length_app in Hlen. simpl length in Hlen. unfold MAX_ENEMIES in Hlen.
  rewrite hitFold_first_hit by (auto; lia).
  destruct (takeHit_fields e s) as (Hhp & Hpos & _).
  pose proof (filter_length_le (touches (takeHit e s)) post) as Hf.
  cbn [g_player set_hurtCD hurtCD].
  split; [assumption|]. split; [rewrite Hpos, norm_explicit; reflexivity|].
  split.
  { intros HL. rewrite HL. cbn [vx vy].
    split; apply unit_sign; try reflexivity; exact HL. }
  split; [reflexivity|].
  destruct (coolChain_bounds (1 + length (filter (touches (takeHit e s)) post)))
    as [Hlo Hhi]; [lia|].
  split; [assumption|].
  destruct (coolChain_window (1 + length (filter (touches (takeHit e s)) post)))
    as [Hlt Hp]; [lia|].
  split; [assumption|]. split; [assumption|]. split.
  - intros t a Ht. unfold hitStep. destruct (touches t a); [|reflexivity].
    rewrite Ht. reflexivity.
  - intros t es Hj. rewrite hitFold_guarded by exact Hj. reflexivity.
Qed.

Lemma C7_single_hit_witness :
  let s := crowdState in
  let e := chaser 310 270 2 in
  let post := [chaser 300 280 2] in
  let s' := playerHitCheck 3 2 DT s in
  let p := g_player s in
  let d := vsub (pl_p p) (e_p e) in
  let L := F32.sqrt (vx d * vx d + vy d * vy d)%f32 in
  let kb := if (L >? F32.zero)%f32
            then mkVec (vx d * (F32.of_Z 1 / L))%f32 (vy d * (F32.of_Z 1 / L))%f32
            else mkVec F32.zero F32.zero in
  let n := length (filter (touches (takeHit e s)) post) in
  (pl_hp (g_player s') = pl_hp p - 1
   /\ pl_p (g_player s')
      = mkVec (vx (pl_p p) + vx kb * F32.of_Z 20)%f32 (vy (pl_p p) + vy kb * F32.of_Z 20)%f32
   /\ ((L >? F32.zero)%f32 = true ->
       signOf (vx d) (vx kb * F32.of_Z 20)%f32 /\ signOf (vy d) (vy kb * F32.of_Z 20)%f32)
   /\ hurtCD s' = Nat.iter (1 + n) (fun c => F32.max F32.zero (c - DT)%f32) (F32.lit 9 10)
   /\ (F32.lit 84 100 <=? hurtCD s')%f32 = true
   /\ (hurtCD s' <? F32.lit 9 10)%f32 = true
   /\ (F32.zero <? hurtCD s')%f32 = true
   /\ (forall t a, (hurtCD t <=? F32.zero)%f32 = false ->
                   g_player (hitStep DT t a) = g_player t)
   /\ (forall t es,
          (forall j, (j < length (filter (touches t) es))%nat ->
                     (Nat.iter j (fun c => F32.max F32.zero (c - DT)%f32) (hurtCD t)
                      <=? F32.zero)%f32 = false) ->
          g_player (fold_left (hitStep DT) es t) = g_player t))
  /\ pl_hp (g_player s') = 2
  /\ pl_p p = vecZ 300 270 /\ e_p e = vecZ 310 270
  /\ L = F32.of_Z 10 /\ kb = vecZ (-1) 0
  /\ pl_p (g_player s') = vecZ 280 270
  /\ n = 1%nat.
Proof.
  split.
  - apply (C7_single_hit 3 2 crowdState [chaser 600 100 2] [chaser 300 280 2]
                         (chaser 310 270 2)).
    + reflexivity.
    + unfold MAX_ENEMIES. simpl. lia.
    + reflexivity.
    + intros a [<-|[]]. vm_compute. reflexivity.
    + vm_compute. reflexivity.
  - vm_compute. repeat split; reflexivity.
Defined.

(** The timer being positive when the pass begins does not protect the
    player through the pass: in [lateState] the timer is positive, two
    live enemies overlap the player, the first takes the timer to 0 and
    the second takes 1 hp, in the contact pass and so in the fixed update. *)
Lemma C7_counterexample :
  (F32.zero <? hurtCD lateState)%f32 = true
  /\ filter (touches lateState) (r_enemies (getRoom (g_dungeon lateState) 3 2))
     = [chaser 310 270 2; chaser 300 280 2]
  /\ pl_hp (g_player lateState) = 3
  /\ pl_hp (g_player (playerHitCheck 3 2 DT lateState)) = 2
  /\ (g_rx lateState, g_ry lateState) = (3, 2)
  /\ pl_hp (g_player (tick noKeys lateState)) = 2.
Proof. vm_compute. repeat split; reflexivity. Qed.

(** ** What each phase of a fixed update leaves alone *)

Ltac split_ifs :=
  repeat match goal with
         | |- context [if ?b then _ else _] => destruct b
         end.

Lemma tickInput_frame (k : Keys) (s : State) :
  let s' := tickInput k s in
  g_dungeon s' = g_dungeon s /\ g_rx s' = g_rx s /\ g_ry s' = g_ry s
  /\ g_startx s' = g_startx s /\ g_starty s' = g_starty s
  /\ g_runOver s' = g_runOver s /\ g_allCleared s' = g_allCleared s
  /\ g_rng s' = g_rng s /\ hurtCD s' = hurtCD s /\ g_running s' = g_running s
  /\ pl_hp (g_player s') = pl_hp (g_player s)
  /\ pl_r (g_player s') = pl_r (g_player s).
Proof.
  unfold tickInput, tickShotCooldown, playerShootInput, playerShoot, playerUpdateMove.
  cbv zeta. split_ifs; repeat split; reflexivity.
Qed.

Lemma updateEnemies_frame (X Y : Z) (dt : float) (s : State) :
  let s' := updateEnemies X Y dt s in
  g_player s' = g_player s /\ g_rx s' = g_rx s /\ g_ry s' = g_ry s
  /\ g_startx s' = g_startx s /\ g_starty s' = g_starty s
  /\ g_runOver s' = g_runOver s /\ g_allCleared s' = g_allCleared s
  /\ g_rng s' = g_rng s /\ hurtCD s' = hurtCD s /\ g_running s' = g_running s.
Proof. unfold updateEnemies. cbv zeta. repeat split; reflexivity. Qed.

Lemma updateBullets_frame (X Y : Z) (dt : float) (s : State) :
  let s' := updateBullets X Y dt s in
  g_rx s' = g_rx s /\ g_ry s' = g_ry s
  /\ g_startx s' = g_startx s /\ g_starty s' = g_starty s
  /\ g_runOver s' = g_runOver s /\ g_allCleared s' = g_allCleared s
  /\ g_rng s' = g_rng s /\ hurtCD s' = hurtCD s /\ g_running s' = g_running s
  /\ pl_hp (g_player s') = pl_hp (g_player s)
  /\ pl_p (g_player s') = pl_p (g_player s)
  /\ pl_r (g_player s') = pl_r (g_player s).
Proof.
  unfold updateBullets. cbv zeta.
  destruct (bulletsLoop dt _ _) as [bs es]. repeat split; reflexivity.
Qed.

Lemma tickEntities_frame (k : Keys) (s : State) :
  let s' := tickEntities k s in
  g_rx s' = g_rx s /\ g_ry s' = g_ry s
  /\ g_startx s' = g_startx s /\ g_starty s' = g_starty s
  /\ g_runOver s' = g_runOver s /\ g_allCleared s' = g_allCleared s
  /\ g_rng s' = g_rng s /\ hurtCD s' = hurtCD s /\ g_running s' = g_running s
  /\ pl_hp (g_player s') = pl_hp (g_player s).
Proof.
  unfold tickEntities. cbv zeta.
  destruct (tickInput_frame k s) as (A1 & A2 & A3 & A4 & A5 & A6 & A7 & A8 & A9 & A10 & A11 & _).
  destruct (updateEnemies_frame (g_rx s) (g_ry s) DT (tickInput k s))
    as (B1 & B2 & B3 & B4 & B5 & B6 & B7 & B8 & B9 & B10).
  destruct (updateBullets_frame (g_rx s) (g_ry s) DT
              (updateEnemies (g_rx s) (g_ry s) DT (tickInput k s)))
    as (C1 & C2 & C3 & C4 & C5 & C6 & C7 & C8 & C9 & C10 & _).
  cbv zeta in *.
  repeat split; congruence.
Qed.

Lemma hitFold_frame (es : list Enemy) (dt : float) (s : State) :
  let s' := fold_left (hitStep dt) es s in
  g_dungeon s' = g_dungeon s /\ g_rx s' = g_rx s /\ g_ry s' = g_ry s
  /\ g_startx s' = g_startx s /\ g_starty s' = g_starty s
  /\ g_allCleared s' = g_allCleared s /\ g_rng s' = g_rng s
  /\ g_running s' = g_running s.
Proof.
  revert s; induction es as [|e es IH]; intros s; cbn [fold_left].
  - cbv zeta. repeat split; reflexivity.
  - destruct (hitStep_frame dt s e) as (A1 & A2 & A3 & A4 & A5 & A6 & A7 & A8 & _).
    destruct (IH (hitStep dt s e)) as (B1 & B2 & B3 & B4 & B5 & B6 & B7 & B8).
    cbv zeta in *. repeat split; congruence.
Qed.

Lemma playerHitCheck_frame (X Y : Z) (dt : float) (s : State) :
  let s' := playerHitCheck X Y dt s in
  g_dungeon s' = g_dungeon s /\ g_rx s' = g_rx s /\ g_ry s' = g_ry s
  /\ g_startx s' = g_startx s /\ g_starty s' = g_starty s
  /\ g_allCleared s' = g_allCleared s /\ g_rng s' = g_rng s
  /\ g_running s' = g_running s.
Proof. unfold playerHitCheck. apply hitFold_frame. Qed.

Lemma tryGo_frame (R : Room) (d : Dir) (nx ny : Z) (v : Vec) (s s' : State) :
  tryGo R d nx ny v s = Some s' ->
  s' = set_player (set_cursor s nx ny) (set_pos (g_player s) v).
Proof.
  unfold tryGo. destruct (negb _); [discriminate|].
  destruct (circleRectOverlap _ _ _); [|discriminate]. intros H. inversion H. reflexivity.
Qed.

(** The door phase either leaves the state alone or moves the cursor to a
    neighbouring cell of the grid and places the player. *)
Lemma handleDoors_cases (X Y : Z) (s : State) :
  handleDoorsAndTransitions X Y s = s
  \/ (r_cleared (getRoom (g_dungeon s) X Y) = true
      /\ exists nx ny v,
           handleDoorsAndTransitions X Y s
           = set_player (set_cursor s nx ny) (set_pos (g_player s) v)
           /\ existsAt (g_dungeon s) nx ny = true).
Proof.
  unfold handleDoorsAndTransitions. cbv zeta.
  destruct (r_cleared (getRoom (g_dungeon s) X Y)); [|left; reflexivity].
  simpl negb. cbv iota.
  repeat match goal with
         | |- context [if ?b then tryGo ?R ?d ?nx ?ny ?v ?s else None] =>
             let E := fresh "E" in
             let T := fresh "T" in
             destruct b eqn:E;
               [destruct (tryGo R d nx ny v s) as [?s'|] eqn:T;
                [apply tryGo_frame in T; subst; right; split; [reflexivity|];
                 exists nx, ny, v; split; [reflexivity|];
                 apply andb_prop in E; destruct E as [_ E]; exact E
                |]
               |]
         end; left; reflexivity.
Qed.

Lemma checkAllCleared_frame (s : State) :
  let s' := checkAllCleared s in
  g_player s' = g_player s /\ g_dungeon s' = g_dungeon s
  /\ g_rx s' = g_rx s /\ g_ry s' = g_ry s
  /\ g_startx s' = g_startx s /\ g_starty s' = g_starty s
  /\ g_rng s' = g_rng s /\ hurtCD s' = hurtCD s /\ g_running s' = g_running s.
Proof.
  unfold checkAllCleared. cbv zeta.
  destruct (fold_left _ _ _) as [any allclear].
  destruct (g_allCleared _ && negb _); repeat split; reflexivity.
Qed.

Lemma hpCheck_frame (s : State) :
  let s' := hpCheck s in
  g_player s' = g_player s /\ g_dungeon s' = g_dungeon s
  /\ g_rx s' = g_rx s /\ g_ry s' = g_ry s
  /\ g_startx s' = g_startx s /\ g_starty s' = g_starty s
  /\ g_allCleared s' = g_allCleared s
  /\ g_rng s' = g_rng s /\ hurtCD s' = hurtCD s /\ g_running s' = g_running s
  /\ g_runOver s' = g_runOver s || (pl_hp (g_player s) <=? 0).
Proof.
  unfold hpCheck. cbv zeta. destruct (pl_hp (g_player s) <=? 0);
    rewrite ?orb_true_r, ?orb_false_r; repeat split; reflexivity.
Qed.

(** ** The fixed update as a whole *)

Lemma handleDoors_keeps (X Y : Z) (s : State) :
  let s' := handleDoorsAndTransitions X Y s in
  g_dungeon s' = g_dungeon s /\ g_runOver s' = g_runOver s
  /\ g_allCleared s' = g_allCleared s /\ g_rng s' = g_rng s
  /\ hurtCD s' = hurtCD s /\ g_running s' = g_running s
  /\ g_startx s' = g_startx s /\ g_starty s' = g_starty s
  /\ pl_hp (g_player s') = pl_hp (g_player s).
Proof.
  cbv zeta. destruct (handleDoors_cases X Y s) as [->|(_ & nx & ny & v & -> & _)];
    repeat split; reflexivity.
Qed.

(** The state the door phase of a fixed update works on. *)
Lemma tick_unfold (k : Keys) (s : State) :
  g_runOver s = false ->
  tick k s
  = hpCheck (checkAllCleared (handleDoorsAndTransitions (g_rx s) (g_ry s)
      (playerHitCheck (g_rx s) (g_ry s) DT (tickEntities k s)))).
Proof. unfold tick. intros ->. reflexivity. Qed.

Lemma tick_keeps (k : Keys) (s : State) :
  g_runOver s = false ->
  let s6 := playerHitCheck (g_rx s) (g_ry s) DT (tickEntities k s) in
  let s7 := handleDoorsAndTransitions (g_rx s) (g_ry s) s6 in
  g_player (tick k s) = g_player s7
  /\ g_rx (tick k s) = g_rx s7 /\ g_ry (tick k s) = g_ry s7
  /\ g_dungeon (tick k s) = g_dungeon (tickEntities k s)
  /\ hurtCD (tick k s) = hurtCD s6
  /\ pl_hp (g_player (tick k s)) = pl_hp (g_player s6).
Proof.
  intros Hr. cbv zeta. rewrite tick_unfold by assumption.
  set (s5 := tickEntities k s).
  set (s6 := playerHitCheck (g_rx s) (g_ry s) DT s5).
  set (s7 := handleDoorsAndTransitions (g_rx s) (g_ry s) s6).
  destruct (hpCheck_frame (checkAllCleared s7)) as (A1 & A2 & A3 & A4 & _ & _ & _ & _ & A9 & _).
  destruct (checkAllCleared_frame s7) as (B1 & B2 & B3 & B4 & _ & _ & _ & B8 & _).
  destruct (handleDoors_keeps (g_rx s) (g_ry s) s6) as (C1 & _ & _ & _ & C5 & _ & _ & _ & C9).
  destruct (playerHitCheck_frame (g_rx s) (g_ry s) DT s5) as (D1 & _).
  cbv zeta in *. fold s6 in C1, C5, C9, D1. fold s7 in C1, C5, C9.
  repeat split; congruence.
Qed.

(** C8. The door phase does nothing at all, whatever the player's
    position and whichever doors the room has, while the room's cleared
    flag is false: the cursor, the player and every other part of the state
    are returned unchanged, and the phase has no failure outcome.  Within a
    fixed update this means that cursor and player position come out of
    the update as contact damage left them. *)
Theorem C8_locked_doors :
  (forall X Y s,
      r_cleared (getRoom (g_dungeon s) X Y) = false ->
      handleDoorsAndTransitions X Y s = s)
  /\ (forall k s,
         g_runOver s = false ->
         let s6 := playerHitCheck (g_rx s) (g_ry s) DT (tickEntities k s) in
         r_cleared (getRoom (g_dungeon s6) (g_rx s) (g_ry s)) = false ->
         g_rx (tick k s) = g_rx s /\ g_ry (tick k s) = g_ry s
         /\ pl_p (g_player (tick k s)) = pl_p (g_player s6)).
Proof.
  split.
  - intros X Y s H. unfold handleDoorsAndTransitions. cbv zeta. rewrite H. reflexivity.
  - intros k s Hr s6 Hc.
    destruct (tick_keeps k s Hr) as (A1 & A2 & A3 & _). cbv zeta in *. fold s6 in A1, A2, A3.
    assert (Hd : handleDoorsAndTransitions (g_rx s) (g_ry s) s6 = s6).
    { unfold handleDoorsAndTransitions. cbv zeta. rewrite Hc. reflexivity. }
    rewrite Hd in A1, A2, A3.
    destruct (playerHitCheck_frame (g_rx s) (g_ry s) DT (tickEntities k s)) as (_ & B2 & B3 & _).
    destruct (tickEntities_frame k s) as (C1 & C2 & _).
    cbv zeta in *. fold s6 in B2, B3.
    repeat split; congruence.
Qed.

Lemma resetRun_hurtCD (s : State) : hurtCD (resetRun s) = hurtCD s.
Proof.
  destruct (carveDungeon_frame s) as (_ & _ & _ & _ & _ & _ & _ & H & _).
  unfold resetRun. cbv zeta. destruct (carveDungeon s). exact H.
Qed.

(** One step of the contact loop moves a timer of the chain one place
    down it, or from its end back to the second place. *)
Lemma hitStep_chain (s : State) (e : Enemy) (k : nat) :
  (k <= 109)%nat -> hurtCD s = coolChain k -> touches s e = true ->
  hurtCD (hitStep DT s e) = coolChain (if (k =? 109)%nat then 1 else S k).
Proof.
  intros Hk Hc Ht. destruct (Nat.eqb_spec k 109) as [->|Hne].
  - rewrite hitStep_hit; [reflexivity|exact Ht|].
    rewrite Hc, coolChain_end. reflexivity.
  - rewrite hitStep_guarded; [cbn [hurtCD set_hurtCD]; rewrite Hc; reflexivity|exact Ht|].
    rewrite Hc. destruct (coolChain_decreasing k) as [_ P]; [lia|].
    apply ltb_leb_false. exact P.
Qed.

Lemma hitStep_onChain (s : State) (e : Enemy) :
  onChain (hurtCD s) -> onChain (hurtCD (hitStep DT s e)).
Proof.
  intros (k & Hk & Hc). destruct (touches s e) eqn:Ht.
  - rewrite (hitStep_chain s e k Hk Hc Ht).
    destruct (Nat.eqb_spec k 109); [exists 1%nat|exists (S k)]; split; try reflexivity; lia.
  - rewrite hitStep_miss by exact Ht. exists k. split; assumption.
Qed.

Lemma hitFold_onChain (es : list Enemy) (s : State) :
  onChain (hurtCD s) -> onChain (hurtCD (fold_left (hitStep DT) es s)).
Proof.
  revert s. induction es as [|e es IH]; intros s H; [exact H|].
  cbn [fold_left]. apply IH, hitStep_onChain, H.
Qed.

Lemma tick_onChain (k : Keys) (s : State) :
  onChain (hurtCD s) -> onChain (hurtCD (tick k s)).
Proof.
  intros H. destruct (g_runOver s) eqn:Hr.
  - unfold tick. rewrite Hr. exact H.
  - destruct (tick_keeps k s Hr) as (_ & _ & _ & _ & A5 & _). cbv zeta in A5.
    rewrite A5. unfold playerHitCheck. apply hitFold_onChain.
    destruct (tickEntities_frame k s) as (_ & _ & _ & _ & _ & _ & _ & B8 & _).
    cbv zeta in B8. rewrite B8. exact H.
Qed.

Lemma Reachable_onChain (s : State) : Reachable s -> onChain (hurtCD s).
Proof.
  induction 1 as [rng|k s H IH|k s H IH|s H IH].
  - unfold initState. rewrite resetRun_hurtCD. exists 109%nat.
    split; [lia|]. rewrite coolChain_end. reflexivity.
  - unfold restartInput. destruct (g_runOver s && kR k); [|exact IH].
    rewrite resetRun_hurtCD. exact IH.
  - apply tick_onChain. exact IH.
  - exact IH.
Qed.

(** C10. The timer [hurtCD] changes only in the contact pass, and there
    only at an enemy that is alive and overlaps the player: such an enemy
    sets it to the 0.9 s cooldown first if it had run out, then takes one
    step [max(0, hurtCD - dt)] off it; any other enemy leaves it alone.
    The step is a real countdown: the timer of a reachable state is one
    of the 110 values of the chain [0.9 = c 0 > c 1 > ... > c 108 > c 109
    = 0], and each overlapping live enemy moves it one place down the
    chain, strictly lowering it (from [c 109 = 0] it goes to [c 1]: the
    reset and one step).  So a pass in which the timer stays positive ends
    with it stepped once per overlapping live enemy, a fixed update in
    which no live enemy overlaps the player returns the timer unchanged,
    and neither [resetRun] nor the restart test touches it. *)
Theorem C10_timer_frame :
  (forall dt s e,
      hurtCD (hitStep dt s e)
      = if touches s e
        then F32.max F32.zero
               ((if (hurtCD s <=? F32.zero)%f32 then F32.lit 9 10 else hurtCD s) - dt)%f32
        else hurtCD s)
  /\ (forall X Y s,
         let es := r_enemies (getRoom (g_dungeon s) X Y) in
         let n := length (filter (touches s) es) in
         (forall j, (j < n)%nat ->
                    (Nat.iter j (fun c => F32.max F32.zero (c - DT)%f32) (hurtCD s)
                     <=? F32.zero)%f32 = false) ->
         hurtCD (playerHitCheck X Y DT s)
         = Nat.iter n (fun c => F32.max F32.zero (c - DT)%f32) (hurtCD s))
  /\ (coolChain 0 = F32.lit 9 10 /\ coolChain 109 = F32.zero
      /\ forall k, (k < 109)%nat ->
                   coolChain (S k) = F32.max F32.zero (coolChain k - DT)%f32
                   /\ (coolChain (S k) <? coolChain k)%f32 = true
                   /\ (F32.zero <? coolChain k)%f32 = true)
  /\ (forall s, Reachable s -> exists k, (k <= 109)%nat /\ hurtCD s = coolChain k)
  /\ (forall s e k,
         (k <= 109)%nat -> hurtCD s = coolChain k -> touches s e = true ->
         hurtCD (hitStep DT s e) = coolChain (if (k =? 109)%nat then 1 else S k)
         /\ ((k < 109)%nat -> (hurtCD (hitStep DT s e) <? hurtCD s)%f32 = true))
  /\ (forall k s,
         let s5 := tickEntities k s in
         (forall e, In e (r_enemies (getRoom (g_dungeon s5) (g_rx s) (g_ry s))) ->
                    touches s5 e = false) ->
         hurtCD (tick k s) = hurtCD s)
  /\ (forall k s, hurtCD (tickEntities k s) = hurtCD s)
  /\ (forall X Y s, hurtCD (handleDoorsAndTransitions X Y s) = hurtCD s)
  /\ (forall s, hurtCD (hpCheck (checkAllCleared s)) = hurtCD s)
  /\ (forall s, hurtCD (resetRun s) = hurtCD s)
  /\ (forall k s, hurtCD (restartInput k s) = hurtCD s).
Proof.
  split; [|split; [|split; [|split; [|split; [|split; [|split; [|split; [|split; [|split]]]]]]]]].
  - intros dt s e. unfold hitStep. destruct (touches s e); [|reflexivity].
    destruct (hurtCD s <=? F32.zero)%f32; [|reflexivity].
    cbn [hurtCD set_hurtCD]. unfold takeHit. cbv zeta.
    destruct (pl_hp (g_player s) - 1 <=? 0); reflexivity.
  - intros X Y s es n H. unfold playerHitCheck. fold es.
    rewrite hitFold_guarded by exact H. reflexivity.
  - split; [reflexivity|]. split; [exact coolChain_end|].
    intros k Hk. split; [reflexivity|]. apply coolChain_decreasing. exact Hk.
  - intros s H. exact (Reachable_onChain s H).
  - intros s e k Hk Hc Ht. split; [exact (hitStep_chain s e k Hk Hc Ht)|].
    intros Hlt. rewrite (hitStep_chain s e k Hk Hc Ht), Hc.
    destruct (Nat.eqb_spec k 109); [lia|].
    apply coolChain_decreasing. exact Hlt.
  - intros k s s5 H. unfold tick. destruct (g_runOver s) eqn:Hr; [reflexivity|].
    destruct (tick_keeps k s Hr) as (_ & _ & _ & _ & A5 & _). cbv zeta in A5.
    unfold tick in A5. rewrite Hr in A5. rewrite A5.
    unfold playerHitCheck. fold s5.
    destruct (tickEntities_frame k s) as (_ & _ & _ & _ & _ & _ & _ & B8 & _).
    cbv zeta in B8. fold s5 in B8.
    rewrite hitFold_untouched; [exact B8|].
    exact H.
  - intros k s. apply (tickEntities_frame k s).
  - intros X Y s. apply (handleDoors_keeps X Y s).
  - intros s. destruct (hpCheck_frame (checkAllCleared s)) as (_ & _ & _ & _ & _ & _ & _ & _ & A & _).
    destruct (checkAllCleared_frame s) as (_ & _ & _ & _ & _ & _ & _ & B & _).
    cbv zeta in *. congruence.
  - apply resetRun_hurtCD.
  - intros k s. unfold restartInput. destruct (g_runOver s && kR k); [|reflexivity].
    apply resetRun_hurtCD.
Qed.

(** ** Invariant of the reachable states *)

Lemma hitFold_hp (es : list Enemy) (s : State) :
  (length es <= MAX_ENEMIES)%nat ->
  let s' := fold_left (hitStep DT) es s in
  (g_player s' = g_player s /\ g_runOver s' = g_runOver s)
  \/ (pl_hp (g_player s') = pl_hp (g_player s) - 1
      /\ g_runOver s' = g_runOver s || (pl_hp (g_player s) - 1 <=? 0)).
Proof.
  unfold MAX_ENEMIES. revert s; induction es as [|e es IH]; intros s Hlen; cbn [fold_left].
  - left. split; reflexivity.
  - simpl length in Hlen. destruct (touches s e) eqn:Ht.
    + destruct (hurtCD s <=? F32.zero)%f32 eqn:Hcd.
      * right. rewrite hitStep_hit by assumption.
        rewrite (hitFold_cooling es _ 1%nat); [| lia | lia | reflexivity].
        cbn [g_player g_runOver set_hurtCD].
        destruct (takeHit_fields e s) as (H1 & _ & H3). split; assumption.
      * rewrite hitStep_guarded by assumption.
        destruct (IH (set_hurtCD s (coolDown DT (hurtCD s))) ltac:(lia)) as [H|H];
          [left|right]; exact H.
    + rewrite hitStep_miss by assumption. apply IH. lia.
Qed.

Lemma bulletHit_length (b : Bullet) (es : list Enemy) :
  length (snd (bulletHit b es)) = length es.
Proof.
  induction es as [|e es IH]; [reflexivity|]. cbn [bulletHit].
  destruct (e_dead e).
  - destruct (bulletHit b es) as [h r]. simpl in *. congruence.
  - destruct (circlesTouch _ _ _ _); [reflexivity|].
    destruct (bulletHit b es) as [h r]. simpl in *. congruence.
Qed.

Lemma bulletStep_length (dt : float) (b : Bullet) (es : list Enemy) :
  length (snd (bulletStep dt b es)) = length es.
Proof.
  unfold bulletStep. destruct (b_dead b); [reflexivity|]. cbv zeta.
  match goal with
  | |- context [bulletHit ?b1 es] =>
      pose proof (bulletHit_length b1 es) as Hh; destruct (bulletHit b1 es) as [h es1]
  end.
  exact Hh.
Qed.

Lemma bulletsLoop_length (dt : float) (bs : list Bullet) (es : list Enemy) :
  length (snd (bulletsLoop dt bs es)) = length es.
Proof.
  revert es; induction bs as [|b bs IH]; intros es; [reflexivity|].
  cbn [bulletsLoop].
  pose proof (bulletStep_length dt b es) as Hs.
  destruct (bulletStep dt b es) as [b' es1]. simpl snd in Hs.
  specialize (IH es1). destruct (bulletsLoop dt bs es1) as [r es2]. simpl snd in *.
  congruence.
Qed.

Lemma cull_length (pp : Vec) (dt : float) (es : list Enemy) :
  (length (cullDead (map (enemyMove pp dt) es)) <= length es)%nat.
Proof.
  unfold cullDead. rewrite <- (length_map (enemyMove pp dt) es). apply filter_length_le.
Qed.

Lemma updateEnemiesRoom_enemies (pp : Vec) (dt : float) (R : Room) :
  r_enemies (updateEnemiesRoom pp dt R) = cullDead (map (enemyMove pp dt) (r_enemies R)).
Proof.
  unfold updateEnemiesRoom. cbv zeta.
  destruct (cullDead (map (enemyMove pp dt) (r_enemies R))); reflexivity.
Qed.

(** The entity phases keep the grid well formed and no room gains an
    enemy. *)
Lemma tickEntities_dungeon (k : Keys) (s : State) :
  wfGrid (g_dungeon s) ->
  (forall x y, (length (r_enemies (getRoom (g_dungeon s) x y)) <= MAX_ENEMIES)%nat) ->
  wfGrid (g_dungeon (tickEntities k s))
  /\ forall x y,
       (length (r_enemies (getRoom (g_dungeon (tickEntities k s)) x y)) <= MAX_ENEMIES)%nat.
Proof.
  intros Hwf Hen. unfold tickEntities. cbv zeta.
  destruct (tickInput_frame k s) as (A1 & _). cbv zeta in A1.
  set (s3 := tickInput k s) in *.
  set (s4 := updateEnemies (g_rx s) (g_ry s) DT s3).
  assert (Hwf4 : wfGrid (g_dungeon s4)).
  { unfold s4, updateEnemies. cbn [g_dungeon set_dungeon]. apply wf_modRoom. congruence. }
  assert (Hen4 : forall x y,
             (length (r_enemies (getRoom (g_dungeon s4) x y)) <= MAX_ENEMIES)%nat).
  { intros x y. unfold s4, updateEnemies. cbn [g_dungeon set_dungeon].
    rewrite getRoom_modRoom by congruence. rewrite A1.
    destruct ((g_rx s =? x) && (g_ry s =? y) && inb (g_rx s) (g_ry s)); [|apply Hen].
    rewrite updateEnemiesRoom_enemies.
    eapply Nat.le_trans; [apply cull_length|apply Hen]. }
  unfold updateBullets. cbv zeta.
  pose proof (bulletsLoop_length DT (pl_shots (g_player s4))
                (r_enemies (getRoom (g_dungeon s4) (g_rx s) (g_ry s)))) as Hl.
  destruct (bulletsLoop DT _ _) as [bs es]. simpl snd in Hl.
  cbn [g_dungeon set_player set_dungeon]. split.
  - apply wf_setRoom. assumption.
  - intros x y. rewrite getRoom_setRoom by assumption.
    destruct ((g_rx s =? x) && (g_ry s =? y) && inb (g_rx s) (g_ry s)); [|apply Hen4].
    cbn [r_enemies set_enemies]. rewrite Hl. apply Hen4.
Qed.

Lemma resetRun_fields (s : State) :
  g_dungeon (resetRun s) = g_dungeon (carveDungeon s)
  /\ g_rx (resetRun s) = 2 /\ g_ry (resetRun s) = 2
  /\ g_startx (resetRun s) = 2 /\ g_starty (resetRun s) = 2
  /\ g_runOver (resetRun s) = false /\ g_allCleared (resetRun s) = false
  /\ g_player (resetRun s)
     = set_pos Player0
         (mkVec (F32.of_Z ROOM_X + F32.of_Z ROOM_W / F32.of_Z 2)%f32
                (F32.of_Z ROOM_Y + F32.of_Z ROOM_H / F32.of_Z 2)%f32)
  /\ g_running (resetRun s) = g_running s.
Proof.
  destruct (carveDungeon_frame s) as (_ & _ & _ & H1 & H2 & _ & _ & _ & H3).
  unfold resetRun. cbv zeta. destruct (carveDungeon s).
  cbn in H1, H2, H3. subst. repeat split; reflexivity.
Qed.

Lemma Generated_enemies (g : Grid) (target bx by_ : Z) :
  Generated g target bx by_ ->
  forall x y, (length (r_enemies (getRoom g x y)) <= MAX_ENEMIES)%nat.
Proof.
  intros (gc & HC & _ & _ & _ & _ & _ & Hrooms) x y.
  destruct (Carved_plain 2 2 gc HC x y) as (Hb & _ & Hen).
  destruct (Hrooms x y) as [r ->]. unfold populated, MAX_ENEMIES.
  set (R := if (x =? bx) && (y =? by_) then set_boss (getRoom gc x y) true
            else getRoom gc x y).
  assert (HR : r_enemies R = []) by (unfold R; destruct ((x =? bx) && (y =? by_)); exact Hen).
  destruct (r_exists R); [|rewrite HR; simpl; lia].
  destruct ((x =? 2) && (y =? 2)); [cbn [r_enemies set_cleared]; rewrite HR; simpl; lia|].
  destruct (spawnEnemies_spec R r) as (_ & _ & _ & H4 & H5 & _).
  destruct (r_boss R); [rewrite H4 by reflexivity; lia|].
  specialize (H5 eq_refl). lia.
Qed.

Lemma resetRun_inv (s : State) : stateInv (resetRun s).
Proof.
  destruct (resetRun_fields s) as (Hd & Hx & Hy & _ & _ & Hr & _ & Hp & _).
  destruct (carveDungeon_generated s) as (bx & by_ & Hgen).
  unfold stateInv. rewrite Hd, Hx, Hy, Hp. split; [|split; [|split; [|split]]].
  - destruct Hgen as (gc & _ & _ & _ & Hwf & _). exact Hwf.
  - reflexivity.
  - eapply Generated_enemies. eassumption.
  - simpl. lia.
  - intros _. simpl. lia.
Qed.

Lemma tick_inv (k : Keys) (s : State) : stateInv s -> stateInv (tick k s).
Proof.
  intros (Hwf & Hin & Hen & Hhp & Hact).
  destruct (g_runOver s) eqn:Hr.
  { unfold tick. rewrite Hr. unfold stateInv.
    split; [exact Hwf|]. split; [exact Hin|]. split; [exact Hen|].
    split; [exact Hhp|]. intros E. rewrite Hr in E. discriminate E. }
  specialize (Hact eq_refl).
  destruct (tick_keeps k s Hr) as (A1 & A2 & A3 & A4 & _ & A6). cbv zeta in *.
  destruct (tickEntities_dungeon k s Hwf Hen) as [Hwf5 Hen5].
  destruct (tickEntities_frame k s) as (B1 & B2 & _ & _ & B5 & _ & _ & _ & _ & B10).
  cbv zeta in *.
  set (s5 := tickEntities k s) in *.
  set (s6 := playerHitCheck (g_rx s) (g_ry s) DT s5) in *.
  destruct (playerHitCheck_frame (g_rx s) (g_ry s) DT s5) as (C1 & C2 & C3 & _).
  cbv zeta in *. fold s6 in C1, C2, C3.
  assert (Hhit : (pl_hp (g_player s6) = pl_hp (g_player s5) /\ g_runOver s6 = g_runOver s5)
                 \/ (pl_hp (g_player s6) = pl_hp (g_player s5) - 1
                     /\ g_runOver s6 = g_runOver s5 || (pl_hp (g_player s5) - 1 <=? 0))).
  { unfold s6, playerHitCheck.
    destruct (hitFold_hp (r_enemies (getRoom (g_dungeon s5) (g_rx s) (g_ry s))) s5
                (Hen5 _ _)) as [[H1 H2]|H]; [left|right; exact H].
    cbv zeta in H1. split; [rewrite H1; reflexivity|exact H2]. }
  unfold stateInv. rewrite A4, A2, A3, A6. split; [exact Hwf5|]. split; [|split; [exact Hen5|]].
  - destruct (handleDoors_cases (g_rx s) (g_ry s) s6) as [->|(_ & nx & ny & v & -> & Hex)].
    + congruence.
    + cbn [g_rx g_ry set_player set_cursor]. eapply existsAt_inb. exact Hex.
  - split; [destruct Hhit as [[H _]|[H _]]; lia|].
    intros Hover. rewrite tick_unfold in Hover by assumption. fold s5 in Hover. fold s6 in Hover.
    destruct (hpCheck_frame (checkAllCleared
                (handleDoorsAndTransitions (g_rx s) (g_ry s) s6)))
      as (D1 & _ & _ & _ & _ & _ & _ & _ & _ & _ & D11).
    cbv zeta in D11. rewrite Hover in D11. symmetry in D11.
    apply orb_false_elim in D11. destruct D11 as [_ D]. apply Z.leb_gt in D.
    destruct (checkAllCleared_frame (handleDoorsAndTransitions (g_rx s) (g_ry s) s6))
      as (E1 & _). cbv zeta in E1. rewrite E1 in D.
    destruct (handleDoors_keeps (g_rx s) (g_ry s) s6) as (_ & _ & _ & _ & _ & _ & _ & _ & F9).
    cbv zeta in F9. rewrite F9 in D. lia.
Qed.

Lemma Reachable_inv (s : State) : Reachable s -> stateInv s.
Proof.
  induction 1 as [rng|k s H IH|k s H IH|s H IH].
  - apply resetRun_inv.
  - unfold restartInput. destruct (g_runOver s && kR k); [apply resetRun_inv|exact IH].
  - apply tick_inv. exact IH.
  - exact IH.
Qed.

Lemma ticks_reachable (ks : list Keys) (s : State) :
  Reachable s -> Reachable (ticks ks s).
Proof.
  revert s; induction ks as [|k ks IH]; intros s H; [exact H|].
  cbn [ticks]. apply IH. apply Reach_tick. exact H.
Qed.

(** Every pass of the main loop leads from a reachable state to a
    reachable state. *)
Lemma frame_reachable (k : Keys) (ks : list Keys) (s : State) :
  Reachable s -> Reachable (frame k ks s).
Proof.
  intros H. unfold frame. destruct (kEsc k); [apply Reach_quit; exact H|].
  apply ticks_reachable. apply Reach_restart. exact H.
Qed.

(** C6. In every reachable state whose run state is Active, one fixed
    update never raises the player's hp, leaves it at 0 or more, and if it
    leaves it at 0 the run state after that same update is Dead.  (Hp lies
    between 0 and 6 in every reachable state.) *)
Theorem C6_hp_monotone (k : Keys) (s : State) :
  Reachable s -> runState s = Active ->
  let s' := tick k s in
  0 <= pl_hp (g_player s) <= 6
  /\ pl_hp (g_player s') <= pl_hp (g_player s)
  /\ 0 <= pl_hp (g_player s')
  /\ (pl_hp (g_player s') = 0 -> runState s' = Dead).
Proof.
  intros Hreach Hact. cbv zeta.
  pose proof (Reachable_inv s Hreach) as (Hwf & Hin & Hen & Hhp & Hpos).
  pose proof (Reachable_inv _ (Reach_tick k s Hreach)) as (_ & _ & _ & Hhp' & Hpos').
  assert (Hr : g_runOver s = false).
  { unfold runState in Hact. destruct (g_runOver s); [|reflexivity].
    simpl in Hact. destruct (pl_hp (g_player s) <=? 0); discriminate. }
  split; [exact Hhp|]. split; [|split; [lia|]].
  - destruct (tick_keeps k s Hr) as (_ & _ & _ & _ & _ & A6). cbv zeta in A6. rewrite A6.
    destruct (tickEntities_dungeon k s Hwf Hen) as [_ Hen5].
    destruct (tickEntities_frame k s) as (_ & _ & _ & _ & _ & _ & _ & _ & _ & B10).
    cbv zeta in B10. rewrite <- B10. unfold playerHitCheck.
    destruct (hitFold_hp (r_enemies (getRoom (g_dungeon (tickEntities k s)) (g_rx s) (g_ry s)))
                (tickEntities k s) (Hen5 _ _)) as [[H1 _]|[H1 _]]; cbv zeta in H1.
    + rewrite H1. lia.
    + lia.
  - intros H0. unfold runState.
    destruct (g_runOver (tick k s)) eqn:Ho.
    + simpl. rewrite H0. reflexivity.
    + specialize (Hpos' eq_refl). lia.
Qed.

Lemma C6_hp_monotone_witness :
  let s := initState demoRng in
  let s' := tick noKeys s in
  0 <= pl_hp (g_player s) <= 6
  /\ pl_hp (g_player s') <= pl_hp (g_player s)
  /\ 0 <= pl_hp (g_player s')
  /\ (pl_hp (g_player s') = 0 -> runState s' = Dead).
Proof.
  apply (C6_hp_monotone noKeys (initState demoRng)).
  - apply Reach_init.
  - vm_compute. reflexivity.
Defined.

(** ** Phase order of the fixed update *)

Lemma enemyMove_dead (pp : Vec) (dt : float) (e : Enemy) :
  e_dead (enemyMove pp dt e) = e_dead e.
Proof.
  unfold enemyMove. destruct (e_dead e) eqn:E; [exact E|].
  cbv zeta. destruct (e_kind e =? 0); [reflexivity|].
  destruct (_ <? F32.of_Z 180)%f32; reflexivity.
Qed.

Lemma cullDead_alive (es : list Enemy) : Forall (fun e => e_dead e = false) (cullDead es).
Proof.
  unfold cullDead. apply Forall_forall. intros e He. apply filter_In in He.
  destruct He as [_ He]. apply negb_true_iff in He. exact He.
Qed.

Lemma cullDead_nil (pp : Vec) (dt : float) (es : list Enemy) :
  match cullDead (map (enemyMove pp dt) es) with [] => true | _ :: _ => false end
  = forallb e_dead es.
Proof.
  induction es as [|e es IH]; [reflexivity|].
  cbn [map forallb]. unfold cullDead in *. cbn [filter]. rewrite enemyMove_dead.
  destruct (e_dead e); simpl; [exact IH|reflexivity].
Qed.

Lemma cullDead_map_length (pp : Vec) (dt : float) (es : list Enemy) :
  length (cullDead (map (enemyMove pp dt) es))
  = length (filter (fun e => negb (e_dead e)) es).
Proof.
  induction es as [|e es IH]; [reflexivity|].
  cbn [map]. unfold cullDead in *. cbn [filter]. rewrite enemyMove_dead.
  destruct (e_dead e); simpl; rewrite IH; reflexivity.
Qed.

(** Culling comes first, the cleared flag is recomputed from the culled
    list. *)
Lemma updateEnemiesRoom_spec (pp : Vec) (dt : float) (R : Room) :
  let R' := updateEnemiesRoom pp dt R in
  Forall (fun e => e_dead e = false) (r_enemies R')
  /\ length (r_enemies R') = length (filter (fun e => negb (e_dead e)) (r_enemies R))
  /\ r_cleared R' = r_cleared R || forallb e_dead (r_enemies R)
  /\ r_exists R' = r_exists R /\ r_doors R' = r_doors R /\ r_boss R' = r_boss R.
Proof.
  cbv zeta. rewrite updateEnemiesRoom_enemies.
  split; [apply cullDead_alive|]. split; [apply cullDead_map_length|].
  pose proof (cullDead_nil pp dt (r_enemies R)) as Hn. unfold updateEnemiesRoom. cbv zeta.
  destruct (cullDead (map (enemyMove pp dt) (r_enemies R))); rewrite <- Hn;
    cbn [r_cleared r_exists r_doors r_boss set_cleared set_enemies];
    rewrite ?orb_true_r, ?orb_false_r; repeat split; reflexivity.
Qed.

(** The room under the cursor after the entity phases. *)
Lemma tickEntities_room (k : Keys) (s : State) :
  wfGrid (g_dungeon s) -> inb (g_rx s) (g_ry s) = true ->
  let R := getRoom (g_dungeon s) (g_rx s) (g_ry s) in
  let R' := getRoom (g_dungeon (tickEntities k s)) (g_rx s) (g_ry s) in
  r_cleared R' = r_cleared R || forallb e_dead (r_enemies R)
  /\ length (r_enemies R') = length (filter (fun e => negb (e_dead e)) (r_enemies R))
  /\ r_exists R' = r_exists R /\ r_doors R' = r_doors R.
Proof.
  intros Hwf Hin. cbv zeta. unfold tickEntities. cbv zeta.
  destruct (tickInput_frame k s) as (A1 & _). cbv zeta in A1.
  set (s3 := tickInput k s) in *.
  set (s4 := updateEnemies (g_rx s) (g_ry s) DT s3).
  assert (Hwf4 : wfGrid (g_dungeon s4)).
  { unfold s4, updateEnemies. cbn [g_dungeon set_dungeon]. apply wf_modRoom. congruence. }
  assert (H4 : getRoom (g_dungeon s4) (g_rx s) (g_ry s)
               = updateEnemiesRoom (pl_p (g_player s3)) DT
                   (getRoom (g_dungeon s) (g_rx s) (g_ry s))).
  { unfold s4, updateEnemies. cbn [g_dungeon set_dungeon].
    rewrite getRoom_modRoom by congruence. rewrite !Z.eqb_refl, Hin, A1. reflexivity. }
  unfold updateBullets. cbv zeta.
  pose proof (bulletsLoop_length DT (pl_shots (g_player s4))
                (r_enemies (getRoom (g_dungeon s4) (g_rx s) (g_ry s)))) as Hl.
  destruct (bulletsLoop DT _ _) as [bs es]. simpl snd in Hl.
  cbn [g_dungeon set_player set_dungeon].
  rewrite getRoom_setRoom by assumption. rewrite !Z.eqb_refl, Hin.
  cbn [andb r_cleared r_enemies r_exists r_doors set_enemies].
  rewrite Hl, H4.
  destruct (updateEnemiesRoom_spec (pl_p (g_player s3)) DT
              (getRoom (g_dungeon s) (g_rx s) (g_ry s))) as (_ & B2 & B3 & B4 & B5 & _).
  cbv zeta in *. repeat split; assumption.
Qed.

Lemma clearScan_fold (g : Grid) (l : list (Z * Z)) (any allclear : bool) :
  fold_left (clearScan g) l (any, allclear)
  = (any || existsb (fun c => existsAt g (fst c) (snd c)) l,
     allclear && forallb (fun c => negb (existsAt g (fst c) (snd c))
                                   || r_cleared (getRoom g (fst c) (snd c))) l).
Proof.
  revert any allclear; induction l as [|[x y] l IH]; intros any allclear.
  - simpl. rewrite orb_false_r, andb_true_r. reflexivity.
  - cbn [fold_left existsb forallb fst snd]. unfold clearScan at 2. unfold existsAt at 1 3.
    destruct (r_exists (getRoom g x y)); cbn [negb orb]; rewrite IH.
    + destruct (r_cleared (getRoom g x y)); cbn [negb];
        rewrite ?orb_true_r, ?andb_false_r, ?andb_true_r; reflexivity.
    + reflexivity.
Qed.

Lemma checkAllCleared_spec (s : State) :
  g_allCleared (checkAllCleared s) = floorCleared (g_dungeon s)
  /\ g_runOver (checkAllCleared s) = g_runOver s || floorCleared (g_dungeon s).
Proof.
  unfold checkAllCleared. rewrite clearScan_fold. cbv zeta. cbn [orb andb].
  fold (floorCleared (g_dungeon s)).
  destruct s as [p g rx ry sx sy over allc rng cd run].
  cbn [g_allCleared set_allCleared g_runOver set_runOver g_dungeon].
  destruct (floorCleared g); destruct over; split; reflexivity.
Qed.

(** The contact pass never raises hp, and ends the run only by bringing
    hp to 0 or below. *)
Lemma hitFold_over (es : list Enemy) (dt : float) (s : State) :
  let s' := fold_left (hitStep dt) es s in
  pl_hp (g_player s') <= pl_hp (g_player s)
  /\ (g_runOver s' = true -> g_runOver s = true \/ pl_hp (g_player s') <= 0).
Proof.
  revert s; induction es as [|e es IH]; intros s; cbn [fold_left].
  - cbv zeta. split; [lia|]. intros H. left. exact H.
  - destruct (IH (hitStep dt s e)) as [H1 H2]. cbv zeta in *.
    assert (Hs : pl_hp (g_player (hitStep dt s e)) <= pl_hp (g_player s)
                 /\ (g_runOver (hitStep dt s e) = true ->
                     g_runOver s = true \/ pl_hp (g_player (hitStep dt s e)) <= 0)).
    { unfold hitStep. destruct (touches s e); [|split; [lia|auto]].
      destruct (hurtCD s <=? F32.zero)%f32; [|split; [cbn; lia|auto]].
      cbn [g_player g_runOver set_hurtCD].
      destruct (takeHit_fields e s) as (F1 & _ & F3). rewrite F1, F3. split; [lia|].
      intros H. apply orb_prop in H. destruct H as [H|H]; [left; exact H|].
      right. apply Z.leb_le in H. exact H. }
    destruct Hs as [S1 S2]. split; [lia|].
    intros H. destruct (H2 H) as [H3|H3]; [|right; exact H3].
    destruct (S2 H3) as [H4|H4]; [left; exact H4|right; lia].
Qed.

(** The flags the run-state checks leave, read off the final state. *)
Lemma tick_runState (k : Keys) (s : State) :
  g_runOver s = false ->
  g_allCleared (tick k s) = floorCleared (g_dungeon (tick k s))
  /\ g_runOver (tick k s)
     = (pl_hp (g_player (tick k s)) <=? 0) || floorCleared (g_dungeon (tick k s)).
Proof.
  intros Hr.
  destruct (tick_keeps k s Hr) as (_ & _ & _ & A4 & _ & A6). cbv zeta in *.
  rewrite A4, A6. rewrite tick_unfold by assumption.
  set (s5 := tickEntities k s) in *.
  set (s6 := playerHitCheck (g_rx s) (g_ry s) DT s5) in *.
  set (s7 := handleDoorsAndTransitions (g_rx s) (g_ry s) s6).
  destruct (hpCheck_frame (checkAllCleared s7)) as (B1 & _ & _ & _ & _ & _ & B7 & _ & _ & _ & B11).
  destruct (checkAllCleared_frame s7) as (C1 & _).
  destruct (checkAllCleared_spec s7) as (D1 & D2).
  destruct (handleDoors_keeps (g_rx s) (g_ry s) s6) as (E1 & E2 & _ & _ & _ & _ & _ & _ & E9).
  destruct (playerHitCheck_frame (g_rx s) (g_ry s) DT s5) as (F1 & _).
  destruct (tickEntities_frame k s) as (_ & _ & _ & _ & G5 & _).
  destruct (hitFold_over (r_enemies (getRoom (g_dungeon s5) (g_rx s) (g_ry s))) DT s5)
    as [_ H2].
  cbv zeta in *. fold s5 in G5. fold s6 in E1, E2, E9, F1, H2. fold s7 in E1, E2, E9.
  change (fold_left (hitStep DT) (r_enemies (getRoom (g_dungeon s5) (g_rx s) (g_ry s))) s5)
    with s6 in H2.
  rewrite B7, B11, D1, D2, C1, E1, E2, E9, F1. split; [reflexivity|].
  destruct (g_runOver s6) eqn:Ho.
  - destruct (H2 eq_refl) as [H|H]; [congruence|].
    apply Z.leb_le in H. rewrite H. reflexivity.
  - destruct (floorCleared (g_dungeon s5)); destruct (pl_hp (g_player s6) <=? 0); reflexivity.
Qed.

(** C1 (amended). Within one fixed update: dead enemies are culled and
    then the room's cleared flag is recomputed, both inside the enemy
    update, which runs before bullet integration and collision.  So the
    flag after the update is the old flag or "every enemy of the list was
    already dead when the update began", and an enemy a bullet kills in
    this update stays in the list, to be culled by the next update.  The
    door phase comes after and works on the recomputed flag; with the flag
    false the cursor stays.  The run-state checks come last and read the
    final state: [g_allCleared] says whether every existing room is
    cleared, and [g_runOver] holds exactly when hp is 0 or less or the
    floor is cleared. *)
Theorem C1_phase_order (k : Keys) (s : State) :
  g_runOver s = false -> wfGrid (g_dungeon s) -> inb (g_rx s) (g_ry s) = true ->
  let X := g_rx s in
  let Y := g_ry s in
  let R := getRoom (g_dungeon s) X Y in
  let s6 := playerHitCheck X Y DT (tickEntities k s) in
  let s7 := handleDoorsAndTransitions X Y s6 in
  let s' := tick k s in
  let R' := getRoom (g_dungeon s') X Y in
  (forall pp dt R0,
      Forall (fun e => e_dead e = false) (r_enemies (updateEnemiesRoom pp dt R0))
      /\ r_cleared (updateEnemiesRoom pp dt R0)
         = r_cleared R0 || forallb e_dead (r_enemies R0))
  /\ r_cleared R' = r_cleared R || forallb e_dead (r_enemies R)
  /\ length (r_enemies R') = length (filter (fun e => negb (e_dead e)) (r_enemies R))
  /\ g_dungeon s6 = g_dungeon s'
  /\ g_rx s' = g_rx s7 /\ g_ry s' = g_ry s7 /\ g_player s' = g_player s7
  /\ (r_cleared R' = false -> g_rx s' = X /\ g_ry s' = Y)
  /\ g_allCleared s' = floorCleared (g_dungeon s')
  /\ g_runOver s' = (pl_hp (g_player s') <=? 0) || floorCleared (g_dungeon s').
Proof.
  intros Hr Hwf Hin. cbv zeta.
  destruct (tick_keeps k s Hr) as (A1 & A2 & A3 & A4 & _). cbv zeta in *.
  destruct (tickEntities_room k s Hwf Hin) as (B1 & B2 & _). cbv zeta in *.
  destruct (playerHitCheck_frame (g_rx s) (g_ry s) DT (tickEntities k s)) as (C1 & C2 & C3 & _).
  cbv zeta in *.
  destruct (tick_runState k s Hr) as (D1 & D2).
  split; [|split; [|split; [|split; [|split; [|split; [|split; [|split; [|split]]]]]]]].
  - intros pp dt R0. destruct (updateEnemiesRoom_spec pp dt R0) as (E1 & _ & E3 & _).
    split; assumption.
  - rewrite A4. exact B1.
  - rewrite A4. exact B2.
  - congruence.
  - exact A2.
  - exact A3.
  - exact A1.
  - rewrite A4, A2, A3. intros Hc.
    assert (Hd : handleDoorsAndTransitions (g_rx s) (g_ry s)
                   (playerHitCheck (g_rx s) (g_ry s) DT (tickEntities k s))
                 = playerHitCheck (g_rx s) (g_ry s) DT (tickEntities k s)).
    { unfold handleDoorsAndTransitions. cbv zeta. rewrite C1, Hc. reflexivity. }
    rewrite Hd. destruct (tickEntities_frame k s) as (F1 & F2 & _). cbv zeta in *.
    split; congruence.
  - exact D1.
  - exact D2.
Qed.

Lemma wf_twoRooms : wfGrid twoRooms.
Proof. unfold twoRooms. apply wf_modRoom, wf_carve, wf_modRoom, wf_emptyDungeon. Qed.

Lemma C1_phase_order_witness :
  let s := duelState in
  let X := g_rx s in
  let Y := g_ry s in
  let R := getRoom (g_dungeon s) X Y in
  let s6 := playerHitCheck X Y DT (tickEntities noKeys s) in
  let s7 := handleDoorsAndTransitions X Y s6 in
  let s' := tick noKeys s in
  let R' := getRoom (g_dungeon s') X Y in
  (forall pp dt R0,
      Forall (fun e => e_dead e = false) (r_enemies (updateEnemiesRoom pp dt R0))
      /\ r_cleared (updateEnemiesRoom pp dt R0)
         = r_cleared R0 || forallb e_dead (r_enemies R0))
  /\ r_cleared R' = r_cleared R || forallb e_dead (r_enemies R)
  /\ length (r_enemies R') = length (filter (fun e => negb (e_dead e)) (r_enemies R))
  /\ g_dungeon s6 = g_dungeon s'
  /\ g_rx s' = g_rx s7 /\ g_ry s' = g_ry s7 /\ g_player s' = g_player s7
  /\ (r_cleared R' = false -> g_rx s' = X /\ g_ry s' = Y)
  /\ g_allCleared s' = floorCleared (g_dungeon s')
  /\ g_runOver s' = (pl_hp (g_player s') <=? 0) || floorCleared (g_dungeon s').
Proof.
  apply (C1_phase_order noKeys duelState).
  - reflexivity.
  - apply wf_modRoom, wf_twoRooms.
  - reflexivity.
Defined.

(** The claim as the specification words it fails on [duelState]: the
    room's last live enemy is killed by the bullet in this fixed update and
    the player stands in the open doorway, yet after the update the room is
    still uncleared and the cursor has not moved; the door lets the player
    through in the following update. *)
Lemma C1_counterexample :
  let s1 := tick noKeys duelState in
  let s2 := tick noKeys s1 in
  map e_dead (r_enemies (getRoom (g_dungeon duelState) 3 2)) = [false]
  /\ map e_dead (r_enemies (getRoom (g_dungeon s1) 3 2)) = [true]
  /\ doorAt (g_dungeon s1) 3 2 Left = true
  /\ circleRectOverlap (pl_p (g_player s1)) (pl_r (g_player s1))
       (InflateRect (doorRect Left) 10 10) = true
  /\ r_cleared (getRoom (g_dungeon s1) 3 2) = false
  /\ (g_rx s1, g_ry s1) = (3, 2)
  /\ r_cleared (getRoom (g_dungeon s2) 3 2) = true
  /\ (g_rx s2, g_ry s2) = (2, 2).
Proof. vm_compute. repeat split; reflexivity. Qed.

(** ** Restart *)

Lemma carveDungeon_rng (s t : State) :
  g_rng s = g_rng t ->
  g_dungeon (carveDungeon s) = g_dungeon (carveDungeon t)
  /\ g_rng (carveDungeon s) = g_rng (carveDungeon t).
Proof.
  intros H. unfold carveDungeon. rewrite H. cbv zeta.
  destruct (populate _ _ _ _) as [g2 rng2]. split; reflexivity.
Qed.

(** [resetRun] rebuilds everything from the engine state alone, as at
    program start, except the contact timer (and the running flag). *)
Lemma resetRun_fresh (s : State) :
  resetRun s
  = set_running (set_hurtCD (initState (g_rng s)) (hurtCD s)) (g_running s).
Proof.
  unfold initState.
  destruct (carveDungeon_rng s (bootState (g_rng s)) eq_refl) as [Hd Hg].
  destruct (carveDungeon_frame s) as (_ & _ & _ & A4 & A5 & _ & _ & A8 & A9).
  destruct (carveDungeon_frame (bootState (g_rng s))) as (_ & _ & _ & B4 & B5 & _).
  unfold resetRun. cbv zeta.
  destruct (carveDungeon s) as [p g rx ry sx sy over allc rng cd run].
  destruct (carveDungeon (bootState (g_rng s))) as [p' g' rx' ry' sx' sy' over' allc' rng' cd' run'].
  cbn in Hd, Hg, A4, A5, A8, A9, B4, B5. subst.
  reflexivity.
Qed.

(** C2 (amended). The restart key is honoured only when the run is over
    (Cleared or Dead); while the run is Active it is ignored and the state
    is left as it is.  When honoured, the state is rebuilt from the random
    engine as at program start, the contact timer excepted: the dungeon is
    newly generated and is a tree of doors rooted at the spawn cell, the
    cursor is at the spawn cell, the spawn room is cleared and empty, the
    player is new with hp 6, and the run state is Active. *)
Theorem C2_restart (k : Keys) (s : State) :
  kEsc k = false -> kR k = true ->
  let s' := frame k [] s in
  let g := g_dungeon s' in
  (g_runOver s = false -> s' = s)
  /\ (g_runOver s = true ->
      s' = set_running (set_hurtCD (initState (g_rng s)) (hurtCD s)) (g_running s)
      /\ doorsClosed g
      /\ existsAt g (g_startx s') (g_starty s') = true
      /\ (forall x y, existsAt g x y = true -> reach g (g_startx s') (g_starty s') x y)
      /\ (forall a p, ~ simpleCycle g a p)
      /\ 1 <= countRooms g <= 9
      /\ g_rx s' = g_startx s' /\ g_ry s' = g_starty s'
      /\ r_cleared (getRoom g (g_startx s') (g_starty s')) = true
      /\ r_enemies (getRoom g (g_startx s') (g_starty s')) = []
      /\ pl_hp (g_player s') = 6
      /\ pl_hp (g_player s') = pl_hp Player0
      /\ pl_shots (g_player s') = []
      /\ runState s' = Active).
Proof.
  intros Hesc HR. cbv zeta. unfold frame. rewrite Hesc. cbn [ticks].
  unfold restartInput. rewrite HR, andb_true_r. split.
  - intros ->. reflexivity.
  - intros ->.
    destruct (resetRun_fields s) as (Hd & Hx & Hy & Hsx & Hsy & Hr & _ & Hp & _).
    destruct (carveDungeon_generated s) as (bx & by_ & Hgen).
    destruct (Generated_tree _ _ bx by_ Hgen) as (T1 & T2 & T3 & T4 & T5).
    destruct (carveDungeon_spawn_room s) as (S1 & S2).
    pose proof (randint_range 6 9 (g_rng s) ltac:(lia)) as Ht.
    split; [apply resetRun_fresh|].
    rewrite Hd, Hx, Hy, Hsx, Hsy, Hp.
    split; [exact T1|]. split; [exact T2|]. split; [exact T3|]. split; [exact T4|].
    split; [lia|]. split; [reflexivity|]. split; [reflexivity|].
    split; [exact S1|]. split; [exact S2|].
    split; [reflexivity|]. split; [reflexivity|]. split; [reflexivity|].
    unfold runState. rewrite Hr. reflexivity.
Qed.

Lemma C2_restart_witness :
  let s := overState in
  let s' := frame keysR [] s in
  let g := g_dungeon s' in
  (g_runOver s = false -> s' = s)
  /\ (g_runOver s = true ->
      s' = set_running (set_hurtCD (initState (g_rng s)) (hurtCD s)) (g_running s)
      /\ doorsClosed g
      /\ existsAt g (g_startx s') (g_starty s') = true
      /\ (forall x y, existsAt g x y = true -> reach g (g_startx s') (g_starty s') x y)
      /\ (forall a p, ~ simpleCycle g a p)
      /\ 1 <= countRooms g <= 9
      /\ g_rx s' = g_startx s' /\ g_ry s' = g_starty s'
      /\ r_cleared (getRoom g (g_startx s') (g_starty s')) = true
      /\ r_enemies (getRoom g (g_startx s') (g_starty s')) = []
      /\ pl_hp (g_player s') = 6
      /\ pl_hp (g_player s') = pl_hp Player0
      /\ pl_shots (g_player s') = []
      /\ runState s' = Active).
Proof.
  apply (C2_restart keysR overState).
  - reflexivity.
  - reflexivity.
Defined.

(** The claim as the specification words it fails on [duelState]: the
    run is Active, the restart key is down and the quit key is not, and the
    pass of the main loop changes nothing: the cursor stays at (3,2), not
    at the spawn cell (2,2), hp stays 3, not 6, and the room under the
    cursor keeps its enemy. *)
Lemma C2_counterexample :
  let s' := frame keysR [] duelState in
  runState duelState = Active
  /\ kR keysR = true /\ kEsc keysR = false
  /\ s' = duelState
  /\ (g_rx s', g_ry s') = (3, 2)
  /\ (g_startx s', g_starty s') = (2, 2)
  /\ pl_hp (g_player s') = 3
  /\ length (r_enemies (getRoom (g_dungeon s') 3 2)) = 1%nat.
Proof. cbv zeta. repeat split; reflexivity. Qed.

(** * Further properties of the code *)

(** ** The carver always reaches its target *)

Lemma shuffle_all (g : RNG) (d : Dir) : In d (fst (shuffle g)).
Proof.
  unfold shuffle.
  pose proof (randint_range 0 1 g ltac:(lia)) as H1.
  destruct (randint 0 1 g) as [j1 g1]. simpl fst in H1.
  pose proof (randint_range 0 2 g1 ltac:(lia)) as H2.
  destruct (randint 0 2 g1) as [j2 g2]. simpl fst in H2.
  pose proof (randint_range 0 3 g2 ltac:(lia)) as H3.
  destruct (randint 0 3 g2) as [j3 g3]. simpl fst in H3.
  assert (E1 : j1 = 0 \/ j1 = 1) by lia.
  assert (E2 : j2 = 0 \/ j2 = 1 \/ j2 = 2) by lia.
  assert (E3 : j3 = 0 \/ j3 = 1 \/ j3 = 2 \/ j3 = 3) by lia.
  destruct E1 as [ -> | -> ];
    destruct E2 as [ -> | [ -> | -> ] ];
    destruct E3 as [ -> | [ -> | [ -> | -> ] ] ];
    destruct d; simpl; tauto.
Qed.

Lemma tryDirs_None (g : Grid) (cx cy : Z) (dirs : list Dir) :
  tryDirs g cx cy dirs = None ->
  forall d, In d dirs ->
    inb (stepx cx d) (stepy cy d) = true -> existsAt g (stepx cx d) (stepy cy d) = true.
Proof.
  induction dirs as [|e ds IH]; intros H d Hd Hi; [contradiction|].
  cbn [tryDirs] in H. cbv zeta in H.
  destruct (negb (inb (stepx cx e) (stepy cy e))
            || r_exists (getRoom g (stepx cx e) (stepy cy e))) eqn:E; [|discriminate].
  destruct Hd as [->|Hd]; [|apply IH; assumption].
  rewrite Hi in E. simpl in E. exact E.
Qed.

Lemma carveStep_explored (sx sy target : Z) (c : Carver) :
  carveCond target c = true ->
  carverInv sx sy target c -> explored (c_grid c) (c_stack c) ->
  explored (c_grid (carveStep c)) (c_stack (carveStep c)).
Proof.
  intros Hcond (HC & _ & _ & Hst) Hex.
  pose proof (Carved_wf _ _ _ HC) as Hwf.
  unfold carveStep. destruct (c_stack c) as [|[cx cy] rest] eqn:Es.
  { unfold carveCond in Hcond. rewrite Es, andb_false_r in Hcond. discriminate. }
  pose proof (shuffle_all (c_rng c)) as Hall.
  destruct (shuffle (c_rng c)) as [dirs g']. simpl fst in Hall.
  inversion Hst as [|? ? [Hci Hce] Hrest]; subst. simpl in Hci, Hce.
  destruct (tryDirs (c_grid c) cx cy dirs) as [[gr n]|] eqn:Et.
  - apply tryDirs_Some in Et. destruct Et as (d & -> & -> & Hni & Hnf).
    cbn [c_grid c_stack]. intros x y Hxy.
    rewrite existsAt_carve in Hxy by assumption.
    destruct ((x =? stepx cx d) && (y =? stepy cy d)) eqn:E1.
    + apply eqb_pair_true in E1. destruct E1; subst. left. left. reflexivity.
    + destruct ((x =? cx) && (y =? cy)) eqn:E2.
      * apply eqb_pair_true in E2. destruct E2; subst. left. right. left. reflexivity.
      * simpl in Hxy. destruct (Hex x y Hxy) as [Hin|Hnb].
        -- left. right. exact Hin.
        -- right. intros e He. apply existsAt_carve_mono; auto.
  - cbn [c_grid c_stack]. intros x y Hxy.
    destruct (Hex x y Hxy) as [[Heq|Hin]|Hnb].
    + inversion Heq; subst. right. intros d Hd.
      apply (tryDirs_None _ _ _ _ Et d (Hall d) Hd).
    + left. exact Hin.
    + right. exact Hnb.
Qed.

(** The loop stops only when its condition fails, with whatever the steps
    preserve. *)
Lemma carveLoop_exit (P : Carver -> Prop) (target : Z) (fuel : nat) (c c' : Carver) :
  (forall a, carveCond target a = true -> P a -> P (carveStep a)) ->
  carveLoop fuel target c = Some c' -> P c ->
  P c' /\ carveCond target c' = false.
Proof.
  intros Hstep. revert c; induction fuel as [|f IH]; intros c H HP; simpl in H.
  - destruct (carveCond target c) eqn:E; [discriminate|].
    inversion H; subst. split; assumption.
  - destruct (carveCond target c) eqn:E.
    + apply (IH (carveStep c)); auto.
    + inversion H; subst. split; assumption.
Qed.

(** A set of cells that holds the centre and is closed under steps inside
    the grid is the whole grid. *)
Lemma closed_is_grid (g : Grid) :
  existsAt g 2 2 = true ->
  (forall x y, existsAt g x y = true ->
     forall d, inb (stepx x d) (stepy y d) = true ->
               existsAt g (stepx x d) (stepy y d) = true) ->
  forall x y, inb x y = true -> existsAt g x y = true.
Proof.
  intros H22 Hcl.
  assert (R : forall x y, existsAt g x y = true -> inb (x + 1) y = true ->
                          existsAt g (x + 1) y = true).
  { intros x y H Hi. pose proof (Hcl x y H Right) as Hd. unfold stepx, stepy in Hd.
    rewrite Z.add_0_r in Hd. apply Hd. exact Hi. }
  assert (L : forall x y, existsAt g x y = true -> inb (x + -1) y = true ->
                          existsAt g (x + -1) y = true).
  { intros x y H Hi. pose proof (Hcl x y H Left) as Hd. unfold stepx, stepy in Hd.
    rewrite Z.add_0_r in Hd. apply Hd. exact Hi. }
  assert (D : forall x y, existsAt g x y = true -> inb x (y + 1) = true ->
                          existsAt g x (y + 1) = true).
  { intros x y H Hi. pose proof (Hcl x y H Down) as Hd. unfold stepx, stepy in Hd.
    rewrite Z.add_0_r in Hd. apply Hd. exact Hi. }
  assert (U : forall x y, existsAt g x y = true -> inb x (y + -1) = true ->
                          existsAt g x (y + -1) = true).
  { intros x y H Hi. pose proof (Hcl x y H Up) as Hd. unfold stepx, stepy in Hd.
    rewrite Z.add_0_r in Hd. apply Hd. exact Hi. }
  assert (H32 : existsAt g 3 2 = true) by (apply (R 2 2 H22); reflexivity).
  assert (H42 : existsAt g 4 2 = true) by (apply (R 3 2 H32); reflexivity).
  assert (H12 : existsAt g 1 2 = true) by (apply (L 2 2 H22); reflexivity).
  assert (H02 : existsAt g 0 2 = true) by (apply (L 1 2 H12); reflexivity).
  assert (Hrow : forall x, 0 <= x < 5 -> existsAt g x 2 = true).
  { intros x Hx.
    assert (E : x = 0 \/ x = 1 \/ x = 2 \/ x = 3 \/ x = 4) by lia.
    destruct E as [ -> | [ -> | [ -> | [ -> | -> ] ] ] ]; assumption. }
  intros x y Hi. apply inb_range in Hi. unfold GRID_W, GRID_H in Hi.
  destruct Hi as [Hx Hy]. pose proof (Hrow x Hx) as Hx2.
  assert (Hxi : forall b, 0 <= b < 5 -> inb x b = true).
  { intros b Hb. apply inb_range. unfold GRID_W, GRID_H. lia. }
  assert (Hx3 : existsAt g x 3 = true) by (apply (D x 2 Hx2); apply Hxi; lia).
  assert (Hx4 : existsAt g x 4 = true) by (apply (D x 3 Hx3); apply Hxi; lia).
  assert (Hx1 : existsAt g x 1 = true) by (apply (U x 2 Hx2); apply Hxi; lia).
  assert (Hx0 : existsAt g x 0 = true) by (apply (U x 1 Hx1); apply Hxi; lia).
  assert (E : y = 0 \/ y = 1 \/ y = 2 \/ y = 3 \/ y = 4) by lia.
  destruct E as [ -> | [ -> | [ -> | [ -> | -> ] ] ] ]; assumption.
Qed.

Lemma countRooms_full (g : Grid) :
  (forall x y, inb x y = true -> existsAt g x y = true) -> countRooms g = 25.
Proof.
  intros H. unfold countRooms.
  rewrite (filter_length_same (fun _ => true)).
  - reflexivity.
  - intros [x y] Hin. simpl. apply H. apply In_allCells. exact Hin.
Qed.

Lemma carveInit_explored (rng : RNG) :
  explored (c_grid (carveInit 2 2 rng)) (c_stack (carveInit 2 2 rng)).
Proof.
  intros x y H. left. cbn [carveInit c_grid c_stack] in *.
  unfold existsAt in H. rewrite getRoom_modRoom in H by apply wf_emptyDungeon.
  destruct ((2 =? x) && (2 =? y) && inb 2 2) eqn:E.
  - apply andb_prop in E. destruct E as [E _]. apply eqb_pair_true in E.
    destruct E; subst. left. reflexivity.
  - rewrite getRoom_emptyDungeon in H. discriminate.
Qed.

(** The carved grid holds exactly the drawn number of rooms. *)
Lemma carveRooms_exact (rng : RNG) :
  exists c, snd (carveRooms rng) = Some c
            /\ Carved 2 2 (c_grid c)
            /\ countRooms (c_grid c) = fst (randint 6 9 rng).
Proof.
  destruct (carveRooms_spec rng) as [Ht (c & Hc & _)].
  rewrite carveRooms_target in Ht.
  exists c. split; [exact Hc|].
  unfold carveRooms in Hc. destruct (randint 6 9 rng) as [t rng1]. simpl fst in *.
  simpl snd in Hc. change (Z.quot GRID_W 2) with 2 in Hc. change (Z.quot GRID_H 2) with 2 in Hc.
  destruct (carveLoop_exit
              (fun a => carverInv 2 2 t a /\ explored (c_grid a) (c_stack a))
              t (carveFuel t) (carveInit 2 2 rng1) c) as [[Hinv Hex] Hcond];
    [| exact Hc | |].
  - intros a Ha [H1 H2]. split.
    + apply carveStep_inv; assumption.
    + eapply carveStep_explored; eassumption.
  - split; [apply carveInit_inv; lia|apply carveInit_explored].
  - destruct Hinv as (HC & Hm & Hr & _). split; [exact HC|].
    unfold carveCond in Hcond. apply andb_false_iff in Hcond.
    destruct Hcond as [Hlt|Hst].
    + apply Z.ltb_ge in Hlt. lia.
    + exfalso. destruct (c_stack c) as [|n st] eqn:Es; [|discriminate].
      assert (Hfull : countRooms (c_grid c) = 25).
      { apply countRooms_full. apply closed_is_grid.
        - apply Carved_start_exists; [reflexivity|exact HC].
        - intros x y Hxy. destruct (Hex x y Hxy) as [[]|H]. exact H. }
      lia.
Qed.

Lemma populated_exists (sx sy x y : Z) (R : Room) (r : RNG) :
  r_exists (populated sx sy x y R r) = r_exists R.
Proof.
  unfold populated. destruct (r_exists R) eqn:E; [|exact E].
  destruct ((x =? sx) && (y =? sy)); [exact E|].
  destruct (spawnEnemies_spec R r) as (H & _). cbv zeta in H. congruence.
Qed.

Lemma carveDungeon_rooms (s : State) :
  exists c, snd (carveRooms (g_rng s)) = Some c
            /\ forall x y, existsAt (g_dungeon (carveDungeon s)) x y
                           = existsAt (c_grid c) x y.
Proof.
  destruct (carveRooms_exact (g_rng s)) as (c & Hc & HC & _).
  exists c. split; [exact Hc|].
  pose proof (Carved_wf _ _ _ HC) as Hwf.
  destruct (bossScan_spec (c_grid c) 2 2 (Carved_start_exists 2 2 _ eq_refl HC))
    as (bx & by_ & best & Hscan & Hbe & _).
  unfold carveDungeon. rewrite Hc.
  change (Z.quot GRID_W 2) with 2. change (Z.quot GRID_H 2) with 2.
  assert (Hwfm : wfGrid (markBoss (c_grid c) 2 2)).
  { unfold markBoss. rewrite Hscan. apply wf_modRoom. assumption. }
  destruct (populate_spec 2 2 (markBoss (c_grid c) 2 2) (c_rng c) Hwfm) as [_ Hpop].
  destruct (populate (markBoss (c_grid c) 2 2) 2 2 (c_rng c)) as [g2 rng2].
  simpl fst in Hpop. cbn [g_dungeon]. intros x y. unfold existsAt.
  destruct (Hpop x y) as [r ->]. rewrite populated_exists.
  rewrite (getRoom_markBoss _ 2 2 bx by_ _ x y Hwf Hscan) by (eapply existsAt_inb; eauto).
  destruct ((x =? bx) && (y =? by_)); reflexivity.
Qed.

Lemma carveDungeon_count_eq (s : State) :
  countRooms (g_dungeon (carveDungeon s)) = fst (randint 6 9 (g_rng s)).
Proof.
  destruct (carveRooms_exact (g_rng s)) as (c & Hc & _ & Hcount).
  destruct (carveDungeon_rooms s) as (c' & Hc' & Hex).
  rewrite Hc in Hc'. inversion Hc'; subst c'.
  rewrite (countRooms_same (c_grid c)) by exact Hex. exact Hcount.
Qed.

(** X1. [carveDungeon] never falls short of its target: the generated
    dungeon has exactly [targetRooms] rooms, the number drawn from 6..9,
    whatever the shuffles are.  (The stack cannot run empty before all 25
    cells are carved.) *)
Theorem carveDungeon_room_count (s : State) :
  let target := fst (randint 6 9 (g_rng s)) in
  countRooms (g_dungeon (carveDungeon s)) = target /\ 6 <= target <= 9.
Proof.
  cbv zeta. split; [apply carveDungeon_count_eq|apply randint_range; lia].
Qed.

(** ** What [spawnEnemies] puts in a room *)

Lemma spawnLoop_Forall (P : Enemy -> Prop) (boss : bool) (n : nat) (i : Z)
      (es : list Enemy) (g : RNG) :
  (forall px py k, k = 0 \/ k = 1 ->
     P (mkEnemy (mkVec px py)
                (if boss then F32.of_Z 14 else F32.of_Z 12)
                (if boss then F32.of_Z 4 else F32.of_Z 2)
                (if boss then F32.of_Z 70 else F32.of_Z 55)
                k (mkVec (F32.of_Z 1) (F32.of_Z 0)) false)) ->
  0 <= i -> Forall P es -> Forall P (fst (spawnLoop boss n i es g)).
Proof.
  intros HP. revert i es g; induction n as [|n IH]; intros i es g Hi Hes; cbn [spawnLoop].
  - exact Hes.
  - destruct (randf _ _ g) as [px g1]. destruct (randf _ _ g1) as [py g2].
    assert (Hk : forall kg, kg = (if boss then (Z.rem i 2, g2) else randint 0 1 g2) ->
                            fst kg = 0 \/ fst kg = 1).
    { intros kg ->. destruct boss.
      - simpl. pose proof (Z.rem_bound_pos i 2 Hi ltac:(lia)). lia.
      - pose proof (randint_range 0 1 g2 ltac:(lia)). lia. }
    specialize (Hk _ eq_refl).
    destruct (if boss then (Z.rem i 2, g2) else randint 0 1 g2) as [kind g3].
    simpl fst in Hk. apply IH; [lia|].
    apply Forall_app. split; [exact Hes|]. constructor; [|constructor].
    apply HP. exact Hk.
Qed.

Lemma spawnLoop_boss_kinds (n : nat) (i : Z) (es : list Enemy) (g : RNG) :
  map e_kind (fst (spawnLoop true n i es g))
  = map e_kind es ++ map (fun j => Z.rem (i + Z.of_nat j) 2) (seq 0 n).
Proof.
  revert i es g; induction n as [|n IH]; intros i es g; cbn [spawnLoop].
  - simpl. rewrite app_nil_r. reflexivity.
  - destruct (randf _ _ g) as [px g1]. destruct (randf _ _ g1) as [py g2].
    rewrite IH. rewrite map_app. cbn [map e_kind]. rewrite <- app_assoc. f_equal.
    cbn [seq map app]. rewrite Z.add_0_r. f_equal.
    rewrite <- seq_shift, map_map. apply map_ext. intros j. f_equal. lia.
Qed.

(** X2. Every enemy [spawnEnemies] creates is alive, patrols along
    [(1, 0)] and is a chaser (0) or a patroller (1).  In a boss room the six
    kinds alternate chaser, patroller by spawn index and each enemy has hp
    4, radius 14 and speed 70; in any other room each has hp 2, radius 12
    and speed 55.  The room's doors and its exists and boss flags are kept,
    and enemies the room held before are discarded. *)
Theorem spawnEnemies_attributes (R : Room) (g : RNG) :
  let R' := fst (spawnEnemies R g) in
  let es := r_enemies R' in
  Forall (fun e => e_dead e = false /\ e_patrolDir e = vecZ 1 0
                   /\ (e_kind e = 0 \/ e_kind e = 1)) es
  /\ (r_boss R = true ->
      map e_kind es = [0; 1; 0; 1; 0; 1]
      /\ Forall (fun e => e_hp e = F32.of_Z 4 /\ e_r e = F32.of_Z 14
                          /\ e_speed e = F32.of_Z 70) es)
  /\ (r_boss R = false ->
      Forall (fun e => e_hp e = F32.of_Z 2 /\ e_r e = F32.of_Z 12
                       /\ e_speed e = F32.of_Z 55) es)
  /\ r_exists R' = r_exists R /\ r_boss R' = r_boss R /\ r_doors R' = r_doors R
  /\ fst (spawnEnemies (set_enemies R []) g) = R'.
Proof.
  cbv zeta. unfold spawnEnemies.
  destruct (randint 2 5 g) as [c g1].
  cbn [r_boss set_enemies].
  pose proof (spawnLoop_Forall
                (fun e => e_dead e = false /\ e_patrolDir e = vecZ 1 0
                          /\ (e_kind e = 0 \/ e_kind e = 1))
                (r_boss R) (Z.to_nat (if r_boss R then 6 else c)) 0 [] g1) as HA.
  pose proof (spawnLoop_Forall
                (fun e => e_hp e = (if r_boss R then F32.of_Z 4 else F32.of_Z 2)
                          /\ e_r e = (if r_boss R then F32.of_Z 14 else F32.of_Z 12)
                          /\ e_speed e = (if r_boss R then F32.of_Z 70 else F32.of_Z 55))
                (r_boss R) (Z.to_nat (if r_boss R then 6 else c)) 0 [] g1) as HB.
  pose proof (spawnLoop_boss_kinds (Z.to_nat 6) 0 [] g1) as HK.
  destruct (r_boss R) eqn:Eb.
  - destruct (spawnLoop true (Z.to_nat 6) 0 [] g1) as [es g2]. simpl fst in *.
    cbn [r_enemies r_exists r_boss r_doors set_cleared set_enemies].
    split; [apply HA; [intros; repeat split; auto | lia | constructor]|].
    split; [intros _; split; [exact HK|apply HB; [intros; repeat split | lia | constructor]]|].
    split; [discriminate|]. repeat split; assumption.
  - destruct (spawnLoop false (Z.to_nat c) 0 [] g1) as [es g2]. simpl fst in *.
    cbn [r_enemies r_exists r_boss r_doors set_cleared set_enemies].
    split; [apply HA; [intros; repeat split; auto | lia | constructor]|].
    split; [discriminate|].
    split; [intros _; apply HB; [intros; repeat split | lia | constructor]|].
    repeat split; assumption.
Qed.

(** ** The floor-cleared test *)

Lemma floorCleared_iff (g : Grid) :
  floorCleared g = true
  <-> (exists x y, existsAt g x y = true)
      /\ forall x y, existsAt g x y = true -> r_cleared (getRoom g x y) = true.
Proof.
  unfold floorCleared. rewrite andb_true_iff, existsb_exists, forallb_forall. split.
  - intros [([x y] & _ & Hex) Hall]. split; [exists x, y; exact Hex|].
    intros a b Hab. specialize (Hall (a, b)). simpl in Hall.
    rewrite Hab in Hall. simpl in Hall. apply Hall.
    apply In_allCells. eapply existsAt_inb. exact Hab.
  - intros [(x & y & Hex) Hall]. split.
    + exists (x, y). split; [|exact Hex]. apply In_allCells. eapply existsAt_inb. exact Hex.
    + intros [a b] _. simpl. destruct (existsAt g a b) eqn:E; [|reflexivity].
      simpl. apply Hall. exact E.
Qed.

(** X3. [checkAllCleared] sets [g_allCleared] exactly when the grid has
    at least one existing room and every existing room is cleared (rooms
    that do not exist are ignored); it raises [g_runOver] in that case,
    never lowers it, and changes nothing else. *)
Theorem checkAllCleared_iff (s : State) :
  let s' := checkAllCleared s in
  let g := g_dungeon s in
  (g_allCleared s' = true
   <-> (exists x y, existsAt g x y = true)
       /\ forall x y, existsAt g x y = true -> r_cleared (getRoom g x y) = true)
  /\ (g_runOver s' = true <-> g_runOver s = true \/ g_allCleared s' = true)
  /\ s' = set_runOver (set_allCleared s (g_allCleared s')) (g_runOver s').
Proof.
  cbv zeta. destruct (checkAllCleared_spec s) as [H1 H2].
  split; [rewrite H1; apply floorCleared_iff|]. split.
  - rewrite H2, H1. apply orb_true_iff.
  - unfold checkAllCleared. destruct (fold_left _ _ _) as [any allclear]. cbv zeta.
    destruct s as [p g rx ry sx sy over allc rng cd run].
    cbn [g_allCleared set_allCleared g_runOver set_runOver g_dungeon g_player g_rx g_ry
         g_startx g_starty g_rng hurtCD g_running].
    destruct (any && allclear); destruct over; reflexivity.
Qed.

(** ** What a fixed update does to the rooms *)

Lemma tickEntities_rooms (k : Keys) (s : State) (x y : Z) :
  wfGrid (g_dungeon s) ->
  let R := getRoom (g_dungeon s) x y in
  let R' := getRoom (g_dungeon (tickEntities k s)) x y in
  r_exists R' = r_exists R /\ r_doors R' = r_doors R /\ r_boss R' = r_boss R
  /\ (r_cleared R = true -> r_cleared R' = true)
  /\ (length (r_enemies R') <= length (r_enemies R))%nat
  /\ ((x =? g_rx s) && (y =? g_ry s) = false -> R' = R).
Proof.
  intros Hwf. cbv zeta. unfold tickEntities. cbv zeta.
  destruct (tickInput_frame k s) as (A1 & _). cbv zeta in A1.
  set (s3 := tickInput k s) in *.
  set (s4 := updateEnemies (g_rx s) (g_ry s) DT s3).
  assert (Hwf4 : wfGrid (g_dungeon s4)).
  { unfold s4, updateEnemies. cbn [g_dungeon set_dungeon]. apply wf_modRoom. congruence. }
  assert (H4 : getRoom (g_dungeon s4) x y
               = if (g_rx s =? x) && (g_ry s =? y) && inb (g_rx s) (g_ry s)
                 then updateEnemiesRoom (pl_p (g_player s3)) DT
                        (getRoom (g_dungeon s) (g_rx s) (g_ry s))
                 else getRoom (g_dungeon s) x y).
  { unfold s4, updateEnemies. cbn [g_dungeon set_dungeon].
    rewrite getRoom_modRoom by congruence. rewrite A1. reflexivity. }
  unfold updateBullets. cbv zeta.
  pose proof (bulletsLoop_length DT (pl_shots (g_player s4))
                (r_enemies (getRoom (g_dungeon s4) (g_rx s) (g_ry s)))) as Hl.
  destruct (bulletsLoop DT _ _) as [bs es]. simpl snd in Hl.
  cbn [g_dungeon set_player set_dungeon].
  rewrite getRoom_setRoom by assumption.
  rewrite (Z.eqb_sym x (g_rx s)), (Z.eqb_sym y (g_ry s)).
  destruct ((g_rx s =? x) && (g_ry s =? y)) eqn:E.
  - apply eqb_pair_true in E. destruct E as [<- <-].
    destruct (inb (g_rx s) (g_ry s)) eqn:Hin; cbn [andb].
    + cbn [r_exists r_doors r_boss r_cleared r_enemies set_enemies]. rewrite Hl.
      rewrite H4, ?Z.eqb_refl, ?Hin. cbn [andb].
      destruct (updateEnemiesRoom_spec (pl_p (g_player s3)) DT
                  (getRoom (g_dungeon s) (g_rx s) (g_ry s)))
        as (_ & B2 & B3 & B4 & B5 & B6). cbv zeta in *.
      rewrite B2, B3, B4, B5, B6.
      repeat split; try reflexivity.
      * intros ->. reflexivity.
      * apply filter_length_le.
      * discriminate.
    + rewrite H4, ?Z.eqb_refl, ?Hin. cbn [andb].
      repeat split; auto.
  - cbn [andb]. rewrite H4, ?E. cbn [andb]. repeat split; auto.
Qed.

Lemma tick_dungeon (k : Keys) (s : State) :
  g_dungeon (tick k s) = if g_runOver s then g_dungeon s else g_dungeon (tickEntities k s).
Proof.
  destruct (g_runOver s) eqn:Hr.
  - unfold tick. rewrite Hr. reflexivity.
  - apply (tick_keeps k s Hr).
Qed.

(** X4. A fixed update changes the dungeon only in the room under the
    cursor: every other room comes out identical.  In every room the exists
    flag, the doors and the boss flag are kept, a cleared flag that is set
    stays set, and the enemy list never grows. *)
Theorem tick_rooms (k : Keys) (s : State) (x y : Z) :
  wfGrid (g_dungeon s) ->
  let R := getRoom (g_dungeon s) x y in
  let R' := getRoom (g_dungeon (tick k s)) x y in
  r_exists R' = r_exists R /\ r_doors R' = r_doors R /\ r_boss R' = r_boss R
  /\ (r_cleared R = true -> r_cleared R' = true)
  /\ (length (r_enemies R') <= length (r_enemies R))%nat
  /\ ((x, y) <> (g_rx s, g_ry s) -> R' = R).
Proof.
  intros Hwf. cbv zeta. rewrite tick_dungeon. destruct (g_runOver s).
  - repeat split; auto.
  - destruct (tickEntities_rooms k s x y Hwf) as (H1 & H2 & H3 & H4 & H5 & H6).
    cbv zeta in *. repeat split; try assumption.
    intros Hne. apply H6. destruct ((x =? g_rx s) && (y =? g_ry s)) eqn:E; [|reflexivity].
    apply eqb_pair_true in E. destruct E; subst. contradiction Hne. reflexivity.
Qed.

Lemma tick_rooms_witness :
  let s := duelState in
  let R := getRoom (g_dungeon s) 2 2 in
  let R' := getRoom (g_dungeon (tick noKeys s)) 2 2 in
  r_exists R' = r_exists R /\ r_doors R' = r_doors R /\ r_boss R' = r_boss R
  /\ (r_cleared R = true -> r_cleared R' = true)
  /\ (length (r_enemies R') <= length (r_enemies R))%nat
  /\ ((2, 2) <> (g_rx s, g_ry s) -> R' = R).
Proof.
  apply (tick_rooms noKeys duelState 2 2).
  apply wf_modRoom, wf_twoRooms.
Defined.

(** ** The dungeon during a run *)

Lemma graph_tree (gc g : Grid) :
  Carved 2 2 gc ->
  (forall x y, r_exists (getRoom g x y) = r_exists (getRoom gc x y)
               /\ r_doors (getRoom g x y) = r_doors (getRoom gc x y)) ->
  doorsClosed g
  /\ existsAt g 2 2 = true
  /\ (forall x y, existsAt g x y = true -> reach g 2 2 x y)
  /\ (forall a p, ~ simpleCycle g a p).
Proof.
  intros HC Hsame.
  assert (Hex : forall x y, existsAt g x y = existsAt gc x y)
    by (intros; unfold existsAt; apply Hsame).
  assert (Hdoor : forall x y d, doorAt g x y d = doorAt gc x y d).
  { intros x y d. unfold doorAt. destruct (Hsame x y) as [_ ->]. reflexivity. }
  split; [|split; [|split]].
  - intros x y d Hd. rewrite Hdoor in Hd. rewrite !Hex, Hdoor.
    apply (Carved_doorsClosed 2 2 gc HC). assumption.
  - rewrite Hex. apply Carved_start_exists; [reflexivity|assumption].
  - intros x y Hxy. rewrite Hex in Hxy.
    apply reach_mono with (g := gc); [intros; rewrite Hdoor; assumption|].
    apply Carved_connected; assumption.
  - intros a p (Hlen & Hnd & Hch & Hcl).
    apply (Carved_acyclic 2 2 gc HC a p).
    assert (Hadj : forall u v, adj g u v -> adj gc u v).
    { intros u v [d [Hd ->]]. exists d. rewrite Hdoor in Hd. split; [assumption|reflexivity]. }
    repeat split; try assumption.
    + apply chain_weaken with (g := g); [|assumption].
      intros u v _ _. apply Hadj.
    + apply Hadj. assumption.
Qed.

Lemma resetRun_runInv (s : State) : runInv (resetRun s).
Proof.
  destruct (resetRun_fields s) as (Hd & Hx & Hy & Hsx & Hsy & _).
  destruct (carveDungeon_generated s) as (bx & by_ & gc & HC & _ & _ & Hwf & Hbe & _ & Hrooms).
  pose proof (carveDungeon_count_eq s) as Hcount.
  pose proof (randint_range 6 9 (g_rng s) ltac:(lia)) as Hr.
  unfold runInv. rewrite Hd, Hx, Hy, Hsx, Hsy.
  split; [exact Hwf|]. split; [reflexivity|]. split.
  { rewrite (generated_existsAt _ bx by_ gc Hrooms).
    apply Carved_start_exists; [reflexivity|exact HC]. }
  split; [reflexivity|]. split; [reflexivity|]. split; [lia|].
  exists gc, bx, by_. split; [exact HC|]. split; [exact Hbe|].
  intros x y. destruct (generated_graph _ bx by_ gc Hrooms x y) as [H1 H2].
  split; [exact H1|]. split; [exact H2|]. apply (generated_boss _ bx by_ gc HC Hrooms).
Qed.

Lemma tick_start (k : Keys) (s : State) :
  g_startx (tick k s) = g_startx s /\ g_starty (tick k s) = g_starty s.
Proof.
  destruct (g_runOver s) eqn:Hr; [unfold tick; rewrite Hr; split; reflexivity|].
  rewrite tick_unfold by assumption.
  set (s5 := tickEntities k s).
  set (s6 := playerHitCheck (g_rx s) (g_ry s) DT s5).
  set (s7 := handleDoorsAndTransitions (g_rx s) (g_ry s) s6).
  destruct (hpCheck_frame (checkAllCleared s7)) as (_ & _ & _ & _ & A5 & A6 & _).
  destruct (checkAllCleared_frame s7) as (_ & _ & _ & _ & B5 & B6 & _).
  destruct (handleDoors_keeps (g_rx s) (g_ry s) s6) as (_ & _ & _ & _ & _ & _ & C7 & C8 & _).
  destruct (playerHitCheck_frame (g_rx s) (g_ry s) DT s5) as (_ & _ & _ & D4 & D5 & _).
  destruct (tickEntities_frame k s) as (_ & _ & E3 & E4 & _).
  cbv zeta in *. fold s5 in D4, D5, E3, E4. fold s6 in C7, C8, D4, D5. fold s7 in C7, C8.
  split; congruence.
Qed.

Lemma tick_runInv (k : Keys) (s : State) : runInv s -> runInv (tick k s).
Proof.
  intros (Hwf & Hin & Hex & Hsx & Hsy & Hcount & gc & bx & by_ & HC & Hbe & Hsame).
  destruct (g_runOver s) eqn:Hr.
  { unfold tick. rewrite Hr. unfold runInv.
    split; [exact Hwf|]. split; [exact Hin|]. split; [exact Hex|].
    split; [exact Hsx|]. split; [exact Hsy|]. split; [exact Hcount|].
    exists gc, bx, by_. split; [exact HC|]. split; [exact Hbe|exact Hsame]. }
  destruct (tick_start k s) as [S1 S2].
  destruct (tick_keeps k s Hr) as (_ & A2 & A3 & A4 & _). cbv zeta in *.
  assert (Hrooms : forall x y,
             r_exists (getRoom (g_dungeon (tickEntities k s)) x y)
             = r_exists (getRoom (g_dungeon s) x y)
             /\ r_doors (getRoom (g_dungeon (tickEntities k s)) x y)
                = r_doors (getRoom (g_dungeon s) x y)
             /\ r_boss (getRoom (g_dungeon (tickEntities k s)) x y)
                = r_boss (getRoom (g_dungeon s) x y)).
  { intros x y. destruct (tickEntities_rooms k s x y Hwf) as (H1 & H2 & H3 & _).
    cbv zeta in *. auto. }
  assert (Hwf5 : wfGrid (g_dungeon (tickEntities k s))).
  { unfold tickEntities, updateBullets, updateEnemies. cbv zeta.
    destruct (tickInput_frame k s) as (B1 & _). cbv zeta in B1.
    destruct (bulletsLoop DT _ _) as [bs es].
    cbn [g_dungeon set_player set_dungeon]. apply wf_setRoom, wf_modRoom. congruence. }
  assert (Hex5 : forall x y, existsAt (g_dungeon (tickEntities k s)) x y
                             = existsAt (g_dungeon s) x y).
  { intros x y. unfold existsAt. apply Hrooms. }
  unfold runInv. rewrite A4, A2, A3, S1, S2.
  destruct (playerHitCheck_frame (g_rx s) (g_ry s) DT (tickEntities k s)) as (C1 & C2 & C3 & _).
  destruct (tickEntities_frame k s) as (D1 & D2 & _). cbv zeta in *.
  assert (Hcur : existsAt (g_dungeon (tickEntities k s))
                   (g_rx (handleDoorsAndTransitions (g_rx s) (g_ry s)
                            (playerHitCheck (g_rx s) (g_ry s) DT (tickEntities k s))))
                   (g_ry (handleDoorsAndTransitions (g_rx s) (g_ry s)
                            (playerHitCheck (g_rx s) (g_ry s) DT (tickEntities k s))))
                 = true).
  { destruct (handleDoors_cases (g_rx s) (g_ry s)
                (playerHitCheck (g_rx s) (g_ry s) DT (tickEntities k s)))
      as [->|(_ & nx & ny & v & -> & Hn)].
    - rewrite C2, C3, D1, D2, Hex5. exact Hex.
    - cbn [g_rx g_ry set_player set_cursor]. rewrite C1 in Hn. exact Hn. }
  split; [exact Hwf5|]. split; [eapply existsAt_inb; exact Hcur|]. split; [exact Hcur|].
  split; [exact Hsx|]. split; [exact Hsy|]. split.
  { rewrite (countRooms_same (g_dungeon s)) by exact Hex5. exact Hcount. }
  exists gc, bx, by_. split; [exact HC|]. split; [exact Hbe|].
  intros x y. destruct (Hrooms x y) as (H1 & H2 & H3). destruct (Hsame x y) as (G1 & G2 & G3).
  repeat split; congruence.
Qed.

Lemma Reachable_runInv (s : State) : Reachable s -> runInv s.
Proof.
  induction 1 as [rng|k s H IH|k s H IH|s H IH].
  - apply resetRun_runInv.
  - unfold restartInput. destruct (g_runOver s && kR k); [apply resetRun_runInv|exact IH].
  - apply tick_runInv. exact IH.
  - exact IH.
Qed.

(** X5. In every reachable state the grid has its 5x5 shape and the
    room cursor is inside it, on a room that exists and is linked to the
    spawn cell by doors; the spawn cell is (2, 2).  So every read of
    [g_dungeon[g_ry][g_rx]] is in bounds. *)
Theorem Reachable_cursor (s : State) :
  Reachable s ->
  wfGrid (g_dungeon s)
  /\ 0 <= g_rx s < GRID_W /\ 0 <= g_ry s < GRID_H
  /\ existsAt (g_dungeon s) (g_rx s) (g_ry s) = true
  /\ (g_startx s, g_starty s) = (2, 2)
  /\ reach (g_dungeon s) (g_startx s) (g_starty s) (g_rx s) (g_ry s).
Proof.
  intros H. destruct (Reachable_runInv s H)
    as (Hwf & Hin & Hex & Hsx & Hsy & _ & gc & bx & by_ & HC & _ & Hsame).
  apply inb_range in Hin. destruct Hin as [Hx Hy].
  destruct (graph_tree gc (g_dungeon s) HC) as (_ & _ & Hreach & _).
  { intros x y. destruct (Hsame x y) as (H1 & H2 & _). split; assumption. }
  rewrite Hsx, Hsy. split; [exact Hwf|]. split; [exact Hx|]. split; [exact Hy|].
  split; [exact Hex|]. split; [reflexivity|]. apply Hreach. exact Hex.
Qed.

Lemma Reachable_cursor_witness :
  let s := tick noKeys (initState demoRng) in
  wfGrid (g_dungeon s)
  /\ 0 <= g_rx s < GRID_W /\ 0 <= g_ry s < GRID_H
  /\ existsAt (g_dungeon s) (g_rx s) (g_ry s) = true
  /\ (g_startx s, g_starty s) = (2, 2)
  /\ reach (g_dungeon s) (g_startx s) (g_starty s) (g_rx s) (g_ry s).
Proof.
  apply (Reachable_cursor (tick noKeys (initState demoRng))).
  apply Reach_tick, Reach_init.
Defined.

(** X6. The shape of the dungeon never changes during play: in every
    reachable state the doors join existing rooms only and are reciprocal,
    every existing room is reachable from the spawn cell, no cycle of doors
    exists, the number of rooms is between 6 and 9, and exactly one cell,
    an existing room, carries the boss flag. *)
Theorem Reachable_tree (s : State) :
  Reachable s ->
  let g := g_dungeon s in
  doorsClosed g
  /\ existsAt g 2 2 = true
  /\ (forall x y, existsAt g x y = true -> reach g 2 2 x y)
  /\ (forall a p, ~ simpleCycle g a p)
  /\ 6 <= countRooms g <= 9
  /\ exists bx by_,
       existsAt g bx by_ = true
       /\ forall x y, r_boss (getRoom g x y) = true <-> (x = bx /\ y = by_).
Proof.
  intros H. cbv zeta. destruct (Reachable_runInv s H)
    as (_ & _ & _ & _ & _ & Hcount & gc & bx & by_ & HC & Hbe & Hsame).
  destruct (graph_tree gc (g_dungeon s) HC) as (T1 & T2 & T3 & T4).
  { intros x y. destruct (Hsame x y) as (H1 & H2 & _). split; assumption. }
  split; [exact T1|]. split; [exact T2|]. split; [exact T3|]. split; [exact T4|].
  split; [exact Hcount|]. exists bx, by_. split.
  - unfold existsAt. destruct (Hsame bx by_) as (-> & _). exact Hbe.
  - intros x y. destruct (Hsame x y) as (_ & _ & ->). split.
    + intros E. apply eqb_pair_true in E. exact E.
    + intros [-> ->]. rewrite !Z.eqb_refl. reflexivity.
Qed.

Lemma Reachable_tree_witness :
  let g := g_dungeon (tick noKeys (initState demoRng)) in
  doorsClosed g
  /\ existsAt g 2 2 = true
  /\ (forall x y, existsAt g x y = true -> reach g 2 2 x y)
  /\ (forall a p, ~ simpleCycle g a p)
  /\ 6 <= countRooms g <= 9
  /\ exists bx by_,
       existsAt g bx by_ = true
       /\ forall x y, r_boss (getRoom g x y) = true <-> (x = bx /\ y = by_).
Proof.
  apply (Reachable_tree (tick noKeys (initState demoRng))).
  apply Reach_tick, Reach_init.
Defined.

(** ** Door transitions *)

Lemma tryGo_eq (R : Room) (d : Dir) (nx ny : Z) (v : Vec) (s : State) :
  tryGo R d nx ny v s
  = if door_get (r_doors R) (dir_int d)
       && circleRectOverlap (pl_p (g_player s)) (pl_r (g_player s))
                            (InflateRect (doorRect d) 10 10)
    then Some (set_player (set_cursor s nx ny) (set_pos (g_player s) v))
    else None.
Proof.
  unfold tryGo. destruct (door_get (r_doors R) (dir_int d)); [|reflexivity].
  simpl. reflexivity.
Qed.

Lemma step_coords (x y : Z) :
  (stepx x Up = x /\ stepy y Up = y - 1)
  /\ (stepx x Down = x /\ stepy y Down = y + 1)
  /\ (stepx x Left = x - 1 /\ stepy y Left = y)
  /\ (stepx x Right = x + 1 /\ stepy y Right = y).
Proof. unfold stepx, stepy. repeat split; lia. Qed.

Lemma inb_step (x y : Z) :
  inb x y = true ->
  inb x (y - 1) = (y >? 0) /\ inb x (y + 1) = (y <? GRID_H - 1)
  /\ inb (x - 1) y = (x >? 0) /\ inb (x + 1) y = (x <? GRID_W - 1).
Proof.
  intros H. apply inb_range in H. unfold inb, GRID_W, GRID_H in *.
  repeat split; apply Bool.eq_true_iff_eq; rewrite !andb_true_iff; lia.
Qed.

Lemma go_component (R : Room) (d : Dir) (nx ny : Z) (v : Vec) (s : State) (b e : bool) :
  (if door_get (r_doors R) (dir_int d) && b && e then tryGo R d nx ny v s else None)
  = if door_get (r_doors R) (dir_int d) && b && e
       && circleRectOverlap (pl_p (g_player s)) (pl_r (g_player s))
                            (InflateRect (doorRect d) 10 10)
    then Some (set_player (set_cursor s nx ny) (set_pos (g_player s) v))
    else None.
Proof.
  rewrite tryGo_eq. destruct (door_get (r_doors R) (dir_int d)); destruct b; destruct e;
    reflexivity.
Qed.

(** The door phase as a search: with the room cleared, the first open
    direction of Up, Down, Left, Right is taken. *)
Lemma handleDoors_find (X Y : Z) (s : State) :
  inb (g_rx s) (g_ry s) = true ->
  handleDoorsAndTransitions X Y s
  = if r_cleared (getRoom (g_dungeon s) X Y)
    then match find (canGo X Y s) doorOrder with
         | Some d => moved s d
         | None => s
         end
    else s.
Proof.
  intros Hin. unfold handleDoorsAndTransitions. cbv zeta.
  destruct (r_cleared (getRoom (g_dungeon s) X Y)); [|reflexivity].
  simpl negb. cbv iota. rewrite !go_component.
  destruct (step_coords (g_rx s) (g_ry s)) as ((U1 & U2) & (D1 & D2) & (L1 & L2) & (R1 & R2)).
  destruct (inb_step _ _ Hin) as (IU & ID & IL & IR).
  assert (EU : canGo X Y s Up
               = door_get (r_doors (getRoom (g_dungeon s) X Y)) (dir_int Up)
                 && (g_ry s >? 0) && r_exists (getRoom (g_dungeon s) (g_rx s) (g_ry s - 1))
                 && circleRectOverlap (pl_p (g_player s)) (pl_r (g_player s))
                      (InflateRect (doorRect Up) 10 10))
    by (unfold canGo; rewrite U1, U2, IU; reflexivity).
  assert (ED : canGo X Y s Down
               = door_get (r_doors (getRoom (g_dungeon s) X Y)) (dir_int Down)
                 && (g_ry s <? GRID_H - 1)
                 && r_exists (getRoom (g_dungeon s) (g_rx s) (g_ry s + 1))
                 && circleRectOverlap (pl_p (g_player s)) (pl_r (g_player s))
                      (InflateRect (doorRect Down) 10 10))
    by (unfold canGo; rewrite D1, D2, ID; reflexivity).
  assert (EL : canGo X Y s Left
               = door_get (r_doors (getRoom (g_dungeon s) X Y)) (dir_int Left)
                 && (g_rx s >? 0) && r_exists (getRoom (g_dungeon s) (g_rx s - 1) (g_ry s))
                 && circleRectOverlap (pl_p (g_player s)) (pl_r (g_player s))
                      (InflateRect (doorRect Left) 10 10))
    by (unfold canGo; rewrite L1, L2, IL; reflexivity).
  assert (ER : canGo X Y s Right
               = door_get (r_doors (getRoom (g_dungeon s) X Y)) (dir_int Right)
                 && (g_rx s <? GRID_W - 1)
                 && r_exists (getRoom (g_dungeon s) (g_rx s + 1) (g_ry s))
                 && circleRectOverlap (pl_p (g_player s)) (pl_r (g_player s))
                      (InflateRect (doorRect Right) 10 10))
    by (unfold canGo; rewrite R1, R2, IR; reflexivity).
  rewrite <- EU, <- ED, <- EL, <- ER.
  unfold doorOrder, find, moved, entryPos. cbv zeta.
  destruct (canGo X Y s Up); destruct (canGo X Y s Down);
    destruct (canGo X Y s Left); destruct (canGo X Y s Right);
    cbv beta iota; cbn [orElse];
    rewrite ?U1, ?U2, ?D1, ?D2, ?L1, ?L2, ?R1, ?R2; reflexivity.
Qed.

Lemma find_first {A : Type} (f : A -> bool) (pre post : list A) (d : A) :
  (forall e, In e pre -> f e = false) -> f d = true ->
  find f (pre ++ d :: post) = Some d.
Proof.
  induction pre as [|a pre IH]; intros Hpre Hd; simpl.
  - rewrite Hd. reflexivity.
  - rewrite (Hpre a) by (left; reflexivity). apply IH; [|exact Hd].
    intros e He. apply Hpre. right. exact He.
Qed.

(** X7. The door phase, run on the room under the cursor, takes the
    first direction of Up, Down, Left, Right that is open (door bit set,
    neighbour cell in the grid and existing, player circle meeting the
    enlarged door rectangle) provided the room is cleared: the cursor moves
    to that neighbour, which exists, the player is put at that direction's
    entry point, and nothing else changes.  If the room is not cleared or no
    direction is open, the state is returned as it is. *)
Theorem door_transition (X Y : Z) (s : State) :
  inb (g_rx s) (g_ry s) = true ->
  let s' := handleDoorsAndTransitions X Y s in
  let cleared := r_cleared (getRoom (g_dungeon s) X Y) in
  (cleared = false \/ (forall d, canGo X Y s d = false) -> s' = s)
  /\ (cleared = true ->
      forall pre d post,
        doorOrder = pre ++ d :: post ->
        (forall e, In e pre -> canGo X Y s e = false) ->
        canGo X Y s d = true ->
        s' = moved s d
        /\ (g_rx s', g_ry s') = (stepx (g_rx s) d, stepy (g_ry s) d)
        /\ inb (g_rx s') (g_ry s') = true
        /\ existsAt (g_dungeon s') (g_rx s') (g_ry s') = true
        /\ pl_p (g_player s') = entryPos d).
Proof.
  intros Hin. cbv zeta. rewrite handleDoors_find by exact Hin. split.
  - intros [->|Hnone]; [reflexivity|].
    destruct (r_cleared _); [|reflexivity].
    unfold doorOrder, find. rewrite !Hnone. reflexivity.
  - intros -> pre d post Hsplit Hpre Hd.
    rewrite Hsplit. rewrite (find_first _ pre post d Hpre Hd).
    unfold canGo in Hd. rewrite !andb_true_iff in Hd. destruct Hd as [[[_ Hi] He] _].
    unfold moved, existsAt.
    cbn [g_rx g_ry g_dungeon g_player set_player set_cursor pl_p set_pos].
    repeat split; assumption.
Qed.

Lemma door_transition_witness :
  let s := duelState in
  let s' := handleDoorsAndTransitions 3 2 s in
  let cleared := r_cleared (getRoom (g_dungeon s) 3 2) in
  (cleared = false \/ (forall d, canGo 3 2 s d = false) -> s' = s)
  /\ (cleared = true ->
      forall pre d post,
        doorOrder = pre ++ d :: post ->
        (forall e, In e pre -> canGo 3 2 s e = false) ->
        canGo 3 2 s d = true ->
        s' = moved s d
        /\ (g_rx s', g_ry s') = (stepx (g_rx s) d, stepy (g_ry s) d)
        /\ inb (g_rx s') (g_ry s') = true
        /\ existsAt (g_dungeon s') (g_rx s') (g_ry s') = true
        /\ pl_p (g_player s') = entryPos d).
Proof.
  apply (door_transition 3 2 duelState). reflexivity.
Defined.

Lemma handleDoors_entry (X Y : Z) (s : State) :
  handleDoorsAndTransitions X Y s = s
  \/ exists nx ny d,
       handleDoorsAndTransitions X Y s
       = set_player (set_cursor s nx ny) (set_pos (g_player s) (entryPos d)).
Proof.
  unfold handleDoorsAndTransitions. cbv zeta.
  destruct (r_cleared (getRoom (g_dungeon s) X Y)); [|left; reflexivity].
  simpl negb. cbv iota. rewrite !go_component.
  repeat match goal with
         | |- context [if ?c then Some ?x else None] => destruct c
         end;
    cbn [orElse];
    first [ left; reflexivity
          | right; do 2 eexists; exists Up; reflexivity
          | right; do 2 eexists; exists Down; reflexivity
          | right; do 2 eexists; exists Left; reflexivity
          | right; do 2 eexists; exists Right; reflexivity ].
Qed.

(** No entry point touches a door of the room entered, for the player's
    radius of 12. *)
Lemma entry_clear (d d' : Dir) :
  circleRectOverlap (entryPos d) (F32.of_Z 12) (InflateRect (doorRect d') 10 10) = false.
Proof. destruct d, d'; vm_compute; reflexivity. Qed.

(** X8. A transition is never followed at once by another: for a player
    of radius 12 (the only radius the program gives the player), after the
    door phase has moved the cursor the player stands clear of all four
    enlarged door rectangles, so a further door phase, for any room, does
    nothing. *)
Theorem door_no_retrigger (X Y : Z) (s : State) :
  pl_r (g_player s) = F32.of_Z 12 ->
  let s' := handleDoorsAndTransitions X Y s in
  s' = s
  \/ ((forall d, circleRectOverlap (pl_p (g_player s')) (pl_r (g_player s'))
                   (InflateRect (doorRect d) 10 10) = false)
      /\ forall X' Y', handleDoorsAndTransitions X' Y' s' = s').
Proof.
  intros Hr. cbv zeta.
  destruct (handleDoors_entry X Y s) as [->|(nx & ny & d & ->)]; [left; reflexivity|].
  right.
  assert (Hclear : forall d', circleRectOverlap
             (pl_p (g_player (set_player (set_cursor s nx ny)
                                (set_pos (g_player s) (entryPos d)))))
             (pl_r (g_player (set_player (set_cursor s nx ny)
                                (set_pos (g_player s) (entryPos d)))))
             (InflateRect (doorRect d') 10 10) = false).
  { intros d'. cbn [g_player set_player pl_p pl_r set_pos]. rewrite Hr. apply entry_clear. }
  split; [exact Hclear|].
  intros X' Y'. unfold handleDoorsAndTransitions. cbv zeta.
  destruct (r_cleared _); [|reflexivity]. simpl negb. cbv iota.
  rewrite !go_component. rewrite !Hclear. rewrite !andb_false_r. reflexivity.
Qed.

Lemma door_no_retrigger_witness :
  let s := gateState in
  let s' := handleDoorsAndTransitions 2 2 s in
  (g_rx s, g_ry s) = (2, 2) /\ (g_rx s', g_ry s') = (3, 2)
  /\ pl_p (g_player s) = vecZ 808 270 /\ pl_p (g_player s') = vecZ 180 270
  /\ (forall d, circleRectOverlap (pl_p (g_player s')) (pl_r (g_player s'))
                  (InflateRect (doorRect d) 10 10) = false)
  /\ forall X' Y', handleDoorsAndTransitions X' Y' s' = s'.
Proof.
  cbv zeta. split; [reflexivity|]. split; [vm_compute; reflexivity|].
  split; [reflexivity|]. split; [vm_compute; reflexivity|].
  destruct (door_no_retrigger 2 2 gateState eq_refl) as [E|H]; [|exact H].
  apply (f_equal g_rx) in E. vm_compute in E. discriminate E.
Defined.

(** ** Bullets *)

Lemma bulletHit_none (b : Bullet) (es : list Enemy) :
  (forall e, In e es -> bulletTouches b e = false) -> bulletHit b es = (false, es).
Proof.
  induction es as [|e es IH]; intros H; [reflexivity|]. cbn [bulletHit].
  pose proof (H e (or_introl eq_refl)) as He. unfold bulletTouches in He.
  rewrite IH by (intros a Ha; apply H; right; exact Ha).
  destruct (e_dead e); [reflexivity|]. simpl in He. rewrite He. reflexivity.
Qed.

(** X9. A bullet damages at most one enemy per pass: the first enemy of
    the room's list that is alive and within reach (squared distance at
    most the squared sum of the radii) loses 1 hp and is marked dead when
    its hp is then 0 or less; every other enemy, before or after it in the
    list, is left untouched, and dead enemies never absorb a bullet.  With
    no such enemy the list is unchanged and no hit is reported. *)
Theorem bulletHit_first (b : Bullet) (es : list Enemy) :
  ((forall e, In e es -> bulletTouches b e = false) -> bulletHit b es = (false, es))
  /\ (forall pre e post,
         es = pre ++ e :: post ->
         (forall a, In a pre -> bulletTouches b a = false) ->
         bulletTouches b e = true ->
         bulletHit b es = (true, pre ++ damageEnemy e :: post)
         /\ e_hp (damageEnemy e) = (e_hp e - F32.of_Z 1)%f32
         /\ e_dead (damageEnemy e) = (e_hp e - F32.of_Z 1 <=? F32.zero)%f32).
Proof.
  split; [apply bulletHit_none|].
  intros pre e post -> Hpre He.
  unfold bulletTouches in He. apply andb_prop in He. destruct He as [Hd Ht].
  apply negb_true_iff in Hd. split; [|split].
  - induction pre as [|a pre IH]; cbn [app bulletHit].
    + rewrite Hd, Ht. reflexivity.
    + pose proof (Hpre a (or_introl eq_refl)) as Ha. unfold bulletTouches in Ha.
      rewrite IH by (intros c Hc; apply Hpre; right; exact Hc).
      destruct (e_dead a); [reflexivity|]. simpl in Ha. rewrite Ha. reflexivity.
  - reflexivity.
  - unfold damageEnemy. cbv zeta. cbn [e_dead]. rewrite Hd.
    destruct (e_hp e - F32.of_Z 1 <=? F32.zero)%f32; reflexivity.
Qed.

Lemma sameBody_refl (e : Enemy) : sameBody e e.
Proof. unfold sameBody. repeat split; reflexivity. Qed.

Lemma sameBody_trans (a b c : Enemy) : sameBody a b -> sameBody b c -> sameBody a c.
Proof.
  intros (A1 & A2 & A3 & A4 & A5 & A6) (B1 & B2 & B3 & B4 & B5 & B6).
  unfold sameBody. repeat split; try congruence.
  intros Hd. specialize (A6 Hd). subst b. apply B6. exact Hd.
Qed.

Lemma Forall2_sameBody_refl (es : list Enemy) : Forall2 sameBody es es.
Proof. induction es; constructor; auto using sameBody_refl. Qed.

Lemma Forall2_sameBody_trans (a b c : list Enemy) :
  Forall2 sameBody a b -> Forall2 sameBody b c -> Forall2 sameBody a c.
Proof.
  intros H. revert c. induction H as [|x y l l' Hxy Hl IH]; intros c Hc.
  - inversion Hc. constructor.
  - inversion Hc; subst. constructor; [eapply sameBody_trans; eassumption|auto].
Qed.

Lemma bulletHit_sameBody (b : Bullet) (es : list Enemy) :
  Forall2 sameBody es (snd (bulletHit b es)).
Proof.
  induction es as [|e es IH]; [constructor|]. cbn [bulletHit].
  destruct (e_dead e) eqn:Hd.
  - destruct (bulletHit b es) as [h r]. simpl snd in *.
    constructor; [apply sameBody_refl|exact IH].
  - destruct (circlesTouch _ _ _ _).
    + simpl snd. constructor; [|apply Forall2_sameBody_refl].
      unfold sameBody, damageEnemy. cbv zeta. cbn. repeat split; try reflexivity.
      intros E. congruence.
    + destruct (bulletHit b es) as [h r]. simpl snd in *.
      constructor; [apply sameBody_refl|exact IH].
Qed.

Lemma bulletStep_sameBody (dt : float) (b : Bullet) (es : list Enemy) :
  Forall2 sameBody es (snd (bulletStep dt b es)).
Proof.
  unfold bulletStep. destruct (b_dead b); [apply Forall2_sameBody_refl|]. cbv zeta.
  match goal with
  | |- context [bulletHit ?b1 es] =>
      pose proof (bulletHit_sameBody b1 es) as Hh; destruct (bulletHit b1 es) as [h es1]
  end.
  exact Hh.
Qed.

(** What the loop over the bullets returns. *)
Lemma bulletsLoop_spec (dt : float) (bs : list Bullet) (es : list Enemy) :
  let bs' := fst (bulletsLoop dt bs es) in
  let es' := snd (bulletsLoop dt bs es) in
  Forall2 sameBody es es'
  /\ Forall2 (fun b b' =>
                (b_dead b = true /\ b' = b)
                \/ (b_dead b = false
                    /\ b_p b' = b_p (flown dt b) /\ b_v b' = b_v b /\ b_r b' = b_r b
                    /\ b_ttl b' = b_ttl (flown dt b)
                    /\ (b_dead b' = false ->
                        (b_ttl b' <=? F32.zero)%f32 = false
                        /\ outOfRoom (b_p b') = false))) bs bs'.
Proof.
  cbv zeta. revert es; induction bs as [|b bs IH]; intros es; cbn [bulletsLoop].
  - simpl. split; [apply Forall2_sameBody_refl|constructor].
  - pose proof (bulletStep_sameBody dt b es) as Hs.
    assert (Hb : (b_dead b = true /\ fst (bulletStep dt b es) = b)
                 \/ (b_dead b = false
                     /\ b_p (fst (bulletStep dt b es)) = b_p (flown dt b)
                     /\ b_v (fst (bulletStep dt b es)) = b_v b
                     /\ b_r (fst (bulletStep dt b es)) = b_r b
                     /\ b_ttl (fst (bulletStep dt b es)) = b_ttl (flown dt b)
                     /\ (b_dead (fst (bulletStep dt b es)) = false ->
                         (b_ttl (fst (bulletStep dt b es)) <=? F32.zero)%f32 = false
                         /\ outOfRoom (b_p (fst (bulletStep dt b es))) = false))).
    { unfold bulletStep. destruct (b_dead b) eqn:Hd; [left; split; reflexivity|].
      right. cbv zeta. destruct (bulletHit _ es) as [h es1].
      cbn [fst b_p b_v b_r b_ttl b_dead flown].
      repeat split; try reflexivity;
        destruct h; try discriminate;
          destruct (outOfRoom (vadd (b_p b) (vscale (b_v b) dt))); try discriminate;
            destruct (b_ttl b - dt <=? F32.zero)%f32; try discriminate; reflexivity. }
    destruct (bulletStep dt b es) as [b' es1]. simpl fst in Hb. simpl snd in Hs.
    destruct (IH es1) as [I1 I2]. destruct (bulletsLoop dt bs es1) as [r es2].
    simpl fst in *. simpl snd in *. split.
    + eapply Forall2_sameBody_trans; eassumption.
    + constructor; assumption.
Qed.


Lemma Subseq_length {A : Type} (l l' : list A) :
  Subseq l l' -> (length l <= length l')%nat.
Proof. induction 1; simpl; lia. Qed.










(** X11. The bullet pass never moves an enemy and never changes its
    radius, speed, kind or patrol direction; an enemy that is already dead
    is left exactly as it is; the list keeps its length and order.  The
    room's flags and doors and every other room are untouched. *)
Theorem updateBullets_enemies (X Y : Z) (dt : float) (s : State) :
  wfGrid (g_dungeon s) -> inb X Y = true ->
  let R := getRoom (g_dungeon s) X Y in
  let g' := g_dungeon (updateBullets X Y dt s) in
  Forall2 sameBody (r_enemies R) (r_enemies (getRoom g' X Y))
  /\ getRoom g' X Y = set_enemies R (r_enemies (getRoom g' X Y))
  /\ forall x y, (x, y) <> (X, Y) -> getRoom g' x y = getRoom (g_dungeon s) x y.
Proof.
  intros Hwf Hin. cbv zeta. unfold updateBullets. cbv zeta.
  destruct (bulletsLoop_spec dt (pl_shots (g_player s))
              (r_enemies (getRoom (g_dungeon s) X Y))) as [H1 _]. cbv zeta in H1.
  destruct (bulletsLoop dt _ _) as [bs es]. simpl snd in H1.
  cbn [g_dungeon set_player set_dungeon].
  rewrite getRoom_setRoom by assumption. rewrite !Z.eqb_refl, Hin. cbn [andb].
  cbn [r_enemies set_enemies]. split; [exact H1|]. split; [reflexivity|].
  intros x y Hne. rewrite getRoom_setRoom by assumption.
  destruct ((X =? x) && (Y =? y)) eqn:E; [|reflexivity].
  apply eqb_pair_true in E. destruct E; subst. contradiction Hne. reflexivity.
Qed.

Lemma updateBullets_enemies_witness :
  let s := duelState in
  let R := getRoom (g_dungeon s) 3 2 in
  let g' := g_dungeon (updateBullets 3 2 DT s) in
  Forall2 sameBody (r_enemies R) (r_enemies (getRoom g' 3 2))
  /\ getRoom g' 3 2 = set_enemies R (r_enemies (getRoom g' 3 2))
  /\ forall x y, (x, y) <> (3, 2) -> getRoom g' x y = getRoom (g_dungeon s) x y.
Proof.
  apply (updateBullets_enemies 3 2 DT duelState).
  - apply wf_modRoom, wf_twoRooms.
  - reflexivity.
Defined.

(** ** Clamping *)

Lemma ltb_irrefl (x : float) : (x <? x)%f32 = false.
Proof.
  unfold F32.ltb, SFltb, SFcompare.
  destruct x as [s|s| |s m e]; try (destruct s; reflexivity); try reflexivity.
  rewrite Z.compare_refl.
  change (Pos.compare_cont Eq m m) with (Pos.compare m m). rewrite Pos.compare_refl.
  destruct s; reflexivity.
Qed.

Lemma clamp_bounds (v lo hi : float) :
  (hi <? lo)%f32 = false ->
  (F32.clamp v lo hi <? lo)%f32 = false
  /\ (F32.clamp v lo hi >? hi)%f32 = false.
Proof.
  intros H. unfold F32.clamp, F32.gtb. fold (F32.ltb hi v).
  destruct (F32.ltb v lo) eqn:E1.
  - split; [apply ltb_irrefl|exact H].
  - destruct (F32.ltb hi v) eqn:E2.
    + split; [exact H|apply ltb_irrefl].
    + split; assumption.
Qed.

(** X12. [clamp(v, lo, hi)] with bounds in order (not [hi < lo]) returns
    a value that is neither below [lo] nor above [hi], for every float [v]
    whatsoever; clamping is idempotent, and a value that passes both tests,
    NaN included, is returned as it is. *)
Theorem clamp_spec (v lo hi : float) :
  (hi <? lo)%f32 = false ->
  let r := F32.clamp v lo hi in
  (r <? lo)%f32 = false /\ (r >? hi)%f32 = false
  /\ F32.clamp r lo hi = r
  /\ ((v <? lo)%f32 = false -> (v >? hi)%f32 = false -> r = v)
  /\ F32.clamp S754_nan lo hi = S754_nan.
Proof.
  intros H. cbv zeta. destruct (clamp_bounds v lo hi H) as [H1 H2].
  split; [exact H1|]. split; [exact H2|]. split; [|split].
  - unfold F32.clamp at 1. rewrite H1, H2. reflexivity.
  - intros A B. unfold F32.clamp. rewrite A, B. reflexivity.
  - clear. destruct hi; reflexivity.
Qed.

Lemma clamp_spec_witness :
  let r := F32.clamp (F32.of_Z 1000) (F32.of_Z 152) (F32.of_Z 808) in
  (r <? F32.of_Z 152)%f32 = false /\ (r >? F32.of_Z 808)%f32 = false
  /\ F32.clamp r (F32.of_Z 152) (F32.of_Z 808) = r
  /\ ((F32.of_Z 1000 <? F32.of_Z 152)%f32 = false ->
      (F32.of_Z 1000 >? F32.of_Z 808)%f32 = false -> r = F32.of_Z 1000)
  /\ F32.clamp S754_nan (F32.of_Z 152) (F32.of_Z 808) = S754_nan.
Proof.
  apply (clamp_spec (F32.of_Z 1000) (F32.of_Z 152) (F32.of_Z 808)). reflexivity.
Defined.

Lemma clampInner_within (p : Vec) (r : float) :
  r = F32.of_Z 12 \/ r = F32.of_Z 14 -> withinWalls (clampInner p r) (F32.to_int r).
Proof.
  intros Hr. unfold withinWalls, clampInner. cbn [vx vy].
  destruct Hr as [-> | ->];
    (split; [|split; [|split]]; apply clamp_bounds; vm_compute; reflexivity).
Qed.

Lemma clampInner_inside (p : Vec) (r : float) :
  r = F32.of_Z 12 \/ r = F32.of_Z 14 -> insideWalls (clampInner p r) (F32.to_int r).
Proof.
  intros Hr. unfold insideWalls, clampInner. cbn [vx vy].
  destruct Hr as [-> | ->]; split; intros Hn;
    (apply clamp_num; [vm_compute; reflexivity|]);
    (rewrite clamp_nan_iff in Hn; [exact Hn|reflexivity|reflexivity]).
Qed.

Lemma clampInner_nan (p : Vec) (r : float) :
  r = F32.of_Z 12 \/ r = F32.of_Z 14 ->
  F32.is_nan (vx (clampInner p r)) = F32.is_nan (vx p)
  /\ F32.is_nan (vy (clampInner p r)) = F32.is_nan (vy p).
Proof.
  intros Hr. unfold clampInner. cbn [vx vy].
  destruct Hr as [-> | ->]; split; apply clamp_nan_iff; reflexivity.
Qed.

(** The player's velocity for each state of the four keys is a vector of
    finite numbers. *)
Lemma moveDir_finite (u d l r : bool) :
  let mv0 := keyVec u d l r in
  let mv := if nonzero mv0 then norm mv0 else mv0 in
  F32.is_finite (vx mv * F32.of_Z 125)%f32 = true
  /\ F32.is_finite (vy mv * F32.of_Z 125)%f32 = true.
Proof. destruct u, d, l, r; vm_compute; split; reflexivity. Qed.

(** X13. Player movement keeps the player inside the walls: for the
    player's radius 12 and speed 125, a finite time step and an old
    position of finite coordinates, whatever the keys, the position after
    [playerUpdateMove] has x within 152..808 and y within 102..438.  Only
    the position changes.  Without the finiteness conditions the result
    still fails the four wall tests (no coordinate is below the lower or
    above the upper bound), which a NaN does too: an old coordinate that
    is a NaN stays a NaN. *)
Theorem playerUpdateMove_within (k : Keys) (dt : float) (s : State) :
  pl_r (g_player s) = F32.of_Z 12 ->
  let s' := playerUpdateMove k dt s in
  let p := pl_p (g_player s) in
  let p' := pl_p (g_player s') in
  (pl_speed (g_player s) = F32.of_Z 125 -> F32.is_finite dt = true ->
   F32.is_finite (vx p) = true -> F32.is_finite (vy p) = true ->
   (F32.of_Z 152 <=? vx p')%f32 = true /\ (vx p' <=? F32.of_Z 808)%f32 = true
   /\ (F32.of_Z 102 <=? vy p')%f32 = true /\ (vy p' <=? F32.of_Z 438)%f32 = true)
  /\ (vx p' <? F32.of_Z 152)%f32 = false /\ (vx p' >? F32.of_Z 808)%f32 = false
  /\ (vy p' <? F32.of_Z 102)%f32 = false /\ (vy p' >? F32.of_Z 438)%f32 = false
  /\ (F32.is_nan (vx p) = true -> F32.is_nan (vx p') = true)
  /\ (F32.is_nan (vy p) = true -> F32.is_nan (vy p') = true)
  /\ s' = set_player s (set_pos (g_player s) p').
Proof.
  intros Hr. cbv zeta. unfold playerUpdateMove. cbv zeta.
  cbn [g_player set_player pl_p set_pos]. rewrite Hr.
  remember (if nonzero (keyVec (kW k) (kS k) (kA k) (kD k))
            then norm (keyVec (kW k) (kS k) (kA k) (kD k))
            else keyVec (kW k) (kS k) (kA k) (kD k)) as mv eqn:Emv.
  remember (vadd (pl_p (g_player s)) (vscale (vscale mv (pl_speed (g_player s))) dt))
    as pos eqn:Epos.
  destruct (clampInner_within pos (F32.of_Z 12) (or_introl eq_refl)) as (H1 & H2 & H3 & H4).
  destruct (clampInner_inside pos (F32.of_Z 12) (or_introl eq_refl)) as (I1 & I2).
  destruct (clampInner_nan pos (F32.of_Z 12) (or_introl eq_refl)) as (N1 & N2).
  split; [|split; [exact H1|split; [exact H2|split; [exact H3|split; [exact H4|]]]]].
  - intros Hs Hdt Hx Hy.
    destruct (moveDir_finite (kW k) (kS k) (kA k) (kD k)) as [Fx Fy]. cbv zeta in Fx, Fy.
    rewrite <- Emv in Fx, Fy.
    assert (Px : F32.is_nan (vx pos) = false).
    { rewrite Epos. cbn [vadd vscale vx]. rewrite Hs.
      apply add_finite_num; [exact Hx|]. apply mul_finite_num; [exact Fx|exact Hdt]. }
    assert (Py : F32.is_nan (vy pos) = false).
    { rewrite Epos. cbn [vadd vscale vy]. rewrite Hs.
      apply add_finite_num; [exact Hy|]. apply mul_finite_num; [exact Fy|exact Hdt]. }
    rewrite <- N1 in Px. rewrite <- N2 in Py.
    destruct (I1 Px) as [A B]. destruct (I2 Py) as [C D].
    repeat split; assumption.
  - split; [|split; [|reflexivity]].
    + intros Hn. rewrite N1, Epos. cbn [vadd vx].
      destruct (vx (pl_p (g_player s))); try discriminate. reflexivity.
    + intros Hn. rewrite N2, Epos. cbn [vadd vy].
      destruct (vy (pl_p (g_player s))); try discriminate. reflexivity.
Qed.

Lemma playerUpdateMove_within_witness :
  let k := mkKeys false false false true false false false false false false in
  let s' := playerUpdateMove k DT duelState in
  let p := pl_p (g_player duelState) in
  let p' := pl_p (g_player s') in
  ((pl_speed (g_player duelState) = F32.of_Z 125 -> F32.is_finite DT = true ->
    F32.is_finite (vx p) = true -> F32.is_finite (vy p) = true ->
    (F32.of_Z 152 <=? vx p')%f32 = true /\ (vx p' <=? F32.of_Z 808)%f32 = true
    /\ (F32.of_Z 102 <=? vy p')%f32 = true /\ (vy p' <=? F32.of_Z 438)%f32 = true)
   /\ (vx p' <? F32.of_Z 152)%f32 = false /\ (vx p' >? F32.of_Z 808)%f32 = false
   /\ (vy p' <? F32.of_Z 102)%f32 = false /\ (vy p' >? F32.of_Z 438)%f32 = false
   /\ (F32.is_nan (vx p) = true -> F32.is_nan (vx p') = true)
   /\ (F32.is_nan (vy p) = true -> F32.is_nan (vy p') = true)
   /\ s' = set_player duelState (set_pos (g_player duelState) p'))
  /\ pl_speed (g_player duelState) = F32.of_Z 125 /\ F32.is_finite DT = true
  /\ p = vecZ 152 270
  /\ (vx p <? vx p')%f32 = true /\ (vx p' <? F32.of_Z 154)%f32 = true
  /\ vy p' = F32.of_Z 270.
Proof.
  split.
  - apply (playerUpdateMove_within
             (mkKeys false false false true false false false false false false)
             DT duelState). reflexivity.
  - vm_compute. repeat split; reflexivity.
Defined.

(** ** The enemy update *)

Lemma enemyMove_alive (pp : Vec) (dt : float) (e : Enemy) :
  e_dead e = false ->
  exists pos pd,
    enemyMove pp dt e
    = mkEnemy (clampInner pos (e_r e)) (e_r e) (e_hp e) (e_speed e) (e_kind e) pd false
    /\ (e_kind e = 0 -> pos = pursuit pp dt e /\ pd = e_patrolDir e).
Proof.
  intros Hd. unfold enemyMove. rewrite Hd. cbv zeta.
  destruct (e_kind e =? 0) eqn:Ek.
  - eexists _, _. split; [reflexivity|]. intros _. split; reflexivity.
  - apply Z.eqb_neq in Ek. cbv beta iota.
    eexists _, _. split; [reflexivity|]. intros E. contradiction.
Qed.

(** X14. The enemy update only moves enemies.  For a room whose
    enemies have radius 12 or 14 (the radii [spawnEnemies] gives), it
    drops exactly the enemies whose dead flag is set and keeps the others
    in order; each one kept has the same radius, hp, speed and kind as
    before, and each coordinate of its new position that is a number lies
    within the wall bounds for its radius (a coordinate that is a NaN
    passes the wall tests and stays).  A chaser (kind 0) keeps its patrol
    direction and goes to the clamp of [p + u * speed * dt], where [u] is
    [player - p] scaled by [1 / L], [L] the length of [player - p], or the
    zero vector when [L] is not positive: with a speed and a time step whose sign
    bits are off, each component of the step has the sign of the
    component of [player - p], so the step is never away from the
    player. *)
Theorem updateEnemies_bodies (pp : Vec) (dt : float) (R : Room) :
  Forall (fun e => e_r e = F32.of_Z 12 \/ e_r e = F32.of_Z 14) (r_enemies R) ->
  Forall2
    (fun e e' =>
       e_r e' = e_r e /\ e_hp e' = e_hp e /\ e_speed e' = e_speed e
       /\ e_kind e' = e_kind e /\ e_dead e' = false
       /\ withinWalls (e_p e') (F32.to_int (e_r e))
       /\ insideWalls (e_p e') (F32.to_int (e_r e))
       /\ (e_kind e = 0 ->
           let d := vsub pp (e_p e) in
           let L := F32.sqrt (vx d * vx d + vy d * vy d)%f32 in
           let u := if (L >? F32.zero)%f32
                    then mkVec (vx d * (F32.of_Z 1 / L))%f32 (vy d * (F32.of_Z 1 / L))%f32
                    else mkVec F32.zero F32.zero in
           let step := mkVec (vx u * e_speed e * dt)%f32 (vy u * e_speed e * dt)%f32 in
           e_patrolDir e' = e_patrolDir e
           /\ e_p e' = clampInner (mkVec (vx (e_p e) + vx step)%f32
                                         (vy (e_p e) + vy step)%f32) (e_r e)
           /\ ((L >? F32.zero)%f32 = true ->
               F32.sign_bit (e_speed e) = false -> F32.sign_bit dt = false ->
               signOf (vx d) (vx step) /\ signOf (vy d) (vy step))))
    (filter (fun e => negb (e_dead e)) (r_enemies R))
    (r_enemies (updateEnemiesRoom pp dt R)).
Proof.
  intros HR. rewrite updateEnemiesRoom_enemies. unfold cullDead.
  induction HR as [|e es Hre Hes IH]; [constructor|].
  cbn [map filter]. rewrite enemyMove_dead.
  destruct (e_dead e) eqn:Hd; cbn [negb]; [exact IH|].
  constructor; [|exact IH].
  destruct (enemyMove_alive pp dt e Hd) as (pos & pd & -> & Hk).
  cbn [e_r e_hp e_speed e_kind e_dead e_p e_patrolDir].
  split; [reflexivity|]. split; [reflexivity|]. split; [reflexivity|].
  split; [reflexivity|]. split; [reflexivity|].
  split; [apply clampInner_within; exact Hre|].
  split; [apply clampInner_inside; exact Hre|].
  intros E. destruct (Hk E) as [-> ->]. cbv zeta.
  split; [reflexivity|]. split; [unfold pursuit; rewrite norm_explicit; reflexivity|].
  intros HL Hs Hdt. rewrite HL. cbn [vx vy].
  split; intros Hn.
  - destruct (mul_keep_sign _ dt Hdt Hn) as [-> Hn1].
    apply (unit_sign (vsub pp (e_p e)) _ (e_speed e) Hs HL). exact Hn1.
  - destruct (mul_keep_sign _ dt Hdt Hn) as [-> Hn1].
    apply (unit_sign (vsub pp (e_p e)) _ (e_speed e) Hs HL). exact Hn1.
Qed.

Lemma updateEnemies_bodies_witness :
  let pp := vecZ 152 270 in
  let R := set_enemies Room0 [chaser 500 270 1] in
  let e' := hd (chaser 0 0 0) (r_enemies (updateEnemiesRoom pp DT R)) in
  Forall2
    (fun e e' =>
       e_r e' = e_r e /\ e_hp e' = e_hp e /\ e_speed e' = e_speed e
       /\ e_kind e' = e_kind e /\ e_dead e' = false
       /\ withinWalls (e_p e') (F32.to_int (e_r e))
       /\ insideWalls (e_p e') (F32.to_int (e_r e))
       /\ (e_kind e = 0 ->
           let d := vsub pp (e_p e) in
           let L := F32.sqrt (vx d * vx d + vy d * vy d)%f32 in
           let u := if (L >? F32.zero)%f32
                    then mkVec (vx d * (F32.of_Z 1 / L))%f32 (vy d * (F32.of_Z 1 / L))%f32
                    else mkVec F32.zero F32.zero in
           let step := mkVec (vx u * e_speed e * DT)%f32 (vy u * e_speed e * DT)%f32 in
           e_patrolDir e' = e_patrolDir e
           /\ e_p e' = clampInner (mkVec (vx (e_p e) + vx step)%f32
                                         (vy (e_p e) + vy step)%f32) (e_r e)
           /\ ((L >? F32.zero)%f32 = true ->
               F32.sign_bit (e_speed e) = false -> F32.sign_bit DT = false ->
               signOf (vx d) (vx step) /\ signOf (vy d) (vy step))))
    (filter (fun e => negb (e_dead e)) (r_enemies R))
    (r_enemies (updateEnemiesRoom pp DT R))
  /\ length (r_enemies (updateEnemiesRoom pp DT R)) = 1%nat
  /\ (vx (e_p e') <? F32.of_Z 500)%f32 = true
  /\ (F32.of_Z 499 <? vx (e_p e'))%f32 = true
  /\ vy (e_p e') = F32.of_Z 270.
Proof.
  split.
  - apply (updateEnemies_bodies (vecZ 152 270) DT (set_enemies Room0 [chaser 500 270 1])).
    constructor; [left; reflexivity|constructor].
  - vm_compute. repeat split; reflexivity.
Defined.

(** ** Shooting *)

Lemma shotChain_values (j : nat) :
  (1 <= j <= 14)%nat -> (shotChain j >? F32.zero)%f32 = true.
Proof.
  intros H.
  assert (j = 1 \/ j = 2 \/ j = 3 \/ j = 4 \/ j = 5 \/ j = 6 \/ j = 7 \/ j = 8 \/ j = 9
          \/ j = 10 \/ j = 11 \/ j = 12 \/ j = 13 \/ j = 14)%nat as E by lia.
  repeat (destruct E as [ -> | E ]; [vm_compute; reflexivity|]).
  subst. vm_compute. reflexivity.
Qed.

Lemma shot_cooldown_positive : (F32.lit 12 100 >? F32.zero)%f32 = true.
Proof. vm_compute. reflexivity. Qed.

Lemma shootPhase_spec (k : Keys) (s : State) :
  let p := g_player s in
  let p' := g_player (tickShotCooldown DT (playerShootInput k s)) in
  let cd := pl_shotCooldown p in
  pl_p p' = pl_p p
  /\ ((cd >? F32.zero)%f32 = true ->
      pl_shots p' = pl_shots p /\ pl_shotCooldown p' = (cd - DT)%f32)
  /\ ((cd >? F32.zero)%f32 = false -> nonzero (aimOf k) = true ->
      pl_shots p'
      = pl_shots p
        ++ [mkBullet (vadd (pl_p p) (vscale (norm (aimOf k)) (pl_r p + F32.of_Z 6)%f32))
                     (vscale (norm (aimOf k)) (F32.of_Z 360))
                     (F32.of_Z 5) (F32.lit 9 10) false]
      /\ pl_shotCooldown p' = shotChain 1)
  /\ ((cd >? F32.zero)%f32 = false -> nonzero (aimOf k) = false ->
      pl_shots p' = pl_shots p /\ pl_shotCooldown p' = cd).
Proof.
  cbv zeta. unfold playerShootInput, playerShoot, aimOf. cbv zeta.
  destruct (nonzero (keyVec (kUp k) (kDown k) (kLeft k) (kRight k))) eqn:Ha;
    destruct (pl_shotCooldown (g_player s) >? F32.zero)%f32 eqn:E;
    unfold tickShotCooldown;
    cbn [g_player set_player pl_shotCooldown set_shotCooldown set_shots pl_shots pl_p pl_r];
    rewrite ?E, ?shot_cooldown_positive;
    cbn [g_player set_player pl_shotCooldown set_shotCooldown set_shots pl_shots pl_p pl_r];
    repeat split; try reflexivity; try discriminate.
Qed.

(** X15. The input phase of a fixed update fires at most one bullet.
    While the shot cooldown is positive nothing is fired and the cooldown
    drops by [dt].  With the cooldown run out and an arrow key giving a
    non-zero aim, one bullet is appended behind the others: it starts
    [radius + 6] from the moved player along the unit aim vector, flies at
    360 units per second, has radius 5 and 0.9 s to live; the cooldown is
    set to 0.12 s and counted down at once.  Without aim nothing is fired.
    Counting down from 0.12 s in steps of [dt] stays positive for 14 steps
    and not for the 15th, so a held key fires on every 15th update. *)
Theorem fire_rate (k : Keys) (s : State) :
  let s1 := playerUpdateMove k DT s in
  let p := g_player s in
  let p' := g_player (tickInput k s) in
  let cd := pl_shotCooldown p in
  pl_p p' = pl_p (g_player s1)
  /\ ((cd >? F32.zero)%f32 = true ->
      pl_shots p' = pl_shots p /\ pl_shotCooldown p' = (cd - DT)%f32)
  /\ ((cd >? F32.zero)%f32 = false -> nonzero (aimOf k) = true ->
      pl_shots p'
      = pl_shots p
        ++ [mkBullet (vadd (pl_p (g_player s1))
                           (vscale (norm (aimOf k)) (pl_r p + F32.of_Z 6)%f32))
                     (vscale (norm (aimOf k)) (F32.of_Z 360))
                     (F32.of_Z 5) (F32.lit 9 10) false]
      /\ pl_shotCooldown p' = shotChain 1)
  /\ ((cd >? F32.zero)%f32 = false -> nonzero (aimOf k) = false ->
      pl_shots p' = pl_shots p /\ pl_shotCooldown p' = cd)
  /\ (forall j, (1 <= j <= 14)%nat -> (shotChain j >? F32.zero)%f32 = true)
  /\ (shotChain 15 >? F32.zero)%f32 = false.
Proof.
  cbv zeta. unfold tickInput.
  assert (Hc : pl_shotCooldown (g_player (playerUpdateMove k DT s))
               = pl_shotCooldown (g_player s)) by reflexivity.
  assert (Hs : pl_shots (g_player (playerUpdateMove k DT s)) = pl_shots (g_player s))
    by reflexivity.
  assert (Hr : pl_r (g_player (playerUpdateMove k DT s)) = pl_r (g_player s))
    by reflexivity.
  rewrite <- Hc, <- Hs, <- Hr.
  destruct (shootPhase_spec k (playerUpdateMove k DT s)) as (A & B & C & D).
  split; [exact A|]. split; [exact B|]. split; [exact C|]. split; [exact D|].
  split; [apply shotChain_values|]. vm_compute. reflexivity.
Qed.

(** ** A finished run *)

Lemma ticks_over (ks : list Keys) (s : State) : g_runOver s = true -> ticks ks s = s.
Proof.
  intros H. induction ks as [|k ks IH]; [reflexivity|].
  cbn [ticks]. unfold tick. rewrite H. exact IH.
Qed.

(** X16. Cleared and Dead are terminal: once the run is over, a pass of
    the main loop without the restart and quit keys returns the state
    unchanged, however many fixed updates it runs and whatever the other
    keys are; with the quit key only the running flag is lowered.  A single
    fixed update never puts a finished run back into play. *)
Theorem run_over_terminal (k : Keys) (ks : list Keys) (s : State) :
  g_runOver s = true ->
  (kEsc k = false -> kR k = false -> frame k ks s = s)
  /\ (kEsc k = true -> frame k ks s = set_running s false)
  /\ ticks ks s = s
  /\ runState (ticks ks s) <> Active.
Proof.
  intros H. split; [|split; [|split]].
  - intros He Hk. unfold frame, restartInput. rewrite He, Hk, andb_false_r.
    apply ticks_over. exact H.
  - intros He. unfold frame. rewrite He. reflexivity.
  - apply ticks_over. exact H.
  - rewrite ticks_over by exact H. unfold runState. rewrite H. simpl.
    destruct (pl_hp (g_player s) <=? 0); discriminate.
Qed.

Lemma run_over_terminal_witness :
  (kEsc noKeys = false -> kR noKeys = false -> frame noKeys [noKeys; noKeys] overState = overState)
  /\ (kEsc noKeys = true -> frame noKeys [noKeys; noKeys] overState = set_running overState false)
  /\ ticks [noKeys; noKeys] overState = overState
  /\ runState (ticks [noKeys; noKeys] overState) <> Active.
Proof.
  apply (run_over_terminal noKeys [noKeys; noKeys] overState). reflexivity.
Defined.

(** ** Rendering primitives *)

Lemma testbit_small (x n i : Z) : 0 <= x < 2 ^ n -> n <= i -> Z.testbit x i = false.
Proof.
  intros [H0 H1] Hi. destruct (Z.eq_dec x 0) as [->|Hx]; [apply Z.testbit_0_l|].
  apply Z.bits_above_log2; [lia|].
  assert (Z.log2 x < n); [|lia].
  apply Z.log2_lt_pow2; lia.
Qed.

(** X17. [RGBA] packs four 8-bit channels into one 32-bit pixel without
    loss: the result is [r + 256 g + 65536 b + 16777216 a], lies below
    [2^32], and each channel is read back by shifting and masking with
    255. *)
Theorem RGBA_channels (r g b a : Z) :
  0 <= r < 256 -> 0 <= g < 256 -> 0 <= b < 256 -> 0 <= a < 256 ->
  let c := RGBA r g b a in
  c = r + 256 * g + 65536 * b + 16777216 * a
  /\ 0 <= c < 2 ^ 32
  /\ Z.land c 255 = r
  /\ Z.land (Z.shiftr c 8) 255 = g
  /\ Z.land (Z.shiftr c 16) 255 = b
  /\ Z.land (Z.shiftr c 24) 255 = a.
Proof.
  intros Hr Hg Hb Ha. cbv zeta.
  assert (E : RGBA r g b a = r + 256 * g + 65536 * b + 16777216 * a).
  { unfold RGBA.
    assert (L : forall x y n, 0 <= n -> 0 <= x < 2 ^ n -> 0 <= y ->
                              Z.lor x (Z.shiftl y n) = x + 2 ^ n * y).
    { intros x y n Hn Hx Hy. rewrite Z.shiftl_mul_pow2 by lia.
      rewrite <- Z.lxor_lor.
      - rewrite <- Z.add_nocarry_lxor; [lia|].
        apply Z.bits_inj'. intros i Hi. rewrite Z.land_spec, Z.bits_0.
        destruct (Z.lt_ge_cases i n) as [Hlt|Hge].
        + rewrite Z.mul_pow2_bits_low by lia. apply andb_false_r.
        + rewrite (testbit_small x n i) by lia. reflexivity.
      - apply Z.bits_inj'. intros i Hi. rewrite Z.land_spec, Z.bits_0.
        destruct (Z.lt_ge_cases i n) as [Hlt|Hge].
        + rewrite Z.mul_pow2_bits_low by lia. apply andb_false_r.
        + rewrite (testbit_small x n i) by lia. reflexivity. }
    rewrite (L r g 8) by lia.
    rewrite (L (r + 2 ^ 8 * g) b 16) by lia.
    rewrite (L (r + 2 ^ 8 * g + 2 ^ 16 * b) a 24) by lia.
    lia. }
  rewrite E. split; [reflexivity|]. split; [lia|].
  assert (M : forall x, Z.land x 255 = x mod 256).
  { intros x. change 255 with (Z.ones 8). rewrite Z.land_ones by lia. reflexivity. }
  rewrite !M, !Z.shiftr_div_pow2 by lia.
  change (2 ^ 8) with 256. change (2 ^ 16) with 65536. change (2 ^ 24) with 16777216.
  repeat split.
  - rewrite <- (Z.mod_unique (r + 256 * g + 65536 * b + 16777216 * a) 256
                  (g + 256 * b + 65536 * a) r); [reflexivity|lia|lia].
  - rewrite <- (Z.div_unique (r + 256 * g + 65536 * b + 16777216 * a) 256
                  (g + 256 * b + 65536 * a) r) by lia.
    rewrite <- (Z.mod_unique (g + 256 * b + 65536 * a) 256 (b + 256 * a) g);
      [reflexivity|lia|lia].
  - rewrite <- (Z.div_unique (r + 256 * g + 65536 * b + 16777216 * a) 65536
                  (b + 256 * a) (r + 256 * g)) by lia.
    rewrite <- (Z.mod_unique (b + 256 * a) 256 a b); [reflexivity|lia|lia].
  - rewrite <- (Z.div_unique (r + 256 * g + 65536 * b + 16777216 * a) 16777216
                  a (r + 256 * g + 65536 * b)) by lia.
    apply Z.mod_small. lia.
Qed.

Lemma RGBA_channels_witness :
  let c := RGBA 220 40 40 255 in
  c = 220 + 256 * 40 + 65536 * 40 + 16777216 * 255
  /\ 0 <= c < 2 ^ 32
  /\ Z.land c 255 = 220
  /\ Z.land (Z.shiftr c 8) 255 = 40
  /\ Z.land (Z.shiftr c 16) 255 = 40
  /\ Z.land (Z.shiftr c 24) 255 = 255.
Proof. apply (RGBA_channels 220 40 40 255); lia. Defined.

Lemma In_zrange (a b v : Z) : In v (zrange a b) <-> a <= v < b.
Proof.
  unfold zrange. rewrite in_map_iff. split.
  - intros [k [<- Hk]]. apply in_seq in Hk. lia.
  - intros H. exists (Z.to_nat (v - a)). split; [lia|]. apply in_seq. lia.
Qed.

Lemma zrange_nil (a b : Z) : b <= a -> zrange a b = [].
Proof.
  intros H. unfold zrange. replace (Z.to_nat (b - a)) with O by lia. reflexivity.
Qed.

Lemma zrange_cons (a b : Z) : a < b -> zrange a b = a :: zrange (a + 1) b.
Proof.
  intros H. unfold zrange.
  replace (Z.to_nat (b - a)) with (S (Z.to_nat (b - (a + 1)))) by lia.
  cbn [seq map]. f_equal; [lia|].
  rewrite <- seq_shift, map_map. apply map_ext. intros k. lia.
Qed.

Lemma Painted_refl (c : Z) (S : Z -> Z -> Prop) (px : Pixels) :
  (forall i j, onScreen i j -> ~ S i j) -> Painted c S px px.
Proof.
  intros H. split; [reflexivity|]. intros i j Hij. split.
  - intros HS. destruct (H i j Hij HS).
  - left. reflexivity.
Qed.

Lemma Painted_union (c : Z) (S1 S2 : Z -> Z -> Prop) (px px1 px2 : Pixels) :
  Painted c S1 px px1 -> Painted c S2 px1 px2 ->
  Painted c (fun i j => S1 i j \/ S2 i j) px px2.
Proof.
  intros [L1 H1] [L2 H2]. split; [congruence|].
  intros i j Hij. destruct (H1 i j Hij) as [A1 B1]. destruct (H2 i j Hij) as [A2 B2].
  split.
  - intros [HS|HS]; [|auto]. destruct B2 as [B2|B2]; [|auto].
    rewrite B2. auto.
  - destruct B2 as [B2|B2]; [|auto]. destruct B1 as [B1|B1]; [|auto].
    left. congruence.
Qed.

Lemma Painted_ext (c : Z) (S S' : Z -> Z -> Prop) (px px' : Pixels) :
  Painted c S px px' -> (forall i j, onScreen i j -> (S i j <-> S' i j)) ->
  Painted c S' px px'.
Proof.
  intros [L H] E. split; [exact L|]. intros i j Hij.
  destruct (H i j Hij) as [A B]. destruct (E i j Hij) as [E1 E2]. split.
  - auto.
  - destruct B; auto.
Qed.

Lemma Painted_buffer (c : Z) (S : Z -> Z -> Prop) (px px' : Pixels) :
  Painted c S px px' -> isBuffer px -> isBuffer px'.
Proof. intros [L _] H. unfold isBuffer in *. congruence. Qed.

Lemma Painted_spec (c : Z) (S : Z -> Z -> Prop) (px px' : Pixels) (i j : Z) :
  Painted c S px px' -> onScreen i j ->
  (S i j -> pixelAt px' i j = c) /\ (~ S i j -> pixelAt px' i j = pixelAt px i j).
Proof.
  intros [_ H] Hij. destruct (H i j Hij) as [A B]. split; [exact A|].
  intros N. destruct B as [B|B]; [exact B|contradiction].
Qed.

Lemma Painted_fold {A : Type} (c : Z) (f : A -> Pixels -> Pixels)
      (T : A -> Z -> Z -> Prop) (l : list A) :
  (forall a p, In a l -> isBuffer p -> Painted c (T a) p (f a p)) ->
  forall px, isBuffer px ->
  Painted c (fun i j => exists a, In a l /\ T a i j) px (fold_left (fun p a => f a p) l px).
Proof.
  induction l as [|a l IH]; intros Hf px Hpx.
  - cbn. apply Painted_refl. intros i j _ [a [[] _]].
  - cbn [fold_left].
    assert (Ha : Painted c (T a) px (f a px)) by (apply Hf; [left; reflexivity|exact Hpx]).
    assert (Hl : Painted c (fun i j => exists a0, In a0 l /\ T a0 i j) (f a px)
                         (fold_left (fun p a0 => f a0 p) l (f a px))).
    { apply IH.
      - intros a0 p Hin Hp. apply Hf; [right; exact Hin|exact Hp].
      - exact (Painted_buffer _ _ _ _ Ha Hpx). }
    eapply Painted_ext; [exact (Painted_union _ _ _ _ _ _ Ha Hl)|].
    intros i j _. split.
    + intros [H|[a0 [Hin H]]]; [exists a; split; [left; reflexivity|exact H]|].
      exists a0. split; [right; exact Hin|exact H].
    + intros [a0 [[<-|Hin] H]]; [left; exact H|]. right. exists a0. auto.
Qed.

Lemma write_Painted (x y c : Z) (px : Pixels) :
  isBuffer px -> onScreen x y ->
  Painted c (fun i j => i = x /\ j = y) px
          (upd (Z.to_nat (y * WIDTH + x)) (fun _ => c) px).
Proof.
  intros Hpx Hxy. split; [apply upd_length|].
  intros i j Hij. unfold pixelAt.
  destruct (Z.eq_dec i x) as [->|Hi]; [destruct (Z.eq_dec j y) as [->|Hj]|].
  - rewrite nth_upd_same; [split; [reflexivity|right; split; reflexivity]|].
    rewrite Hpx. unfold onScreen, WIDTH, HEIGHT in *. lia.
  - rewrite nth_upd_other by (unfold onScreen, WIDTH, HEIGHT in *; lia).
    split; [intros [_ E]; contradiction|left; reflexivity].
  - rewrite nth_upd_other by (unfold onScreen, WIDTH, HEIGHT in *; lia).
    split; [intros [E _]; contradiction|left; reflexivity].
Qed.

Lemma to_unsigned_lt (x n : Z) :
  isInt x -> 0 <= n < 2 ^ 31 ->
  (to_unsigned x <? to_unsigned n) = true <-> 0 <= x < n.
Proof.
  unfold isInt, to_unsigned. change (2 ^ 31) with 2147483648.
  change (2 ^ 32) with 4294967296. intros Hx Hn.
  rewrite (Z.mod_small n) by lia. rewrite Z.ltb_lt.
  destruct (Z.lt_ge_cases x 0) as [Hneg|Hpos].
  - replace (x mod 4294967296) with (x + 4294967296); [lia|].
    rewrite <- (Z.mod_add x 1) by lia. rewrite Z.mod_small; lia.
  - rewrite Z.mod_small by lia. lia.
Qed.

Lemma putpx_Painted (x y c : Z) (px : Pixels) :
  isInt x -> isInt y -> isBuffer px ->
  Painted c (fun i j => i = x /\ j = y) px (putpx x y c px).
Proof.
  intros Hx Hy Hpx. unfold putpx.
  destruct ((to_unsigned x <? to_unsigned WIDTH) && (to_unsigned y <? to_unsigned HEIGHT))
    eqn:E.
  - apply andb_true_iff in E. destruct E as [E1 E2].
    apply to_unsigned_lt in E1; [|exact Hx|unfold WIDTH; lia].
    apply to_unsigned_lt in E2; [|exact Hy|unfold HEIGHT; lia].
    apply write_Painted; [exact Hpx|split; assumption].
  - apply Painted_refl. intros i j [Hi Hj] [-> ->].
    assert (E1 : (to_unsigned x <? to_unsigned WIDTH) = true)
      by (apply to_unsigned_lt; [exact Hx|unfold WIDTH; lia|exact Hi]).
    assert (E2 : (to_unsigned y <? to_unsigned HEIGHT) = true)
      by (apply to_unsigned_lt; [exact Hy|unfold HEIGHT; lia|exact Hj]).
    rewrite E1, E2 in E. discriminate.
Qed.

(** X18. [putpx] is a bounds-checked write: for [int] coordinates on the
    screen it sets exactly the pixel of column [x], row [y]; for any
    coordinate off the screen, negative ones included, it leaves the
    buffer as it is.  The buffer keeps its size. *)
Theorem putpx_spec (x y c : Z) (px : Pixels) :
  isInt x -> isInt y -> isBuffer px ->
  isBuffer (putpx x y c px)
  /\ (onScreen x y ->
      pixelAt (putpx x y c px) x y = c
      /\ forall i j, onScreen i j -> (i, j) <> (x, y) ->
                     pixelAt (putpx x y c px) i j = pixelAt px i j)
  /\ (~ onScreen x y -> putpx x y c px = px).
Proof.
  intros Hx Hy Hpx. pose proof (putpx_Painted x y c px Hx Hy Hpx) as HP.
  split; [exact (Painted_buffer _ _ _ _ HP Hpx)|]. split.
  - intros Hxy. split.
    + apply (Painted_spec _ _ _ _ x y HP Hxy). split; reflexivity.
    + intros i j Hij Hne. apply (Painted_spec _ _ _ _ i j HP Hij).
      intros [-> ->]. apply Hne. reflexivity.
  - intros Hoff. unfold putpx.
    destruct ((to_unsigned x <? to_unsigned WIDTH) && (to_unsigned y <? to_unsigned HEIGHT))
      eqn:E; [|reflexivity].
    apply andb_true_iff in E. destruct E as [E1 E2].
    apply to_unsigned_lt in E1; [|exact Hx|unfold WIDTH; lia].
    apply to_unsigned_lt in E2; [|exact Hy|unfold HEIGHT; lia].
    destruct Hoff. split; assumption.
Qed.

Lemma repeat_isBuffer : isBuffer (repeat 0 (Z.to_nat (WIDTH * HEIGHT))).
Proof. unfold isBuffer. apply repeat_length. Qed.

Lemma putpx_spec_witness :
  isBuffer (putpx 5 3 7 (repeat 0 (Z.to_nat (WIDTH * HEIGHT))))
  /\ (onScreen 5 3 ->
      pixelAt (putpx 5 3 7 (repeat 0 (Z.to_nat (WIDTH * HEIGHT)))) 5 3 = 7
      /\ forall i j, onScreen i j -> (i, j) <> (5, 3) ->
                     pixelAt (putpx 5 3 7 (repeat 0 (Z.to_nat (WIDTH * HEIGHT)))) i j
                     = pixelAt (repeat 0 (Z.to_nat (WIDTH * HEIGHT))) i j)
  /\ (~ onScreen 5 3 ->
      putpx 5 3 7 (repeat 0 (Z.to_nat (WIDTH * HEIGHT)))
      = repeat 0 (Z.to_nat (WIDTH * HEIGHT))).
Proof.
  apply (putpx_spec 5 3 7 (repeat 0 (Z.to_nat (WIDTH * HEIGHT)))).
  - unfold isInt. lia.
  - unfold isInt. lia.
  - exact repeat_isBuffer.
Defined.

Lemma fillRect_Painted (x y w h c : Z) (px : Pixels) :
  isBuffer px ->
  Painted c (fun i j => x <= i < x + w /\ y <= j < y + h) px (fillRect x y w h c px).
Proof.
  intros Hpx. unfold fillRect. cbv zeta.
  eapply Painted_ext.
  - apply (Painted_fold c
             (fun j p => fold_left (fun q i => upd (Z.to_nat (j * WIDTH + i)) (fun _ => c) q)
                                   (zrange (Z.max 0 x) (Z.min WIDTH (x + w))) p)
             (fun j' i j => j = j' /\ Z.max 0 x <= i < Z.min WIDTH (x + w))); [|exact Hpx].
    intros j' p Hj' Hp. apply In_zrange in Hj'.
    eapply Painted_ext.
    + apply (Painted_fold c
               (fun i q => upd (Z.to_nat (j' * WIDTH + i)) (fun _ => c) q)
               (fun i' i j => i = i' /\ j = j')); [|exact Hp].
      intros i' q Hi' Hq. apply In_zrange in Hi'.
      apply write_Painted; [exact Hq|]. unfold onScreen. lia.
    + intros i j _. split.
      * intros [i' [Hi' [-> ->]]]. apply In_zrange in Hi'. auto.
      * intros [-> Hi]. exists i. split; [apply In_zrange; exact Hi|auto].
  - intros i j [Hi Hj]. split.
    + intros [j' [Hj' [-> Hi']]]. apply In_zrange in Hj'. lia.
    + intros [Hi' Hj']. exists j. split; [apply In_zrange; lia|]. split; [reflexivity|lia].
Qed.

Lemma fillRect_buffer (x y w h c : Z) (px : Pixels) :
  isBuffer px -> isBuffer (fillRect x y w h c px).
Proof.
  intros Hpx. exact (Painted_buffer _ _ _ _ (fillRect_Painted x y w h c px Hpx) Hpx).
Qed.

Lemma fillRect_pixel (x y w h c : Z) (px : Pixels) (i j : Z) :
  isBuffer px -> onScreen i j ->
  pixelAt (fillRect x y w h c px) i j = if inRect x y w h i j then c else pixelAt px i j.
Proof.
  intros Hpx Hij. pose proof (fillRect_Painted x y w h c px Hpx) as HP.
  destruct (Painted_spec _ _ _ _ i j HP Hij) as [A B]. unfold inRect.
  destruct ((x <=? i) && (i <? x + w) && (y <=? j) && (j <? y + h)) eqn:E.
  - apply A. rewrite !andb_true_iff in E. lia.
  - apply B. intros H. rewrite !andb_false_iff in E. lia.
Qed.

(** X19. [fillRect], for [int] arguments whose sums [x + w] and [y + h]
    do not overflow, clips the rectangle to the screen: afterwards a screen
    pixel has the colour [c] when it lies in the rectangle
    [x <= i < x + w], [y <= j < y + h], and its old colour otherwise; a
    rectangle that is partly or wholly off the screen writes nothing
    outside the buffer, whose size is unchanged. *)
Theorem fillRect_spec (x y w h c : Z) (px : Pixels) (i j : Z) :
  isInt x -> isInt y -> isInt (x + w) -> isInt (y + h) ->
  isBuffer px -> onScreen i j ->
  isBuffer (fillRect x y w h c px)
  /\ pixelAt (fillRect x y w h c px) i j
     = if inRect x y w h i j then c else pixelAt px i j.
Proof.
  intros _ _ _ _ Hpx Hij. split.
  - apply fillRect_buffer. exact Hpx.
  - apply fillRect_pixel; assumption.
Qed.

Lemma fillRect_spec_witness :
  isBuffer (fillRect (-5) 530 20 20 9 (repeat 0 (Z.to_nat (WIDTH * HEIGHT))))
  /\ pixelAt (fillRect (-5) 530 20 20 9 (repeat 0 (Z.to_nat (WIDTH * HEIGHT)))) 3 535
     = if inRect (-5) 530 20 20 3 535
       then 9 else pixelAt (repeat 0 (Z.to_nat (WIDTH * HEIGHT))) 3 535.
Proof.
  apply (fillRect_spec (-5) 530 20 20 9 (repeat 0 (Z.to_nat (WIDTH * HEIGHT))) 3 535);
    try (unfold isInt; lia).
  - exact repeat_isBuffer.
  - unfold onScreen, WIDTH, HEIGHT. lia.
Defined.

Lemma clear_Painted (color : Z) (px : Pixels) :
  isBuffer px -> Painted color (fun _ _ => True) px (clear color px).
Proof.
  intros Hpx. unfold clear. eapply Painted_ext.
  - apply (Painted_fold color (fun k p => upd (Z.to_nat k) (fun _ => color) p)
             (fun k i' j' => k = j' * WIDTH + i')); [|exact Hpx].
    intros k p Hk Hp. apply In_zrange in Hk.
    assert (E : k = (k / WIDTH) * WIDTH + k mod WIDTH)
      by (rewrite Z.mul_comm; apply Z.div_mod; unfold WIDTH; lia).
    assert (Hm : 0 <= k mod WIDTH < WIDTH) by (apply Z.mod_pos_bound; unfold WIDTH; lia).
    assert (Hd : 0 <= k / WIDTH < HEIGHT).
    { split; [apply Z.div_pos; unfold WIDTH; lia|].
      apply Z.div_lt_upper_bound; [unfold WIDTH; lia|]. lia. }
    eapply Painted_ext.
    + rewrite E at 1. apply write_Painted; [exact Hp|]. split; assumption.
    + intros i' j' [Hi' Hj']. unfold WIDTH in *. split.
      * intros [-> ->]. lia.
      * intros Hk'. lia.
  - intros i' j' [Hi' Hj']. split; [auto|]. intros _.
    exists (j' * WIDTH + i'). split; [|reflexivity].
    apply In_zrange. unfold WIDTH, HEIGHT in *. lia.
Qed.

(** X20. [clear] sets every pixel of the buffer to the colour. *)
Theorem clear_spec (color : Z) (px : Pixels) (i j : Z) :
  isBuffer px -> onScreen i j ->
  isBuffer (clear color px) /\ pixelAt (clear color px) i j = color.
Proof.
  intros Hpx Hij. pose proof (clear_Painted color px Hpx) as HP.
  split; [exact (Painted_buffer _ _ _ _ HP Hpx)|].
  apply (Painted_spec _ _ _ _ i j HP Hij). exact I.
Qed.

Lemma clear_spec_witness :
  isBuffer (clear 7 (repeat 0 (Z.to_nat (WIDTH * HEIGHT))))
  /\ pixelAt (clear 7 (repeat 0 (Z.to_nat (WIDTH * HEIGHT)))) 3 4 = 7.
Proof.
  apply (clear_spec 7 (repeat 0 (Z.to_nat (WIDTH * HEIGHT))) 3 4).
  - exact repeat_isBuffer.
  - unfold onScreen, WIDTH, HEIGHT. lia.
Defined.

Lemma drawRect_Painted (x y w h c : Z) (px : Pixels) :
  isInt x -> isInt y -> isInt (x + w) -> isInt (y + h) ->
  isInt (x + w - 1) -> isInt (y + h - 1) -> isBuffer px ->
  Painted c (fun i j => x <= i < x + w /\ (j = y \/ j = y + h - 1)
                        \/ y <= j < y + h /\ (i = x \/ i = x + w - 1))
          px (drawRect x y w h c px).
Proof.
  intros Hx Hy Hxw Hyh Hxw1 Hyh1 Hpx. unfold drawRect. cbv zeta.
  assert (H1 : Painted c (fun i j => exists i', In i' (zrange x (x + w))
                                      /\ (i = i' /\ j = y \/ i = i' /\ j = y + h - 1))
                 px (fold_left (fun p i => putpx i (y + h - 1) c (putpx i y c p))
                               (zrange x (x + w)) px)).
  { apply (Painted_fold c (fun i p => putpx i (y + h - 1) c (putpx i y c p))
             (fun i' i j => i = i' /\ j = y \/ i = i' /\ j = y + h - 1)); [|exact Hpx].
    intros i' p Hi' Hp. apply In_zrange in Hi'.
    assert (Hii : isInt i') by (unfold isInt in *; lia).
    pose proof (putpx_Painted i' y c p Hii Hy Hp) as P1.
    pose proof (putpx_Painted i' (y + h - 1) c _ Hii Hyh1 (Painted_buffer _ _ _ _ P1 Hp)) as P2.
    exact (Painted_union _ _ _ _ _ _ P1 P2). }
  pose proof (Painted_buffer _ _ _ _ H1 Hpx) as Hpx1.
  assert (H2 : Painted c (fun i j => exists j', In j' (zrange y (y + h))
                                      /\ (i = x /\ j = j' \/ i = x + w - 1 /\ j = j'))
                 (fold_left (fun p i => putpx i (y + h - 1) c (putpx i y c p))
                            (zrange x (x + w)) px)
                 (fold_left (fun p j => putpx (x + w - 1) j c (putpx x j c p))
                            (zrange y (y + h))
                            (fold_left (fun p i => putpx i (y + h - 1) c (putpx i y c p))
                                       (zrange x (x + w)) px))).
  { apply (Painted_fold c (fun j p => putpx (x + w - 1) j c (putpx x j c p))
             (fun j' i j => i = x /\ j = j' \/ i = x + w - 1 /\ j = j')); [|exact Hpx1].
    intros j' p Hj' Hp. apply In_zrange in Hj'.
    assert (Hjj : isInt j') by (unfold isInt in *; lia).
    pose proof (putpx_Painted x j' c p Hx Hjj Hp) as P1.
    pose proof (putpx_Painted (x + w - 1) j' c _ Hxw1 Hjj (Painted_buffer _ _ _ _ P1 Hp)) as P2.
    exact (Painted_union _ _ _ _ _ _ P1 P2). }
  eapply Painted_ext; [exact (Painted_union _ _ _ _ _ _ H1 H2)|].
  intros i j _. split.
  - intros [[i' [Hi' H]]|[j' [Hj' H]]].
    + apply In_zrange in Hi'. left. destruct H as [[-> ->]|[-> ->]]; auto.
    + apply In_zrange in Hj'. right. destruct H as [[-> ->]|[-> ->]]; auto.
  - intros [[Hi H]|[Hj H]].
    + left. exists i. split; [apply In_zrange; exact Hi|]. destruct H as [->| ->]; auto.
    + right. exists j. split; [apply In_zrange; exact Hj|]. destruct H as [->| ->]; auto.
Qed.

Lemma drawRect_buffer (x y w h c : Z) (px : Pixels) :
  0 < w -> 0 < h -> isInt x -> isInt y -> isInt (x + w) -> isInt (y + h) ->
  isBuffer px -> isBuffer (drawRect x y w h c px).
Proof.
  intros Hw Hh Hx Hy Hxw Hyh Hpx.
  assert (Hxw1 : isInt (x + w - 1)) by (unfold isInt in *; lia).
  assert (Hyh1 : isInt (y + h - 1)) by (unfold isInt in *; lia).
  exact (Painted_buffer _ _ _ _ (drawRect_Painted x y w h c px Hx Hy Hxw Hyh Hxw1 Hyh1 Hpx) Hpx).
Qed.

Lemma drawRect_pixel (x y w h c : Z) (px : Pixels) (i j : Z) :
  0 < w -> 0 < h -> isInt x -> isInt y -> isInt (x + w) -> isInt (y + h) ->
  isBuffer px -> onScreen i j ->
  pixelAt (drawRect x y w h c px) i j = if onOutline x y w h i j then c else pixelAt px i j.
Proof.
  intros Hw Hh Hx Hy Hxw Hyh Hpx Hij.
  assert (HP := drawRect_Painted x y w h c px Hx Hy Hxw Hyh).
  assert (Hxw1 : isInt (x + w - 1)) by (unfold isInt in *; lia).
  assert (Hyh1 : isInt (y + h - 1)) by (unfold isInt in *; lia).
  specialize (HP Hxw1 Hyh1 Hpx).
  destruct (Painted_spec _ _ _ _ i j HP Hij) as [A B]. unfold onOutline, inRect.
  destruct ((x <=? i) && (i <? x + w) && (y <=? j) && (j <? y + h)
            && ((i =? x) || (i =? x + w - 1) || (j =? y) || (j =? y + h - 1))) eqn:E.
  - apply A. rewrite !andb_true_iff, !orb_true_iff in E. lia.
  - apply B. intros H. rewrite !andb_false_iff, !orb_false_iff in E. lia.
Qed.

(** X21. [drawRect], for a rectangle of positive width and height whose
    corners are [int]s, draws its one-pixel outline: afterwards a screen
    pixel has the colour [c] when it lies in the rectangle on its first or
    last column or row, and its old colour otherwise (the interior and
    the outside are untouched, and the part of the outline off the screen
    is dropped). *)
Theorem drawRect_spec (x y w h c : Z) (px : Pixels) (i j : Z) :
  0 < w -> 0 < h ->
  isInt x -> isInt y -> isInt (x + w) -> isInt (y + h) ->
  isBuffer px -> onScreen i j ->
  isBuffer (drawRect x y w h c px)
  /\ pixelAt (drawRect x y w h c px) i j
     = if onOutline x y w h i j then c else pixelAt px i j.
Proof.
  intros Hw Hh Hx Hy Hxw Hyh Hpx Hij. split.
  - apply drawRect_buffer; assumption.
  - apply drawRect_pixel; assumption.
Qed.

Lemma drawRect_spec_witness :
  isBuffer (drawRect 10 10 5 4 9 (repeat 0 (Z.to_nat (WIDTH * HEIGHT))))
  /\ pixelAt (drawRect 10 10 5 4 9 (repeat 0 (Z.to_nat (WIDTH * HEIGHT)))) 12 10
     = if onOutline 10 10 5 4 12 10
       then 9 else pixelAt (repeat 0 (Z.to_nat (WIDTH * HEIGHT))) 12 10.
Proof.
  apply (drawRect_spec 10 10 5 4 9 (repeat 0 (Z.to_nat (WIDTH * HEIGHT))) 12 10);
    try (unfold isInt; lia).
  - exact repeat_isBuffer.
  - unfold onScreen, WIDTH, HEIGHT. lia.
Defined.

(** The inner [while] of [fillCircle] stops within its budget, at the
    largest [y] not above the start with [y * y + x * x <= r2]. *)
Lemma lowerY_spec (fuel : nat) :
  forall y x r2, 0 <= y -> fuel = Z.to_nat y -> x * x <= r2 ->
  0 <= lowerY fuel y x r2 <= y
  /\ lowerY fuel y x r2 * lowerY fuel y x r2 + x * x <= r2
  /\ (lowerY fuel y x r2 = y
      \/ r2 < (lowerY fuel y x r2 + 1) * (lowerY fuel y x r2 + 1) + x * x).
Proof.
  induction fuel as [|f IH]; intros y x r2 Hy Hf Hx.
  - assert (y = 0) by lia. subst y. cbn [lowerY].
    destruct (0 * 0 + x * x >? r2) eqn:E.
    + apply Z.gtb_lt in E. lia.
    + split; [lia|]. split; [lia|]. left. reflexivity.
  - cbn [lowerY]. destruct (y * y + x * x >? r2) eqn:E.
    + apply Z.gtb_lt in E.
      destruct (IH (y - 1) x r2) as [A [B C]]; [lia|lia|exact Hx|].
      split; [lia|]. split; [exact B|]. right.
      destruct C as [C|C]; [|exact C]. rewrite C.
      replace (y - 1 + 1) with y by lia. exact E.
    + split; [lia|]. split; [|left; reflexivity].
      destruct (Z.gtb_spec (y * y + x * x) r2); [discriminate|lia].
Qed.

Lemma floor_sqrt_unique (k y1 y2 : Z) :
  0 <= y1 -> 0 <= y2 ->
  y1 * y1 <= k < (y1 + 1) * (y1 + 1) ->
  y2 * y2 <= k < (y2 + 1) * (y2 + 1) -> y1 = y2.
Proof.
  intros H1 H2 A B.
  destruct (Z.lt_trichotomy y1 y2) as [H|[H|H]]; [|exact H|].
  - assert ((y1 + 1) * (y1 + 1) <= y2 * y2) by nia. lia.
  - assert ((y2 + 1) * (y2 + 1) <= y1 * y1) by nia. lia.
Qed.

Lemma circleRow_Painted (cx cy r c y0 a : Z) (px : Pixels) :
  isInt (cx - r) -> isInt (cx + r + 1) -> isInt (cy - r) -> isInt (cy + r) ->
  0 <= a <= r -> 0 <= y0 <= r -> isBuffer px ->
  Painted c (fun i j => cx - a <= i <= cx + a
                        /\ (j = cy + fst (circleRow cx cy r c (y0, px) a)
                            \/ j = cy - fst (circleRow cx cy r c (y0, px) a)))
          px (snd (circleRow cx cy r c (y0, px) a)).
Proof.
  intros H1 H2 H3 H4 Ha Hy0 Hpx.
  assert (Hxx : a * a <= r * r) by nia.
  destruct (lowerY_spec (Z.to_nat y0) y0 a (r * r)) as [A _]; [lia|reflexivity|exact Hxx|].
  unfold circleRow. cbn [fst snd].
  remember (lowerY (Z.to_nat y0) y0 a (r * r)) as y eqn:Ey. clear Ey.
  eapply Painted_ext.
  - apply (Painted_fold c (fun i p => putpx i (cy - y) c (putpx i (cy + y) c p))
             (fun i' i j => i = i' /\ j = cy + y \/ i = i' /\ j = cy - y)); [|exact Hpx].
    intros i' p Hi' Hp. apply In_zrange in Hi'.
    assert (Hii : isInt i') by (unfold isInt in *; lia).
    assert (Hj1 : isInt (cy + y)) by (unfold isInt in *; lia).
    assert (Hj2 : isInt (cy - y)) by (unfold isInt in *; lia).
    pose proof (putpx_Painted i' (cy + y) c p Hii Hj1 Hp) as P1.
    pose proof (putpx_Painted i' (cy - y) c _ Hii Hj2 (Painted_buffer _ _ _ _ P1 Hp)) as P2.
    exact (Painted_union _ _ _ _ _ _ P1 P2).
  - intros i j _. split.
    + intros [i' [Hi' H]]. apply In_zrange in Hi'.
      destruct H as [[-> ->]|[-> ->]]; split; auto; lia.
    + intros [Hi H]. exists i. split; [apply In_zrange; lia|].
      destruct H as [->| ->]; auto.
Qed.

Lemma circle_fold (cx cy r c : Z) :
  isInt (cx - r) -> isInt (cx + r + 1) -> isInt (cy - r) -> isInt (cy + r) ->
  forall (n : nat) (a y0 : Z) (px : Pixels),
    n = Z.to_nat (r + 1 - a) -> 0 <= a -> 0 <= y0 <= r ->
    r * r < (y0 + 1) * (y0 + 1) + a * a -> isBuffer px ->
    Painted c (fun i j => exists x y,
                   a <= x <= r /\ 0 <= y
                   /\ y * y + x * x <= r * r < (y + 1) * (y + 1) + x * x
                   /\ cx - x <= i <= cx + x /\ (j = cy + y \/ j = cy - y))
            px (snd (fold_left (circleRow cx cy r c) (zrange a (r + 1)) (y0, px))).
Proof.
  intros H1 H2 H3 H4. induction n as [|n IH]; intros a y0 px Hn Ha Hy0 Hinv Hpx.
  - rewrite zrange_nil by lia. cbn. apply Painted_refl.
    intros i j _ [x [y [Hx _]]]. lia.
  - rewrite zrange_cons by lia. cbn [fold_left].
    assert (Har : 0 <= a <= r) by lia.
    pose proof (circleRow_Painted cx cy r c y0 a px H1 H2 H3 H4 Har Hy0 Hpx) as PR.
    assert (Hxx : a * a <= r * r) by nia.
    destruct (lowerY_spec (Z.to_nat y0) y0 a (r * r)) as [A [B C]];
      [lia|reflexivity|exact Hxx|].
    assert (Ef : fst (circleRow cx cy r c (y0, px) a) = lowerY (Z.to_nat y0) y0 a (r * r))
      by reflexivity.
    rewrite Ef in PR.
    remember (lowerY (Z.to_nat y0) y0 a (r * r)) as y eqn:Ey.
    assert (Hup : r * r < (y + 1) * (y + 1) + a * a).
    { destruct C as [C|C]; [rewrite C; exact Hinv|exact C]. }
    destruct (circleRow cx cy r c (y0, px) a) as [y' px1] eqn:Ec.
    cbn [fst snd] in *. subst y'. clear Ey Ec.
    assert (IHn := IH (a + 1) y px1).
    assert (Hrest : Painted c (fun i j => exists x y1,
                       a + 1 <= x <= r /\ 0 <= y1
                       /\ y1 * y1 + x * x <= r * r < (y1 + 1) * (y1 + 1) + x * x
                       /\ cx - x <= i <= cx + x /\ (j = cy + y1 \/ j = cy - y1))
                      px1 (snd (fold_left (circleRow cx cy r c) (zrange (a + 1) (r + 1))
                                          (y, px1)))).
    { apply IHn; [lia|lia|lia|nia|]. exact (Painted_buffer _ _ _ _ PR Hpx). }
    eapply Painted_ext; [exact (Painted_union _ _ _ _ _ _ PR Hrest)|].
    intros i j _. split.
    + intros [[Hi Hj]|[x [y1 [Hx H]]]].
      * exists a, y. split; [lia|]. split; [lia|]. split; [lia|]. split; assumption.
      * exists x, y1. split; [lia|exact H].
    + intros [x [y1 [Hx [Hy1 [Hs [Hi Hj]]]]]].
      destruct (Z.eq_dec x a) as [->|Hne].
      * left. assert (y1 = y); [|subst y1; split; assumption].
        apply (floor_sqrt_unique (r * r - a * a)); lia.
      * right. exists x, y1. split; [lia|]. split; [exact Hy1|]. split; [exact Hs|].
        split; assumption.
Qed.

Lemma fillCircle_Painted (cx cy r c : Z) (px : Pixels) :
  isInt (cx - r) -> isInt (cx + r + 1) -> isInt (cy - r) -> isInt (cy + r) ->
  isBuffer px ->
  Painted c (circlePixel cx cy r) px (fillCircle cx cy r c px).
Proof.
  intros H1 H2 H3 H4 Hpx. unfold fillCircle.
  destruct (Z.lt_ge_cases r 0) as [Hneg|Hpos].
  - rewrite zrange_nil by lia. cbn. apply Painted_refl.
    intros i j _ [x [y [Hx _]]]. lia.
  - eapply Painted_ext.
    + apply (circle_fold cx cy r c H1 H2 H3 H4 (Z.to_nat (r + 1 - 0)) 0 r px);
        [reflexivity|lia|lia|nia|exact Hpx].
    + intros i j _. unfold circlePixel. split; intros [x [y H]]; exists x, y; exact H.
Qed.

(** X22. What [fillCircle] writes, for a radius below [2^15] and a
    bounding box of [int]s: for each [x] of [0 .. r] the two horizontal
    runs of half-width [x] at distance [floor (sqrt (r * r - x * x))]
    above and below the centre.  A screen pixel at such a position gets
    the colour [c], every other pixel keeps its colour; in particular no
    pixel farther than [r] from the centre changes. *)
Theorem fillCircle_spec (cx cy r c : Z) (px : Pixels) (i j : Z) :
  r < 2 ^ 15 ->
  isInt (cx - r) -> isInt (cx + r + 1) -> isInt (cy - r) -> isInt (cy + r) ->
  isBuffer px -> onScreen i j ->
  isBuffer (fillCircle cx cy r c px)
  /\ (circlePixel cx cy r i j -> pixelAt (fillCircle cx cy r c px) i j = c)
  /\ (~ circlePixel cx cy r i j ->
      pixelAt (fillCircle cx cy r c px) i j = pixelAt px i j)
  /\ (r * r < (i - cx) * (i - cx) + (j - cy) * (j - cy) ->
      pixelAt (fillCircle cx cy r c px) i j = pixelAt px i j).
Proof.
  intros _ H1 H2 H3 H4 Hpx Hij.
  pose proof (fillCircle_Painted cx cy r c px H1 H2 H3 H4 Hpx) as HP.
  destruct (Painted_spec _ _ _ _ i j HP Hij) as [A B].
  split; [exact (Painted_buffer _ _ _ _ HP Hpx)|]. split; [exact A|]. split; [exact B|].
  intros Hout. apply B. intros [x [y [Hx [Hy [Hs [Hi Hj]]]]]].
  assert ((i - cx) * (i - cx) <= x * x) by nia.
  assert ((j - cy) * (j - cy) = y * y) by (destruct Hj as [->| ->]; nia).
  lia.
Qed.

Lemma fillCircle_spec_witness :
  isBuffer (fillCircle 100 100 12 9 (repeat 0 (Z.to_nat (WIDTH * HEIGHT))))
  /\ (circlePixel 100 100 12 100 112 ->
      pixelAt (fillCircle 100 100 12 9 (repeat 0 (Z.to_nat (WIDTH * HEIGHT)))) 100 112 = 9)
  /\ (~ circlePixel 100 100 12 100 112 ->
      pixelAt (fillCircle 100 100 12 9 (repeat 0 (Z.to_nat (WIDTH * HEIGHT)))) 100 112
      = pixelAt (repeat 0 (Z.to_nat (WIDTH * HEIGHT))) 100 112)
  /\ (12 * 12 < (100 - 100) * (100 - 100) + (112 - 100) * (112 - 100) ->
      pixelAt (fillCircle 100 100 12 9 (repeat 0 (Z.to_nat (WIDTH * HEIGHT)))) 100 112
      = pixelAt (repeat 0 (Z.to_nat (WIDTH * HEIGHT))) 100 112).
Proof.
  apply (fillCircle_spec 100 100 12 9 (repeat 0 (Z.to_nat (WIDTH * HEIGHT))) 100 112);
    try (unfold isInt; lia).
  - exact repeat_isBuffer.
  - unfold onScreen, WIDTH, HEIGHT. lia.
Defined.

(** X23. [fillCircle] does not fill the disc: for a radius of 3 or more
    (and below [2^15]) it never writes the rows next to the centre row,
    [cy + 1] and [cy - 1], although the pixels of those rows at column
    [cx] are at distance 1 from the centre; the pixel of the centre
    itself is written. *)
Theorem fillCircle_gap (cx cy r c : Z) (px : Pixels) (i : Z) :
  3 <= r < 2 ^ 15 ->
  isInt (cx - r) -> isInt (cx + r + 1) -> isInt (cy - r) -> isInt (cy + r) ->
  isBuffer px ->
  (onScreen i (cy + 1) ->
   pixelAt (fillCircle cx cy r c px) i (cy + 1) = pixelAt px i (cy + 1))
  /\ (onScreen i (cy - 1) ->
      pixelAt (fillCircle cx cy r c px) i (cy - 1) = pixelAt px i (cy - 1))
  /\ (onScreen cx cy -> pixelAt (fillCircle cx cy r c px) cx cy = c).
Proof.
  intros Hr H1 H2 H3 H4 Hpx.
  pose proof (fillCircle_Painted cx cy r c px H1 H2 H3 H4 Hpx) as HP.
  assert (Hno : forall x y, 0 <= x <= r -> 0 <= y ->
                            y * y + x * x <= r * r < (y + 1) * (y + 1) + x * x -> y <> 1).
  { intros x y Hx Hy Hs ->.
    destruct (Z.eq_dec x r) as [->|Hne]; [lia|].
    assert ((x + 1) * (x + 1) <= r * r) by nia.
    destruct (Z.le_gt_cases 2 x) as [H2x|H2x]; [lia|].
    assert (9 <= r * r) by nia. nia. }
  split; [|split].
  - intros Hij. apply (Painted_spec _ _ _ _ i (cy + 1) HP Hij).
    intros [x [y [Hx [Hy [Hs [_ Hj]]]]]].
    apply (Hno x y Hx Hy Hs). lia.
  - intros Hij. apply (Painted_spec _ _ _ _ i (cy - 1) HP Hij).
    intros [x [y [Hx [Hy [Hs [_ Hj]]]]]].
    apply (Hno x y Hx Hy Hs). lia.
  - intros Hc. apply (Painted_spec _ _ _ _ cx cy HP Hc).
    exists r, 0. split; [lia|]. split; [lia|]. split; [lia|]. split; lia.
Qed.

Lemma fillCircle_gap_witness :
  (onScreen 100 (100 + 1) ->
   pixelAt (fillCircle 100 100 12 9 (repeat 0 (Z.to_nat (WIDTH * HEIGHT)))) 100 (100 + 1)
   = pixelAt (repeat 0 (Z.to_nat (WIDTH * HEIGHT))) 100 (100 + 1))
  /\ (onScreen 100 (100 - 1) ->
      pixelAt (fillCircle 100 100 12 9 (repeat 0 (Z.to_nat (WIDTH * HEIGHT)))) 100 (100 - 1)
      = pixelAt (repeat 0 (Z.to_nat (WIDTH * HEIGHT))) 100 (100 - 1))
  /\ (onScreen 100 100 ->
      pixelAt (fillCircle 100 100 12 9 (repeat 0 (Z.to_nat (WIDTH * HEIGHT)))) 100 100 = 9).
Proof.
  apply (fillCircle_gap 100 100 12 9 (repeat 0 (Z.to_nat (WIDTH * HEIGHT))) 100);
    try (unfold isInt; lia).
  exact repeat_isBuffer.
Defined.

(** ** Drawing the room and the HUD *)

Ltac screen_consts :=
  change MAP_X with 720 in *; change MAP_Y with 44 in *;
  change ROOM_X with 120 in *; change ROOM_Y with 70 in *;
  change ROOM_W with 720 in *; change ROOM_H with 400 in *;
  change WIDTH with 960 in *; change HEIGHT with 540 in *.

Lemma inRect_true (x y w h i j : Z) :
  inRect x y w h i j = true <-> x <= i < x + w /\ y <= j < y + h.
Proof. unfold inRect. rewrite !andb_true_iff. lia. Qed.

Lemma inRect_true_r (x y w h i j : Z) :
  x <= i < x + w /\ y <= j < y + h -> inRect x y w h i j = true.
Proof. apply inRect_true. Qed.

Lemma inRect_false (x y w h i j : Z) :
  ~ (x <= i < x + w /\ y <= j < y + h) -> inRect x y w h i j = false.
Proof.
  intros H. apply not_true_is_false. intros E. apply H. apply inRect_true. exact E.
Qed.

Lemma onOutline_false (x y w h i j : Z) :
  ~ (x <= i < x + w /\ y <= j < y + h) -> onOutline x y w h i j = false.
Proof. intros H. unfold onOutline. rewrite (inRect_false _ _ _ _ _ _ H). reflexivity. Qed.

Lemma fold_pixel {A : Type} (f : Pixels -> A -> Pixels) (i j v : Z) (hit : A -> bool)
      (l : list A) :
  (forall a p, In a l -> isBuffer p -> isBuffer (f p a)) ->
  (forall a p, In a l -> isBuffer p ->
               pixelAt (f p a) i j = if hit a then v else pixelAt p i j) ->
  forall px, isBuffer px ->
  isBuffer (fold_left f l px)
  /\ pixelAt (fold_left f l px) i j = if existsb hit l then v else pixelAt px i j.
Proof.
  induction l as [|a l IH]; intros Hb Hp px Hpx.
  - cbn. split; [exact Hpx|reflexivity].
  - cbn [fold_left existsb].
    assert (Ha : isBuffer (f px a)) by (apply Hb; [left; reflexivity|exact Hpx]).
    destruct (IH (fun a0 p H => Hb a0 p (or_intror H)) (fun a0 p H => Hp a0 p (or_intror H))
                 (f px a) Ha) as [B E].
    split; [exact B|]. rewrite E, (Hp a px (or_introl eq_refl) Hpx).
    destruct (hit a), (existsb hit l); reflexivity.
Qed.

Lemma doorRect_values (d : Dir) :
  doorRect d = match d with
               | Up => mkRECT 440 68 520 88
               | Down => mkRECT 440 452 520 472
               | Left => mkRECT 118 230 138 310
               | Right => mkRECT 822 230 842 310
               end.
Proof. destruct d; reflexivity. Qed.

Lemma drawDoor_Painted (R : Room) (d : Dir) (p : Pixels) :
  isBuffer p ->
  Painted (doorColour R)
          (fun i j => door_get (r_doors R) (dir_int d) = true
                      /\ left (doorRect d) <= i < right (doorRect d)
                      /\ top (doorRect d) <= j < bottom (doorRect d))
          p (drawDoor R p d).
Proof.
  intros Hp. unfold drawDoor. destruct (door_get (r_doors R) (dir_int d)); cbn [negb].
  - cbv zeta. eapply Painted_ext; [apply fillRect_Painted; exact Hp|].
    intros i j _. split.
    + intros [A B]. split; [reflexivity|lia].
    + intros [_ [A B]]. lia.
  - apply Painted_refl. intros i j _ [A _]. discriminate.
Qed.

Lemma isInt_small (x : Z) : -1000000 <= x <= 1000000 -> isInt x.
Proof. unfold isInt. lia. Qed.

(** X24. [drawRoom] shows the lock state of the room on its doors: every
    pixel of the rectangle of a door the room has is red, [RGBA(180, 60,
    60)], while the room is not cleared and green, [RGBA(100, 220, 120)],
    once it is; the one exception is the boss room, whose tint outline is
    drawn over the doors. *)
Theorem drawRoom_door_colour (R : Room) (px : Pixels) (d : Dir) (i j : Z) :
  isBuffer px ->
  door_get (r_doors R) (dir_int d) = true ->
  left (doorRect d) <= i < right (doorRect d) ->
  top (doorRect d) <= j < bottom (doorRect d) ->
  pixelAt (drawRoom R px) i j
  = if r_boss R && onOutline (ROOM_X + 3) (ROOM_Y + 3) (ROOM_W - 6) (ROOM_H - 6) i j
    then RGBA 200 80 200 255
    else if r_cleared R then RGBA 100 220 120 255 else RGBA 180 60 60 255.
Proof.
  intros Hpx Hd Hi Hj.
  assert (Hij : onScreen i j).
  { rewrite doorRect_values in Hi, Hj. unfold onScreen. screen_consts.
    destruct d; cbn [left right top bottom] in Hi, Hj; lia. }
  unfold drawRoom. cbv zeta.
  assert (B1 : isBuffer (fillRect ROOM_X ROOM_Y ROOM_W ROOM_H (RGBA 20 20 25 255) px))
    by (apply fillRect_buffer; exact Hpx).
  assert (B2 : isBuffer (drawRect ROOM_X ROOM_Y ROOM_W ROOM_H (RGBA 200 200 200 255)
                           (fillRect ROOM_X ROOM_Y ROOM_W ROOM_H (RGBA 20 20 25 255) px))).
  { apply drawRect_buffer; [| | | | | |exact B1]; screen_consts;
      try lia; apply isInt_small; lia. }
  remember (drawRect ROOM_X ROOM_Y ROOM_W ROOM_H (RGBA 200 200 200 255)
              (fillRect ROOM_X ROOM_Y ROOM_W ROOM_H (RGBA 20 20 25 255) px)) as p2 eqn:E2.
  clear E2 B1.
  assert (P3 : Painted (doorColour R)
                 (fun i j => exists d', In d' [Up; Right; Down; Left]
                     /\ door_get (r_doors R) (dir_int d') = true
                     /\ left (doorRect d') <= i < right (doorRect d')
                     /\ top (doorRect d') <= j < bottom (doorRect d'))
                 p2 (fold_left (drawDoor R) [Up; Right; Down; Left] p2)).
  { apply (Painted_fold (doorColour R) (fun d' p => drawDoor R p d')
             (fun d' i j => door_get (r_doors R) (dir_int d') = true
                            /\ left (doorRect d') <= i < right (doorRect d')
                            /\ top (doorRect d') <= j < bottom (doorRect d')));
      [|exact B2].
    intros d' p _ Hp. apply drawDoor_Painted. exact Hp. }
  assert (E3 : pixelAt (fold_left (drawDoor R) [Up; Right; Down; Left] p2) i j
               = doorColour R).
  { apply (Painted_spec _ _ _ _ i j P3 Hij). exists d.
    split; [destruct d; cbn; tauto|]. split; [exact Hd|]. split; assumption. }
  assert (Ec : doorColour R
               = if r_cleared R then RGBA 100 220 120 255 else RGBA 180 60 60 255)
    by (unfold doorColour; destruct (r_cleared R); reflexivity).
  destruct (r_boss R); cbn [andb].
  - rewrite drawRect_pixel;
      [| | | | | | |exact (Painted_buffer _ _ _ _ P3 B2)|exact Hij];
      try (screen_consts; lia); try (apply isInt_small; screen_consts; lia).
    rewrite E3, Ec. reflexivity.
  - rewrite E3. exact Ec.
Qed.

Lemma drawRoom_door_colour_witness :
  pixelAt (drawRoom (mkRoom true false false (mkDoors true false false false) [])
                    (repeat 0 (Z.to_nat (WIDTH * HEIGHT)))) 480 75
  = if false && onOutline (ROOM_X + 3) (ROOM_Y + 3) (ROOM_W - 6) (ROOM_H - 6) 480 75
    then RGBA 200 80 200 255
    else if false then RGBA 100 220 120 255 else RGBA 180 60 60 255.
Proof.
  apply (drawRoom_door_colour (mkRoom true false false (mkDoors true false false false) [])
           (repeat 0 (Z.to_nat (WIDTH * HEIGHT))) Up 480 75).
  - exact repeat_isBuffer.
  - reflexivity.
  - rewrite doorRect_values. cbn [left right]. lia.
  - rewrite doorRect_values. cbn [top bottom]. lia.
Defined.

Lemma mapDot_buffer (s : State) (p : Pixels) (c : Z * Z) :
  isBuffer p -> isBuffer (mapDot s p c).
Proof.
  intros Hp. destruct c as [x y]. unfold mapDot.
  destruct (negb (r_exists (getRoom (g_dungeon s) x y))); [exact Hp|].
  apply fillRect_buffer. exact Hp.
Qed.

Lemma mapDot_pixel (s : State) (p : Pixels) (x y i j : Z) :
  isBuffer p -> onScreen i j ->
  pixelAt (mapDot s p (x, y)) i j
  = if r_exists (getRoom (g_dungeon s) x y) && inRect (MAP_X + x * 8) (MAP_Y + y * 8) 6 6 i j
    then dotColour s x y (getRoom (g_dungeon s) x y) else pixelAt p i j.
Proof.
  intros Hp Hij. unfold mapDot.
  destruct (r_exists (getRoom (g_dungeon s) x y)); cbn [negb andb]; [|reflexivity].
  apply fillRect_pixel; assumption.
Qed.

Lemma drawBanner_outside (p : Pixels) (i j : Z) :
  isBuffer p -> onScreen i j -> ~ (255 <= i < 705 /\ 245 <= j < 295) ->
  pixelAt (drawBanner p) i j = pixelAt p i j.
Proof.
  intros Hp Hij Hout. unfold drawBanner. cbv zeta.
  change (Z.quot (WIDTH - 450) 2) with 255. change (Z.quot (HEIGHT - 50) 2) with 245.
  assert (B1 : isBuffer (fillRect 255 245 450 50 (RGBA 0 0 0 220) p))
    by (apply fillRect_buffer; exact Hp).
  assert (B2 : isBuffer (drawRect 255 245 450 50 (RGBA 255 255 255 255)
                                  (fillRect 255 245 450 50 (RGBA 0 0 0 220) p)))
    by (apply drawRect_buffer; [lia|lia| | | | |exact B1]; apply isInt_small; lia).
  rewrite fillRect_pixel; [|apply fillRect_buffer; exact B2|exact Hij].
  rewrite inRect_false by lia.
  rewrite fillRect_pixel; [|exact B2|exact Hij].
  rewrite inRect_false by lia.
  rewrite drawRect_pixel; [|lia|lia| | | | |exact B1|exact Hij];
    try (apply isInt_small; lia).
  rewrite onOutline_false by lia.
  rewrite fillRect_pixel; [|exact Hp|exact Hij].
  rewrite inRect_false by lia. reflexivity.
Qed.

Lemma hearts_Painted (hp : Z) (px : Pixels) :
  isBuffer px ->
  Painted (RGBA 220 40 40 255)
          (fun i j => exists k, In k (zrange 0 hp)
                                /\ ROOM_X + k * 16 <= i < ROOM_X + k * 16 + 14
                                /\ ROOM_Y - 28 <= j < ROOM_Y - 28 + 14)
          px (fold_left (fun p k => fillRect (ROOM_X + k * 16) (ROOM_Y - 28) 14 14
                                             (RGBA 220 40 40 255) p)
                        (zrange 0 hp) px).
Proof.
  intros Hpx.
  apply (Painted_fold (RGBA 220 40 40 255)
           (fun k p => fillRect (ROOM_X + k * 16) (ROOM_Y - 28) 14 14 (RGBA 220 40 40 255) p)
           (fun k i j => ROOM_X + k * 16 <= i < ROOM_X + k * 16 + 14
                         /\ ROOM_Y - 28 <= j < ROOM_Y - 28 + 14)); [|exact Hpx].
  intros k p _ Hp. apply fillRect_Painted. exact Hp.
Qed.

(** The HUD after the hearts and the top line, before the mini-map. *)
Lemma hud_line_pixel (p1 : Pixels) (i j : Z) :
  isBuffer p1 -> onScreen i j -> j <> 36 ->
  isBuffer (drawRect ROOM_X (ROOM_Y - 34) ROOM_W 1 (RGBA 255 255 255 255) p1)
  /\ pixelAt (drawRect ROOM_X (ROOM_Y - 34) ROOM_W 1 (RGBA 255 255 255 255) p1) i j
     = pixelAt p1 i j.
Proof.
  intros Hp Hij Hj. split.
  - apply drawRect_buffer; [| | | | | |exact Hp]; screen_consts; try lia;
      apply isInt_small; lia.
  - rewrite drawRect_pixel; [| | | | | | |exact Hp|exact Hij];
      try (screen_consts; lia); try (apply isInt_small; screen_consts; lia).
    rewrite onOutline_false; [reflexivity|]. screen_consts. lia.
Qed.

(** X25. [drawHUD] draws one heart per point of health: for a health of
    at most 6 (as the player's always is), the 14 by 14 square of the
    heart slot [k], for [k] from 0 to 5, is red when [k] is below the
    player's health and keeps its old colour otherwise; neither the
    mini-map nor the end-of-run banner covers a heart. *)
Theorem drawHUD_hearts (s : State) (px : Pixels) (k u v : Z) :
  isBuffer px -> pl_hp (g_player s) <= 6 ->
  0 <= k < 6 -> 0 <= u < 14 -> 0 <= v < 14 ->
  pixelAt (drawHUD s px) (ROOM_X + k * 16 + u) (ROOM_Y - 28 + v)
  = if k <? pl_hp (g_player s) then RGBA 220 40 40 255
    else pixelAt px (ROOM_X + k * 16 + u) (ROOM_Y - 28 + v).
Proof.
  intros Hpx Hhp Hk Hu Hv.
  remember (ROOM_X + k * 16 + u) as i eqn:Ei.
  remember (ROOM_Y - 28 + v) as j eqn:Ej.
  assert (Hij : onScreen i j) by (unfold onScreen; screen_consts; lia).
  pose proof (hearts_Painted (pl_hp (g_player s)) px Hpx) as P1.
  pose proof (Painted_buffer _ _ _ _ P1 Hpx) as B1.
  assert (E1 : pixelAt (fold_left (fun p k => fillRect (ROOM_X + k * 16) (ROOM_Y - 28) 14 14
                                                       (RGBA 220 40 40 255) p)
                                  (zrange 0 (pl_hp (g_player s))) px) i j
               = if k <? pl_hp (g_player s) then RGBA 220 40 40 255 else pixelAt px i j).
  { destruct (Painted_spec _ _ _ _ i j P1 Hij) as [A B].
    destruct (k <? pl_hp (g_player s)) eqn:E.
    - apply Z.ltb_lt in E. apply A. exists k. split; [apply In_zrange; lia|].
      screen_consts. lia.
    - apply Z.ltb_ge in E. apply B. intros [k' [Hin [Hi Hj]]].
      apply In_zrange in Hin. screen_consts. lia. }
  destruct (hud_line_pixel _ i j B1 Hij) as [B2 E2]; [screen_consts; lia|].
  destruct (fold_pixel (mapDot s) i j 0 (fun _ => false) allCells) with
    (px := drawRect ROOM_X (ROOM_Y - 34) ROOM_W 1 (RGBA 255 255 255 255)
             (fold_left (fun p k => fillRect (ROOM_X + k * 16) (ROOM_Y - 28) 14 14
                                             (RGBA 220 40 40 255) p)
                        (zrange 0 (pl_hp (g_player s))) px)) as [B3 E3].
  { intros a p _ Hp. apply mapDot_buffer. exact Hp. }
  { intros [x y] p Hin Hp. apply In_allCells in Hin.
    unfold inb in Hin. rewrite !andb_true_iff in Hin.
    rewrite mapDot_pixel by assumption.
    rewrite inRect_false; [rewrite andb_false_r; reflexivity|].
    screen_consts. lia. }
  { exact B2. }
  assert (Ex : existsb (fun _ : Z * Z => false) allCells = false)
    by reflexivity.
  rewrite Ex in E3.
  unfold drawHUD. cbv zeta.
  destruct (g_runOver s).
  - rewrite drawBanner_outside; [|exact B3|exact Hij|screen_consts; lia].
    rewrite E3, E2. exact E1.
  - rewrite E3, E2. exact E1.
Qed.

Lemma drawHUD_hearts_witness :
  pixelAt (drawHUD duelState (repeat 0 (Z.to_nat (WIDTH * HEIGHT))))
          (ROOM_X + 2 * 16 + 3) (ROOM_Y - 28 + 4)
  = if 2 <? pl_hp (g_player duelState) then RGBA 220 40 40 255
    else pixelAt (repeat 0 (Z.to_nat (WIDTH * HEIGHT)))
                 (ROOM_X + 2 * 16 + 3) (ROOM_Y - 28 + 4).
Proof.
  apply (drawHUD_hearts duelState (repeat 0 (Z.to_nat (WIDTH * HEIGHT))) 2 3 4);
    try lia.
  - exact repeat_isBuffer.
  - vm_compute. discriminate.
Defined.

(** X26. The mini-map of [drawHUD] shows the floor as it is: for a health
    of at most 6, the 6 by 6 dot of a grid cell is painted exactly when
    the cell's room exists, white for the current room, else purple for
    the boss room, else grey; the dot of a cell without a room keeps its
    old colour. *)
Theorem drawHUD_minimap (s : State) (px : Pixels) (x y u v : Z) :
  isBuffer px -> pl_hp (g_player s) <= 6 ->
  inb x y = true -> 0 <= u < 6 -> 0 <= v < 6 ->
  pixelAt (drawHUD s px) (MAP_X + x * 8 + u) (MAP_Y + y * 8 + v)
  = if r_exists (getRoom (g_dungeon s) x y)
    then if (x =? g_rx s) && (y =? g_ry s) then RGBA 255 255 255 255
         else if r_boss (getRoom (g_dungeon s) x y) then RGBA 200 90 200 255
              else RGBA 120 120 120 255
    else pixelAt px (MAP_X + x * 8 + u) (MAP_Y + y * 8 + v).
Proof.
  intros Hpx Hhp Hin Hu Hv.
  assert (Hxy : 0 <= x < 5 /\ 0 <= y < 5).
  { unfold inb in Hin. rewrite !andb_true_iff in Hin.
    change GRID_W with 5 in Hin. change GRID_H with 5 in Hin. lia. }
  remember (MAP_X + x * 8 + u) as i eqn:Ei.
  remember (MAP_Y + y * 8 + v) as j eqn:Ej.
  assert (Hij : onScreen i j) by (unfold onScreen; screen_consts; lia).
  pose proof (hearts_Painted (pl_hp (g_player s)) px Hpx) as P1.
  pose proof (Painted_buffer _ _ _ _ P1 Hpx) as B1.
  assert (E1 : pixelAt (fold_left (fun p k => fillRect (ROOM_X + k * 16) (ROOM_Y - 28) 14 14
                                                       (RGBA 220 40 40 255) p)
                                  (zrange 0 (pl_hp (g_player s))) px) i j
               = pixelAt px i j).
  { apply (Painted_spec _ _ _ _ i j P1 Hij). intros [k' [Hk' [Hi Hj]]].
    apply In_zrange in Hk'. screen_consts. lia. }
  destruct (hud_line_pixel _ i j B1 Hij) as [B2 E2]; [screen_consts; lia|].
  destruct (fold_pixel (mapDot s) i j
              (dotColour s x y (getRoom (g_dungeon s) x y))
              (fun c => (fst c =? x) && (snd c =? y)
                        && r_exists (getRoom (g_dungeon s) x y)) allCells) with
    (px := drawRect ROOM_X (ROOM_Y - 34) ROOM_W 1 (RGBA 255 255 255 255)
             (fold_left (fun p k => fillRect (ROOM_X + k * 16) (ROOM_Y - 28) 14 14
                                             (RGBA 220 40 40 255) p)
                        (zrange 0 (pl_hp (g_player s))) px)) as [B3 E3].
  { intros a p _ Hp. apply mapDot_buffer. exact Hp. }
  { intros [x' y'] p _ Hp. rewrite mapDot_pixel by assumption. cbn [fst snd].
    destruct (Z.eqb_spec x' x) as [->|Hx']; [destruct (Z.eqb_spec y' y) as [->|Hy']|].
    - rewrite inRect_true_r; [rewrite andb_true_r; reflexivity|]. screen_consts. lia.
    - rewrite inRect_false; [rewrite andb_false_r; reflexivity|]. screen_consts. lia.
    - rewrite inRect_false; [rewrite andb_false_r; reflexivity|]. screen_consts. lia. }
  { exact B2. }
  assert (Ex : existsb (fun c : Z * Z => (fst c =? x) && (snd c =? y)
                                         && r_exists (getRoom (g_dungeon s) x y)) allCells
               = r_exists (getRoom (g_dungeon s) x y)).
  { destruct (r_exists (getRoom (g_dungeon s) x y)).
    - apply existsb_exists. exists (x, y). split; [apply In_allCells; exact Hin|].
      cbn [fst snd]. rewrite !Z.eqb_refl. reflexivity.
    - apply not_true_is_false. intros H. apply existsb_exists in H.
      destruct H as [c [_ H]]. rewrite andb_false_r in H. discriminate. }
  rewrite Ex in E3.
  assert (Ed : dotColour s x y (getRoom (g_dungeon s) x y)
               = if (x =? g_rx s) && (y =? g_ry s) then RGBA 255 255 255 255
                 else if r_boss (getRoom (g_dungeon s) x y) then RGBA 200 90 200 255
                      else RGBA 120 120 120 255) by reflexivity.
  unfold drawHUD. cbv zeta.
  destruct (g_runOver s).
  - rewrite drawBanner_outside; [|exact B3|exact Hij|screen_consts; lia].
    rewrite E3, E2, E1, Ed. reflexivity.
  - rewrite E3, E2, E1, Ed. reflexivity.
Qed.

Lemma drawHUD_minimap_witness :
  pixelAt (drawHUD duelState (repeat 0 (Z.to_nat (WIDTH * HEIGHT))))
          (MAP_X + 2 * 8 + 1) (MAP_Y + 2 * 8 + 1)
  = if r_exists (getRoom (g_dungeon duelState) 2 2)
    then if (2 =? g_rx duelState) && (2 =? g_ry duelState) then RGBA 255 255 255 255
         else if r_boss (getRoom (g_dungeon duelState) 2 2) then RGBA 200 90 200 255
              else RGBA 120 120 120 255
    else pixelAt (repeat 0 (Z.to_nat (WIDTH * HEIGHT)))
                 (MAP_X + 2 * 8 + 1) (MAP_Y + 2 * 8 + 1).
Proof.
  apply (drawHUD_minimap duelState (repeat 0 (Z.to_nat (WIDTH * HEIGHT))) 2 2 1 1);
    try lia.
  - exact repeat_isBuffer.
  - vm_compute. discriminate.
  - reflexivity.
Defined.

(** ** The frame *)

Lemma index_decode (n : nat) :
  Z.of_nat n < WIDTH * HEIGHT ->
  onScreen (Z.of_nat n mod WIDTH) (Z.of_nat n / WIDTH)
  /\ Z.to_nat (Z.of_nat n / WIDTH * WIDTH + Z.of_nat n mod WIDTH) = n.
Proof.
  unfold onScreen, WIDTH, HEIGHT. intros Hn.
  assert (Hm : 0 <= Z.of_nat n mod 960 < 960) by (apply Z.mod_pos_bound; lia).
  assert (Hd : 0 <= Z.of_nat n / 960 < 540).
  { split; [apply Z.div_pos; lia|]. apply Z.div_lt_upper_bound; lia. }
  split; [split; assumption|].
  rewrite (Z.mul_comm (Z.of_nat n / 960)), <- Z.div_mod by lia. lia.
Qed.

Lemma all_pixels (c : Z) (q : Pixels) :
  isBuffer q -> (forall i j, onScreen i j -> pixelAt q i j = c) ->
  q = repeat c (Z.to_nat (WIDTH * HEIGHT)).
Proof.
  intros HB Hall. apply (nth_ext _ _ 0 c).
  - rewrite repeat_length. exact HB.
  - intros n Hn. rewrite nth_repeat. rewrite HB in Hn.
    assert (Hn' : Z.of_nat n < WIDTH * HEIGHT) by lia.
    destruct (index_decode n Hn') as [Hij E].
    specialize (Hall _ _ Hij). unfold pixelAt in Hall. rewrite E in Hall. exact Hall.
Qed.

Lemma clear_repeat (c : Z) (px : Pixels) :
  isBuffer px -> clear c px = repeat c (Z.to_nat (WIDTH * HEIGHT)).
Proof.
  intros Hpx. pose proof (clear_Painted c px Hpx) as HP.
  apply all_pixels.
  - exact (Painted_buffer _ _ _ _ HP Hpx).
  - intros i j Hij. apply (Painted_spec _ _ _ _ i j HP Hij). exact I.
Qed.

(** X27. Every frame is drawn from scratch: the render block starts with
    [clear], which overwrites the whole buffer, so the picture of a state
    does not depend on what the buffer held before (the previous frame
    leaves no trace). *)
Theorem render_fresh (s : State) (px1 px2 : Pixels) :
  isBuffer px1 -> isBuffer px2 -> render s px1 = render s px2.
Proof.
  intros H1 H2.
  assert (E : clear (RGBA 15 15 18 255) px1 = clear (RGBA 15 15 18 255) px2).
  { transitivity (repeat (RGBA 15 15 18 255) (Z.to_nat (WIDTH * HEIGHT))).
    - apply clear_repeat. exact H1.
    - symmetry. apply clear_repeat. exact H2. }
  unfold render. cbv zeta. rewrite E. reflexivity.
Qed.

Lemma render_fresh_witness :
  render duelState (repeat 0 (Z.to_nat (WIDTH * HEIGHT)))
  = render duelState (repeat 7 (Z.to_nat (WIDTH * HEIGHT))).
Proof.
  apply (render_fresh duelState (repeat 0 (Z.to_nat (WIDTH * HEIGHT)))
                      (repeat 7 (Z.to_nat (WIDTH * HEIGHT)))).
  - exact repeat_isBuffer.
  - unfold isBuffer. apply repeat_length.
Defined.
